(** * BufferStream: a growable byte buffer with a read/write cursor

    A shallow embedding of [src/BufferStream.js] (dcmjs).  The JavaScript
    class keeps an [ArrayBuffer], a [DataView] over it, a byte [offset], an
    endianness flag and a logical [size].  Here

    - JavaScript Numbers are IEEE 754 binary64 values ([spec_float] of the
      standard library, precision 53, [emax] 1024);
    - an [ArrayBuffer] is a reference into a store of byte lists, so that
      aliasing and copying are visible;
    - a method is a computation over the store and the receiver that either
      returns or throws, the store and the receiver surviving a throw as
      they do in JavaScript.

    Offsets and lengths are integers ([Z]); the fractional offsets that the
    source can produce from an odd number of hex digits or from a
    fractional length argument are outside the model. *)

From Stdlib Require Import ZArith Lia Bool String Ascii.
From Stdlib Require Import Floats.SpecFloat.
From stdpp Require Import base list.

Local Open Scope Z_scope.

(** ** Bytes and byte order *)

(** The [n] low-order bytes of [z], least significant first. *)
Fixpoint le_bytes (n : nat) (z : Z) : list Z :=
  match n with
  | O => []
  | S k => Z.land z 255 :: le_bytes k (Z.shiftr z 8)
  end.

(** The unsigned integer whose little-endian bytes are [bs]. *)
Fixpoint le_value (bs : list Z) : Z :=
  match bs with
  | [] => 0
  | b :: rest => Z.lor b (Z.shiftl (le_value rest) 8)
  end.

(** Raw bytes are kept least significant first; a big-endian access
    reverses them. *)
Definition byte_order (littleEndian : bool) (bs : list Z) : list Z :=
  if littleEndian then bs else rev bs.

(** Two's complement reading of a [w]-bit unsigned integer. *)
Definition signed (w : Z) (u : Z) : Z :=
  if u <? 2 ^ (w - 1) then u else u - 2 ^ w.

(** ** JavaScript Numbers *)

Definition number := spec_float.

Definition NaN : number := S754_nan.

Definition is_nan (x : number) : bool :=
  match x with S754_nan => true | _ => false end.

(** The Number nearest to the integer [z] (exact when [|z| < 2^53]). *)
Definition of_Z (z : Z) : number := binary_normalize 53 1024 z 0 false.

(** Truncation towards zero, with NaN, the zeros and the infinities sent to
    0: the integer that the modular conversions ToUint8 ... ToInt32 start
    from. *)
Definition truncate (x : number) : Z :=
  match x with
  | S754_finite s m e => cond_Zopp s (Z.shiftl (Zpos m) e)
  | _ => 0
  end.

(** ToUint8, ToUint16, ToUint32 (and the bit patterns of ToInt8, ToInt16,
    ToInt32) for [w] = 8, 16, 32. *)
Definition ToUint (w : Z) (x : number) : Z := truncate x mod 2 ^ w.

Definition ToInt32 (x : number) : Z := signed 32 (ToUint 32 x).

(** *** Binary interchange formats

    [bits_of prec emax] is the IEEE 754 encoding of a value of the format
    with precision [prec] and exponent bound [emax]: sign bit, biased
    exponent on [log2 (2 * emax)] bits, trailing significand on [prec - 1]
    bits.  NaN is written as the quiet NaN with an empty payload. *)
Section Interchange.
Variables prec emax : Z.

Definition join_bits (s : bool) (E M : Z) : Z :=
  (if s then 2 * emax * 2 ^ (prec - 1) else 0) + E * 2 ^ (prec - 1) + M.

Definition bits_of (x : spec_float) : Z :=
  match x with
  | S754_zero s => join_bits s 0 0
  | S754_infinity s => join_bits s (2 * emax - 1) 0
  | S754_nan => join_bits false (2 * emax - 1) (2 ^ (prec - 2))
  | S754_finite s m e =>
      if 2 ^ (prec - 1) <=? Zpos m
      then join_bits s (e - emin prec emax + 1) (Zpos m - 2 ^ (prec - 1))
      else join_bits s 0 (Zpos m)
  end.

Definition of_bits (b : Z) : spec_float :=
  let M := b mod 2 ^ (prec - 1) in
  let E := (b / 2 ^ (prec - 1)) mod (2 * emax) in
  let s := negb (b / (2 * emax * 2 ^ (prec - 1)) =? 0) in
  if E =? 0 then
    (if M =? 0 then S754_zero s else S754_finite s (Z.to_pos M) (emin prec emax))
  else if E =? 2 * emax - 1 then
    (if M =? 0 then S754_infinity s else S754_nan)
  else S754_finite s (Z.to_pos (M + 2 ^ (prec - 1))) (E + emin prec emax - 1).
End Interchange.

(** Rounding of a Number to binary32, to nearest with ties to even. *)
Definition to_binary32 (x : number) : spec_float :=
  match x with
  | S754_finite s m e => binary_round 24 128 s m e
  | _ => x
  end.

(** A binary32 value as the Number of the same real value. *)
Definition of_binary32 (x : spec_float) : number :=
  match x with
  | S754_finite s m e => binary_round 53 1024 s m e
  | _ => x
  end.

(** ** Text to Number: StringToNumber, parseInt, parseFloat

    JavaScript strings are modelled by [string], one character per code
    unit below 256. *)

Definition charCode (c : ascii) : Z := Z.of_N (N_of_ascii c).

(** StrWhiteSpaceChar, as far as it lies below 256. *)
Definition is_white_space (c : ascii) : bool :=
  let n := charCode c in
  ((9 <=? n) && (n <=? 13)) || (n =? 32) || (n =? 160).

Fixpoint trim_start (s : string) : string :=
  match s with
  | String c r => if is_white_space c then trim_start r else s
  | EmptyString => s
  end.

Fixpoint string_rev (s : string) : string :=
  match s with
  | String c r => (string_rev r ++ String c EmptyString)%string
  | EmptyString => EmptyString
  end.

Definition trim (s : string) : string :=
  string_rev (trim_start (string_rev (trim_start s))).

Fixpoint strip_prefix (p s : string) : option string :=
  match p, s with
  | EmptyString, _ => Some s
  | String a p', String b s' => if Ascii.eqb a b then strip_prefix p' s' else None
  | String _ _, EmptyString => None
  end.

(** The value of [c] as a digit of the given radix (at most 36). *)
Definition digit_in (radix : Z) (c : ascii) : option Z :=
  let n := charCode c in
  let d := if (48 <=? n) && (n <=? 57) then n - 48
           else if (97 <=? n) && (n <=? 122) then n - 87
           else if (65 <=? n) && (n <=? 90) then n - 55
           else 36 in
  if d <? radix then Some d else None.

(** The longest prefix of [s] made of digits: its value continuing from
    [acc], the number of digits read continuing from [n], and the rest. *)
Fixpoint read_digits (radix : Z) (acc : Z) (n : Z) (s : string) : Z * Z * string :=
  match s with
  | String c r =>
      match digit_in radix c with
      | Some d => read_digits radix (acc * radix + d) (n + 1) r
      | None => (acc, n, s)
      end
  | EmptyString => (acc, n, s)
  end.

(** A leading sign: whether it is a minus, and the rest. *)
Definition read_sign (s : string) : bool * string :=
  match s with
  | String "-"%char r => (true, r)
  | String "+"%char r => (false, r)
  | _ => (false, s)
  end.

(** The Number nearest to [± D × 10^X], ties to even. *)
Definition decimal_to_number (neg : bool) (D X : Z) : number :=
  if D =? 0 then S754_zero neg
  else if 0 <=? X then binary_normalize 53 1024 (cond_Zopp neg (D * 10 ^ X)) 0 false
  else let '(q, e, l) := SFdiv_core_binary 53 1024 D 0 (10 ^ (- X)) 0 in
       binary_round_aux 53 1024 neg q e l.

(** The longest prefix of [s] that is a StrUnsignedDecimalLiteral: its
    value under the given sign, and the rest. *)
Definition read_decimal (neg : bool) (s : string) : option (number * string) :=
  match strip_prefix "Infinity" s with
  | Some r => Some (S754_infinity neg, r)
  | None =>
      let '(ip, n1, r1) := read_digits 10 0 0 s in
      let '(D, n2, r2) :=
        match r1 with
        | String "."%char r => read_digits 10 ip 0 r
        | _ => (ip, 0, r1)
        end in
      if (n1 =? 0) && (n2 =? 0) then None
      else
        let with_exponent r :=
          let '(eneg, r') := read_sign r in
          let '(x, n3, r3) := read_digits 10 0 0 r' in
          if n3 =? 0 then None else Some (cond_Zopp eneg x, r3) in
        let exponent :=
          match r2 with
          | String "e"%char r => with_exponent r
          | String "E"%char r => with_exponent r
          | _ => None
          end in
        match exponent with
        | Some (x, r3) => Some (decimal_to_number neg D (x - n2), r3)
        | None => Some (decimal_to_number neg D (- n2), r2)
        end
  end.

(** All of [s] as digits of the given radix, for the literals 0x.., 0o..,
    0b... *)
Definition all_digits (radix : Z) (s : string) : number :=
  match read_digits radix 0 0 s with
  | (v, n, EmptyString) => if n =? 0 then NaN else of_Z v
  | _ => NaN
  end.

(** StringToNumber: the Number a string converts to, NaN when it is not a
    StringNumericLiteral. *)
Definition StringToNumber (s : string) : number :=
  let t := trim s in
  match t with
  | EmptyString => S754_zero false
  | String "0"%char (String "x"%char r) | String "0"%char (String "X"%char r) => all_digits 16 r
  | String "0"%char (String "o"%char r) | String "0"%char (String "O"%char r) => all_digits 8 r
  | String "0"%char (String "b"%char r) | String "0"%char (String "B"%char r) => all_digits 2 r
  | _ =>
      let '(neg, r) := read_sign t in
      match read_decimal neg r with
      | Some (x, EmptyString) => x
      | _ => NaN
      end
  end.

(** parseFloat: the longest decimal literal at the start of the string. *)
Definition parseFloat (s : string) : number :=
  let '(neg, r) := read_sign (trim_start s) in
  match read_decimal neg r with
  | Some (x, _) => x
  | None => NaN
  end.

(** parseInt with the given radix, 0 for an absent one: the longest run of
    digits after white space, a sign and, for radix 0 or 16, a 0x prefix. *)
Definition parseInt (s : string) (radix : Z) : number :=
  let '(neg, r) := read_sign (trim_start s) in
  let '(R, r) :=
    match r with
    | String "0"%char (String "x"%char r') | String "0"%char (String "X"%char r') =>
        if (radix =? 0) || (radix =? 16) then (16, r') else (radix, r)
    | _ => (if radix =? 0 then 10 else radix, r)
    end in
  let '(v, n, _) := read_digits R 0 0 r in
  if n =? 0 then NaN
  else if v =? 0 then S754_zero neg
  else of_Z (cond_Zopp neg v).

(** Number.prototype.toString(16) on a non-negative integer: lowercase
    digits, no leading zero, no padding. *)
Definition hex_digit (d : Z) : ascii :=
  ascii_of_N (Z.to_N (if d <? 10 then 48 + d else 87 + d)).

Fixpoint hex_digits (fuel : nat) (z : Z) (acc : string) : string :=
  match fuel with
  | O => acc
  | S k =>
      let acc' := String (hex_digit (z mod 16)) acc in
      if z / 16 =? 0 then acc' else hex_digits k (z / 16) acc'
  end.

Definition toString16 (x : number) : string :=
  let z := truncate x in hex_digits (S (Z.to_nat (Z.log2 z))) z EmptyString.

(** ** Values and coercions *)

(** What a caller may hand to a writer. *)
Inductive value :=
| VUndefined
| VNull
| VBoolean (b : bool)
| VNumber (x : number)
| VString (s : string).

Definition ToNumber (v : value) : number :=
  match v with
  | VUndefined => NaN
  | VNull => S754_zero false
  | VBoolean b => if b then of_Z 1 else S754_zero false
  | VNumber x => x
  | VString s => StringToNumber s
  end.

(** The global [isNaN]: it converts its argument first. *)
Definition isNaN (v : value) : bool := is_nan (ToNumber v).

Inductive exn :=
| NotANumber (val : value)  (** [Error("Not a number: " + val)] *)
| RequestMoreThanAllocated  (** [Error("Request more than currently allocated buffer")] *)
| RangeError                (** raised by ArrayBuffer, DataView and typed arrays *)
| TypeError                 (** a call of a method the class does not have *)
| OutsideModel.             (** an offset that is not an integer, or a loop out of fuel *)

Inductive outcome (A : Type) :=
| Return (a : A)
| Throw (e : exn).
Arguments Return {A} a.
Arguments Throw {A} e.

Definition toInt (val : value) : outcome value :=
  if isNaN val then Throw (NotANumber val)
  else match val with
       | VString s => Return (VNumber (parseInt s 0))
       | _ => Return val
       end.

Definition toFloat (val : value) : outcome value :=
  if isNaN val then Throw (NotANumber val)
  else match val with
       | VString s => Return (VNumber (parseFloat s))
       | _ => Return val
       end.

(** [toBinaryArray] on a string; [None] stands for the other inputs that
    reach it from [writeString] ([null], [undefined], the empty string
    standing in for them), which give no bytes. *)
Fixpoint charCodes (s : string) : list Z :=
  match s with
  | String c r => charCode c :: charCodes r
  | EmptyString => []
  end.

Definition toBinaryArray (str : option string) : list Z :=
  match str with
  | Some s => charCodes s
  | None => []
  end.

(** ** ArrayBuffers, typed arrays and DataView *)

(** An ArrayBuffer is a reference; the store holds the bytes of every
    buffer allocated so far. *)
Abbreviation ArrayBuffer := nat (only parsing).
Abbreviation store := (list (list Z)) (only parsing).

Definition contents (h : store) (b : ArrayBuffer) : list Z := h !!! b.

Definition byteLength (h : store) (b : ArrayBuffer) : Z :=
  Z.of_nat (length (contents h b)).

Definition alloc (h : store) (bs : list Z) : ArrayBuffer * store :=
  (length h, h ++ [bs]).

(** The bytes that [ArrayBuffer.prototype.slice(start, end)] copies; an
    absent [end] is [None]. *)
Definition slice_bytes (bs : list Z) (start : Z) (end_ : option Z) : list Z :=
  let len := Z.of_nat (length bs) in
  let clamp r := if r <? 0 then Z.max (len + r) 0 else Z.min r len in
  let first := clamp start in
  let final := match end_ with Some e => clamp e | None => len end in
  let newLen := Z.max (final - first) 0 in
  take (Z.to_nat newLen) (drop (Z.to_nat first) bs).

(** [target] with [source] written over it from index [off] on. *)
Definition splice (target : list Z) (off : Z) (source : list Z) : list Z :=
  take (Z.to_nat off) target ++ source ++ drop (Z.to_nat off + length source) target.

(** [new Uint8Array(target).set(source, off)] on the bytes: [None] is the
    RangeError for a source that does not fit. *)
Definition set_bytes (target source : list Z) (off : Z) : option (list Z) :=
  if (off <? 0) || (Z.of_nat (length source) + off >? Z.of_nat (length target)) then None
  else Some (splice target off source).

(** The element types of the DataView accessors the class uses. *)
Inductive numtype :=
| Uint8 | Int8 | Uint16 | Int16 | Uint32 | Int32 | Float32 | Float64.

Definition width (T : numtype) : Z :=
  match T with
  | Uint8 | Int8 => 1
  | Uint16 | Int16 => 2
  | Uint32 | Int32 | Float32 => 4
  | Float64 => 8
  end.

(** NumericToRawBytes. *)
Definition raw_bits (T : numtype) (x : number) : Z :=
  match T with
  | Uint8 | Int8 => ToUint 8 x
  | Uint16 | Int16 => ToUint 16 x
  | Uint32 | Int32 => ToUint 32 x
  | Float32 => bits_of 24 128 (to_binary32 x)
  | Float64 => bits_of 53 1024 x
  end.

Definition NumericToRawBytes (T : numtype) (x : number) (littleEndian : bool) : list Z :=
  byte_order littleEndian (le_bytes (Z.to_nat (width T)) (raw_bits T x)).

(** RawBytesToNumeric. *)
Definition RawBytesToNumeric (T : numtype) (bs : list Z) (littleEndian : bool) : number :=
  let u := le_value (byte_order littleEndian bs) in
  match T with
  | Uint8 | Uint16 | Uint32 => of_Z u
  | Int8 => of_Z (signed 8 u)
  | Int16 => of_Z (signed 16 u)
  | Int32 => of_Z (signed 32 u)
  | Float32 => of_binary32 (of_bits 24 128 u)
  | Float64 => of_bits 53 1024 u
  end.

(** [DataView.prototype.set<T>(byteOffset, value, littleEndian)] on the
    bytes of the viewed buffer; [None] is the RangeError. *)
Definition SetViewValue (T : numtype) (bs : list Z) (byteOffset : Z) (v : value)
    (littleEndian : bool) : option (list Z) :=
  if (byteOffset <? 0) || (byteOffset + width T >? Z.of_nat (length bs)) then None
  else set_bytes bs (NumericToRawBytes T (ToNumber v) littleEndian) byteOffset.

(** [DataView.prototype.get<T>(byteOffset, littleEndian)]. *)
Definition GetViewValue (T : numtype) (bs : list Z) (byteOffset : Z)
    (littleEndian : bool) : option number :=
  if (byteOffset <? 0) || (byteOffset + width T >? Z.of_nat (length bs)) then None
  else Some (RawBytesToNumeric T
               (take (Z.to_nat (width T)) (drop (Z.to_nat byteOffset) bs)) littleEndian).

(** A [Uint8Array] over part of a buffer, as [readUint8Array] returns it:
    a view, not a copy. *)
Record Uint8Array := mkUint8Array {
  ta_buffer : ArrayBuffer;
  ta_byteOffset : Z;
  ta_length : Z
}.

Definition elements (h : store) (a : Uint8Array) : list Z :=
  take (Z.to_nat (ta_length a)) (drop (Z.to_nat (ta_byteOffset a)) (contents h (ta_buffer a))).

(** ** The cursor *)

(** The fields of a [BufferStream] object.  [view] is the buffer the
    DataView looks at; the class replaces it whenever it replaces
    [buffer]. *)
Record BufferStream := mkBufferStream {
  buffer : ArrayBuffer;
  view : ArrayBuffer;
  offset : Z;
  isLittleEndian : bool;
  size : Z
}.

Definition with_buffer (b : ArrayBuffer) (s : BufferStream) : BufferStream :=
  mkBufferStream b (view s) (offset s) (isLittleEndian s) (size s).
Definition with_view (b : ArrayBuffer) (s : BufferStream) : BufferStream :=
  mkBufferStream (buffer s) b (offset s) (isLittleEndian s) (size s).
Definition with_offset (o : Z) (s : BufferStream) : BufferStream :=
  mkBufferStream (buffer s) (view s) o (isLittleEndian s) (size s).
Definition with_isLittleEndian (l : bool) (s : BufferStream) : BufferStream :=
  mkBufferStream (buffer s) (view s) (offset s) l (size s).
Definition with_size (n : Z) (s : BufferStream) : BufferStream :=
  mkBufferStream (buffer s) (view s) (offset s) (isLittleEndian s) n.

(** *** Method bodies: computations over the store and [this] *)

Definition M (A : Type) : Type :=
  store * BufferStream -> outcome A * (store * BufferStream).

Definition ret {A} (a : A) : M A := fun st => (Return a, st).
Definition throw {A} (e : exn) : M A := fun st => (Throw e, st).
Definition bind {A B} (c : M A) (k : A -> M B) : M B :=
  fun st => match c st with
            | (Return a, st') => k a st'
            | (Throw e, st') => (Throw e, st')
            end.

Notation "x <- c ;; k" := (bind c (fun x => k))
  (at level 100, c at next level, right associativity).
Notation "c ;;; k" := (bind c (fun _ => k))
  (at level 100, right associativity).

(** [this.f] *)
Definition this {A} (f : BufferStream -> A) : M A := fun st => (Return (f (snd st)), st).
(** [this.f = v], through the setter [upd] of the field *)
Definition assign {A} (upd : A -> BufferStream -> BufferStream) (v : A) : M unit :=
  fun st => (Return tt, (fst st, upd v (snd st))).
Definition lift {A} (o : outcome A) : M A := fun st => (o, st).

(** [b.byteLength] *)
Definition byteLength_of (b : ArrayBuffer) : M Z :=
  fun st => (Return (byteLength (fst st) b), st).

(** [new ArrayBuffer(n)]: zero filled. *)
Definition new_ArrayBuffer (n : Z) : M ArrayBuffer :=
  fun st => if n <? 0 then (Throw RangeError, st)
            else let '(b, h) := alloc (fst st) (replicate (Z.to_nat n) 0) in
                 (Return b, (h, snd st)).

(** [new Uint8Array(target).set(new Uint8Array(source), off)] *)
Definition Uint8Array_set (target source : ArrayBuffer) (off : Z) : M unit :=
  fun st => match set_bytes (contents (fst st) target) (contents (fst st) source) off with
            | Some bs => (Return tt, (<[target := bs]> (fst st), snd st))
            | None => (Throw RangeError, st)
            end.

(** [b.slice(start, end)]: a new buffer. *)
Definition ArrayBuffer_slice (b : ArrayBuffer) (start : Z) (end_ : option Z) : M ArrayBuffer :=
  fun st => let '(b', h) := alloc (fst st) (slice_bytes (contents (fst st) b) start end_) in
            (Return b', (h, snd st)).

(** [this.view.set<T>(byteOffset, v, littleEndian)] *)
Definition view_set (T : numtype) (byteOffset : Z) (v : value) (littleEndian : bool) : M unit :=
  fun st => match SetViewValue T (contents (fst st) (view (snd st))) byteOffset v littleEndian with
            | Some bs => (Return tt, (<[view (snd st) := bs]> (fst st), snd st))
            | None => (Throw RangeError, st)
            end.

(** [this.view.get<T>(byteOffset, littleEndian)] *)
Definition view_get (T : numtype) (byteOffset : Z) (littleEndian : bool) : M number :=
  fun st => match GetViewValue T (contents (fst st) (view (snd st))) byteOffset littleEndian with
            | Some x => (Return x, st)
            | None => (Throw RangeError, st)
            end.

(** The bitwise operators of the source, on Numbers. *)
Definition js_shr (x : number) (n : Z) : number := of_Z (Z.shiftr (ToInt32 x) n).
Definition js_shl (x : number) (n : Z) : number :=
  of_Z (signed 32 (Z.shiftl (ToInt32 x) n mod 2 ^ 32)).
Definition js_and (x y : number) : number := of_Z (Z.land (ToInt32 x) (ToInt32 y)).
Definition js_or (x y : number) : number := of_Z (Z.lor (ToInt32 x) (ToInt32 y)).

(** *** Construction *)

(** The first argument of the constructors: a number, an ArrayBuffer, or
    [null] / [undefined] / nothing. *)
Inductive sizeOrBuffer :=
| Size (n : Z)
| Buffer (b : ArrayBuffer)
| Nullish.

Definition New (A : Type) : Type := store -> outcome A * store.

Definition BufferStream_constructor (arg : sizeOrBuffer) (littleEndian : option bool)
    : New BufferStream :=
  fun h =>
    let le := default false littleEndian in
    match arg with
    | Size n =>
        if n <? 0 then (Throw RangeError, h)
        else let '(b, h') := alloc h (replicate (Z.to_nat n) 0) in
             (Return (mkBufferStream b b 0 le 0), h')
    | Buffer b => (Return (mkBufferStream b b 0 le 0), h)
    | Nullish =>
        let '(b, h') := alloc h [] in
        (Return (mkBufferStream b b 0 le 0), h')
    end.

Definition ReadBufferStream (arg : sizeOrBuffer) (littleEndian : option bool)
    : New BufferStream :=
  fun h =>
    match BufferStream_constructor arg littleEndian h with
    | (Return s, h') => (Return (with_size (byteLength h' (buffer s)) s), h')
    | r => r
    end.

Definition WriteBufferStream (arg : sizeOrBuffer) (littleEndian : option bool)
    : New BufferStream :=
  fun h =>
    match BufferStream_constructor arg littleEndian h with
    | (Return s, h') => (Return (with_size 0 s), h')
    | r => r
    end.

(** [new C(...)] inside a method body. *)
Definition construct {A} (c : New A) : M A :=
  fun st => let '(o, h) := c (fst st) in (o, (h, snd st)).

(** A call [obj.m(...)] on another object whose fields [m] leaves alone. *)
Definition on {A} (obj : BufferStream) (m : M A) : M A :=
  fun st => let '(o, st') := m (fst st, obj) in (o, (fst st', snd st)).

(** *** Methods *)

Definition setEndian (isLittle : bool) : M unit :=
  assign with_isLittleEndian isLittle.

Definition increment (step : Z) : M Z :=
  o <- this offset ;;
  assign with_offset (o + step) ;;;
  o <- this offset ;;
  sz <- this size ;;
  (if o >? sz then assign with_size o else ret tt) ;;;
  ret step.

Definition checkSize (step : Z) : M unit :=
  o <- this offset ;;
  b <- this buffer ;;
  len <- byteLength_of b ;;
  if o + step >? len then
    let dstSize := o + step in
    dst <- new_ArrayBuffer dstSize ;;
    Uint8Array_set dst b 0 ;;;
    assign with_buffer dst ;;;
    assign with_view dst
  else ret tt.

Definition writeUint8 (value : value) : M Z :=
  checkSize 1 ;;;
  o <- this offset ;;
  v <- lift (toInt value) ;;
  view_set Uint8 o v false ;;;
  increment 1.

Definition writeInt8 (value : value) : M Z :=
  checkSize 1 ;;;
  o <- this offset ;;
  v <- lift (toInt value) ;;
  view_set Int8 o v false ;;;
  increment 1.

Definition writeUint16 (value : value) : M Z :=
  checkSize 2 ;;;
  o <- this offset ;;
  v <- lift (toInt value) ;;
  le <- this isLittleEndian ;;
  view_set Uint16 o v le ;;;
  increment 2.

Definition writeTwoUint16s (value : value) : M Z :=
  checkSize 4 ;;;
  let first := js_shr (ToNumber value) 16 in
  let second := js_and (ToNumber value) (of_Z 65535) in
  o <- this offset ;;
  v <- lift (toInt (VNumber first)) ;;
  le <- this isLittleEndian ;;
  view_set Uint16 o v le ;;;
  o <- this offset ;;
  v <- lift (toInt (VNumber second)) ;;
  le <- this isLittleEndian ;;
  view_set Uint16 (o + 2) v le ;;;
  increment 4.

Definition writeInt16 (value : value) : M Z :=
  checkSize 2 ;;;
  o <- this offset ;;
  v <- lift (toInt value) ;;
  le <- this isLittleEndian ;;
  view_set Int16 o v le ;;;
  increment 2.

Definition writeUint32 (value : value) : M Z :=
  checkSize 4 ;;;
  o <- this offset ;;
  v <- lift (toInt value) ;;
  le <- this isLittleEndian ;;
  view_set Uint32 o v le ;;;
  increment 4.

Definition writeInt32 (value : value) : M Z :=
  checkSize 4 ;;;
  o <- this offset ;;
  v <- lift (toInt value) ;;
  le <- this isLittleEndian ;;
  view_set Int32 o v le ;;;
  increment 4.

Definition writeFloat (value : value) : M Z :=
  checkSize 4 ;;;
  o <- this offset ;;
  v <- lift (toFloat value) ;;
  le <- this isLittleEndian ;;
  view_set Float32 o v le ;;;
  increment 4.

Definition writeDouble (value : value) : M Z :=
  checkSize 8 ;;;
  o <- this offset ;;
  v <- lift (toFloat value) ;;
  le <- this isLittleEndian ;;
  view_set Float64 o v le ;;;
  increment 8.

Fixpoint writeString_loop (bin : list Z) (startOffset : Z) : M unit :=
  match bin with
  | [] => ret tt
  | c :: rest =>
      view_set Uint8 startOffset (VNumber (of_Z c)) false ;;;
      writeString_loop rest (startOffset + 1)
  end.

(** [value] is a string, or [None] for [null] / [undefined]. *)
Definition writeString (value : option string) : M Z :=
  let bin := toBinaryArray value in
  let bytelen := Z.of_nat (length bin) in
  checkSize bytelen ;;;
  startOffset <- this offset ;;
  writeString_loop bin startOffset ;;;
  increment bytelen.

(** The loop of [writeHex]: two digits per turn, a last single digit
    standing alone. *)
Fixpoint writeHex_loop (digits : string) (startOffset : Z) : M unit :=
  match digits with
  | String c (String c' rest) =>
      let code := parseInt (String c EmptyString) 16 in
      let nextCode := parseInt (String c' EmptyString) 16 in
      let code := js_or (js_shl code 4) nextCode in
      view_set Uint8 startOffset (VNumber code) false ;;;
      writeHex_loop rest (startOffset + 1)
  | String c EmptyString =>
      let code := parseInt (String c EmptyString) 16 in
      view_set Uint8 startOffset (VNumber code) false
  | EmptyString => ret tt
  end.

(** [checkSize(k + 1/2)], as [writeHex] calls it for [2k + 1] digits.  For
    an offset and a byte length that are integers,
    [offset + k + 1/2 > byteLength] is [offset + k >= byteLength], and
    [new ArrayBuffer(offset + k + 1/2)] has [offset + k] bytes, the length
    being truncated. *)
Definition checkSize_half (k : Z) : M unit :=
  o <- this offset ;;
  b <- this buffer ;;
  len <- byteLength_of b ;;
  if o + k >=? len then
    let dstSize := o + k in
    dst <- new_ArrayBuffer dstSize ;;
    Uint8Array_set dst b 0 ;;;
    assign with_buffer dst ;;;
    assign with_view dst
  else ret tt.

(** For an odd [len], [blen] is [k + 1/2] with [k = (len - 1) / 2].  The
    buffer is checked and grown for [blen] bytes, the loop stores [k + 1]
    bytes, the last of them beyond the end of a buffer that was grown, which
    is a RangeError; when all the stores went through, [increment(blen)]
    leaves an offset that is not an integer, which the cursor of this model
    cannot hold. *)
Definition writeHex (value : string) : M Z :=
  let len := Z.of_nat (String.length value) in
  if Z.odd len then
    startOffset <- this offset ;;
    checkSize_half (len / 2) ;;;
    writeHex_loop value startOffset ;;;
    throw OutsideModel
  else
    let blen := len / 2 in
    startOffset <- this offset ;;
    checkSize blen ;;;
    writeHex_loop value startOffset ;;;
    increment blen.

Definition readUint32 : M number :=
  o <- this offset ;;
  le <- this isLittleEndian ;;
  val <- view_get Uint32 o le ;;
  increment 4 ;;;
  ret val.

Definition readUint16 : M number :=
  o <- this offset ;;
  le <- this isLittleEndian ;;
  val <- view_get Uint16 o le ;;
  increment 2 ;;;
  ret val.

Definition readUint8 : M number :=
  o <- this offset ;;
  val <- view_get Uint8 o false ;;
  increment 1 ;;;
  ret val.

Definition readUint8Array (length : Z) : M Uint8Array :=
  b <- this buffer ;;
  o <- this offset ;;
  len <- byteLength_of b ;;
  if (o <? 0) || (length <? 0) || (o + length >? len) then throw RangeError
  else
    let arr := mkUint8Array b o length in
    increment length ;;;
    ret arr.

(** The loop [while (i++ < sixlen) { arr[i] = ...; this.offset += 2 }] with
    [sixlen = length / 2], so that [i < sixlen] is [2 * i < length].  A
    store into a typed array beyond its end is dropped. *)
Fixpoint readUint16Array_loop (fuel : nat) (length : Z) (i : Z) (arr : list Z)
    : M (list Z) :=
  match fuel with
  | O => throw OutsideModel
  | S fuel' =>
      if 2 * i <? length then
        let i := i + 1 in
        o <- this offset ;;
        le <- this isLittleEndian ;;
        val <- view_get Uint16 o le ;;
        let arr := <[Z.to_nat i := ToUint 16 val]> arr in
        o <- this offset ;;
        assign with_offset (o + 2) ;;;
        readUint16Array_loop fuel' length i arr
      else ret arr
  end.

Definition readUint16Array (length : Z) : M (list Z) :=
  let sixlen := Z.quot length 2 in
  if sixlen <? 0 then throw RangeError
  else
    let arr := replicate (Z.to_nat sixlen) 0 in
    readUint16Array_loop (S (Z.to_nat length)) length 0 arr.

Definition readInt16 : M number :=
  o <- this offset ;;
  le <- this isLittleEndian ;;
  val <- view_get Int16 o le ;;
  increment 2 ;;;
  ret val.

Definition readInt32 : M number :=
  o <- this offset ;;
  le <- this isLittleEndian ;;
  val <- view_get Int32 o le ;;
  increment 4 ;;;
  ret val.

Definition readFloat : M number :=
  o <- this offset ;;
  le <- this isLittleEndian ;;
  val <- view_get Float32 o le ;;
  increment 4 ;;;
  ret val.

Definition readDouble : M number :=
  o <- this offset ;;
  le <- this isLittleEndian ;;
  val <- view_get Float64 o le ;;
  increment 8 ;;;
  ret val.

(** [String.fromCharCode] on a byte. *)
Definition fromCharCode (x : number) : ascii :=
  ascii_of_N (Z.to_N (ToUint 8 x)).

Fixpoint readString_loop (n : nat) (string : string) : M String.string :=
  match n with
  | O => ret string
  | S k =>
      charCode <- readUint8 ;;
      readString_loop k (string ++ String (fromCharCode charCode) EmptyString)%string
  end.

Definition readString (length : Z) : M string :=
  readString_loop (Z.to_nat length) EmptyString.

Fixpoint readHex_loop (n : nat) (hexString : string) : M string :=
  match n with
  | O => ret hexString
  | S k =>
      b <- readUint8 ;;
      readHex_loop k (hexString ++ toString16 b)%string
  end.

Definition readHex (length : Z) : M string :=
  readHex_loop (Z.to_nat length) EmptyString.

(** [start] and [end] are [None] when absent; [!x] holds of an absent
    argument and of 0. *)
Definition falsy (x : option Z) : bool :=
  match x with
  | None => true
  | Some z => z =? 0
  end.

Definition getBuffer (start end_ : option Z) : M ArrayBuffer :=
  sz <- this size ;;
  let '(start, end_) :=
    if falsy start && falsy end_ then (Some 0, Some sz) else (start, end_) in
  b <- this buffer ;;
  ArrayBuffer_slice b (default 0 start) end_.

Definition concat (stream : BufferStream) : M Z :=
  b <- this buffer ;;
  len <- byteLength_of b ;;
  o <- this offset ;;
  let available := len - o in
  (if size stream >? available then
     newbuf <- new_ArrayBuffer (o + size stream) ;;
     mine <- getBuffer (Some 0) (Some o) ;;
     Uint8Array_set newbuf mine 0 ;;;
     theirs <- on stream (getBuffer (Some 0) (Some (size stream))) ;;
     Uint8Array_set newbuf theirs o ;;;
     assign with_buffer newbuf ;;;
     assign with_view newbuf
   else
     theirs <- on stream (getBuffer (Some 0) (Some (size stream))) ;;
     Uint8Array_set b theirs o) ;;;
  o <- this offset ;;
  assign with_offset (o + size stream) ;;;
  o <- this offset ;;
  assign with_size o ;;;
  b <- this buffer ;;
  byteLength_of b.

Definition more (length : Z) : M BufferStream :=
  o <- this offset ;;
  b <- this buffer ;;
  len <- byteLength_of b ;;
  if o + length >? len then throw RequestMoreThanAllocated
  else
    newBuf <- ArrayBuffer_slice b o (Some (o + length)) ;;
    increment length ;;;
    construct (ReadBufferStream (Buffer newBuf) None).

Definition reset : M unit := assign with_offset 0.

Definition end_ : M bool :=
  o <- this offset ;;
  b <- this buffer ;;
  len <- byteLength_of b ;;
  ret (o >=? len).

Definition toEnd : M unit :=
  b <- this buffer ;;
  len <- byteLength_of b ;;
  assign with_offset len.

(** *** The numeric writers and readers by element type *)

Definition write (T : numtype) : value -> M Z :=
  match T with
  | Uint8 => writeUint8
  | Int8 => writeInt8
  | Uint16 => writeUint16
  | Int16 => writeInt16
  | Uint32 => writeUint32
  | Int32 => writeInt32
  | Float32 => writeFloat
  | Float64 => writeDouble
  end.

(** The class has no [readInt8]; calling it is a TypeError. *)
Definition read (T : numtype) : M number :=
  match T with
  | Uint8 => readUint8
  | Int8 => throw TypeError
  | Uint16 => readUint16
  | Int16 => readInt16
  | Uint32 => readUint32
  | Int32 => readInt32
  | Float32 => readFloat
  | Float64 => readDouble
  end.

(** ** Notions used by the statements *)

(** A cursor whose buffer exists, whose DataView looks at that buffer, and
    whose offset and size lie within it.  The constructors establish this
    and the methods keep it. *)
Definition wf (h : store) (s : BufferStream) : Prop :=
  (buffer s < length h)%nat /\ view s = buffer s /\
  0 <= offset s <= byteLength h (buffer s) /\
  0 <= size s <= byteLength h (buffer s).

(** The Numbers that are values of an element type: the integers of its
    range, the binary32 values, the binary64 values; no NaN. *)
Definition representable (T : numtype) (v : number) : Prop :=
  match T with
  | Uint8 => v = of_Z (truncate v) /\ 0 <= truncate v < 2 ^ 8
  | Int8 => v = of_Z (truncate v) /\ - 2 ^ 7 <= truncate v < 2 ^ 7
  | Uint16 => v = of_Z (truncate v) /\ 0 <= truncate v < 2 ^ 16
  | Int16 => v = of_Z (truncate v) /\ - 2 ^ 15 <= truncate v < 2 ^ 15
  | Uint32 => v = of_Z (truncate v) /\ 0 <= truncate v < 2 ^ 32
  | Int32 => v = of_Z (truncate v) /\ - 2 ^ 31 <= truncate v < 2 ^ 31
  | Float32 =>
      is_nan v = false /\ valid_binary 24 128 (to_binary32 v) = true /\
      v = of_binary32 (to_binary32 v)
  | Float64 => is_nan v = false /\ valid_binary 53 1024 v = true
  end.

(** The element types for which the class has a reader. *)
Definition has_reader (T : numtype) : bool :=
  match T with Int8 => false | _ => true end.

(** The bytes of a buffer in the region [[start, start + len)]. *)
Definition region (h : store) (b : ArrayBuffer) (start len : Z) : list Z :=
  take (Z.to_nat len) (drop (Z.to_nat start) (contents h b)).

(** The coercion each numeric writer applies to its argument. *)
Definition coerce (T : numtype) : value -> outcome value :=
  match T with
  | Float32 | Float64 => toFloat
  | _ => toInt
  end.

(** [bs] extended with zeros to [n] bytes, as [checkSize] leaves a buffer
    that was too short. *)
Definition grown (bs : list Z) (n : Z) : list Z :=
  bs ++ replicate (Z.to_nat n - length bs) 0.

(** The store and the cursor after a numeric write of [x] as a [T]: the
    buffer replaced by a longer one when it was too short, the encoding of
    [x] at the old offset, offset and size moved on. *)
Definition written (T : numtype) (x : number) (h : store) (s : BufferStream)
    : store * BufferStream :=
  let o := offset s in
  let w := width T in
  let raw := NumericToRawBytes T x (isLittleEndian s) in
  if o + w >? byteLength h (buffer s) then
    (h ++ [splice (grown (contents h (buffer s)) (o + w)) o raw],
     mkBufferStream (length h) (length h) (o + w) (isLittleEndian s)
       (Z.max (size s) (o + w)))
  else
    (<[buffer s := splice (contents h (buffer s)) o raw]> h,
     mkBufferStream (buffer s) (buffer s) (o + w) (isLittleEndian s)
       (Z.max (size s) (o + w))).

(** A call of one of the writers, a sequence of such calls, and the
    arguments under which a writer does not throw whatever the buffer: a
    numeric argument that does not convert to NaN, an even number of hex
    digits. *)
Inductive write_call :=
| CallNumeric (T : numtype) (v : value)
| CallTwoUint16s (v : value)
| CallString (v : option string)
| CallHex (v : string).

Definition perform (c : write_call) : M Z :=
  match c with
  | CallNumeric T v => write T v
  | CallTwoUint16s v => writeTwoUint16s v
  | CallString v => writeString v
  | CallHex v => writeHex v
  end.

Fixpoint perform_all (cs : list write_call) : M unit :=
  match cs with
  | [] => ret tt
  | c :: cs' => perform c ;;; perform_all cs'
  end.

Definition accepted (c : write_call) : Prop :=
  match c with
  | CallNumeric _ v => isNaN v = false
  | CallHex v => Z.odd (Z.of_nat (String.length v)) = false
  | _ => True
  end.

(** What [readHex] makes of a run of bytes: the unpadded hexadecimal
    numerals of the bytes, one after the other. *)
Fixpoint hex_of_bytes (bs : list Z) : string :=
  match bs with
  | [] => EmptyString
  | b :: rest => (toString16 (of_Z b) ++ hex_of_bytes rest)%string
  end.

(** The 16-bit value at index [j] of the run that starts at [start]. *)
Definition uint16_at (h : store) (s : BufferStream) (start : Z) (j : nat) : Z :=
  ToUint 16 (RawBytesToNumeric Uint16
               (region h (view s) (start + 2 * Z.of_nat j) 2) (isLittleEndian s)).


(** *** Client programs used by the further properties *)

(** A run of numeric writes, a run of numeric reads, and the bytes the
    writes are expected to lay down one after the other. *)
Fixpoint write_each (vs : list (numtype * number)) : M unit :=
  match vs with
  | [] => ret tt
  | (T, v) :: rest => write T (VNumber v) ;;; write_each rest
  end.

Fixpoint read_each (Ts : list numtype) : M (list number) :=
  match Ts with
  | [] => ret []
  | T :: rest => v <- read T ;; vs <- read_each rest ;; ret (v :: vs)
  end.

Fixpoint encodings (littleEndian : bool) (vs : list (numtype * number)) : list Z :=
  match vs with
  | [] => []
  | (T, v) :: rest => NumericToRawBytes T v littleEndian ++ encodings littleEndian rest
  end.

Fixpoint total_width (vs : list (numtype * number)) : Z :=
  match vs with
  | [] => 0
  | (T, _) :: rest => width T + total_width rest
  end.

(** The byte a [setUint8] stores for a Number. *)
Definition byte_of (x : number) : Z := Z.land (ToUint 8 x) 255.

(** The bytes [writeHex] stores for a string of digits: one per pair, one
    more for a last digit standing alone. *)
Fixpoint hex_bytes (digits : string) : list Z :=
  match digits with
  | String c (String c' rest) =>
      byte_of (js_or (js_shl (parseInt (String c EmptyString) 16) 4)
                 (parseInt (String c' EmptyString) 16))
      :: hex_bytes rest
  | String c EmptyString => [byte_of (parseInt (String c EmptyString) 16)]
  | EmptyString => []
  end.

(** The string [readString] makes of a run of bytes. *)
Fixpoint string_of_bytes (bs : list Z) : string :=
  match bs with
  | [] => EmptyString
  | b :: rest => String (fromCharCode (of_Z b)) (string_of_bytes rest)
  end.

(** The store and the cursor after the bytes [raw] have been stored at the
    offset by a writer that first makes room for them: as [written], for
    any run of bytes. *)
Definition stored (raw : list Z) (h : store) (s : BufferStream) : store * BufferStream :=
  let o := offset s in
  let n := Z.of_nat (length raw) in
  if o + n >? byteLength h (buffer s) then
    (h ++ [splice (grown (contents h (buffer s)) (o + n)) o raw],
     mkBufferStream (length h) (length h) (o + n) (isLittleEndian s)
       (Z.max (size s) (o + n)))
  else
    (<[buffer s := splice (contents h (buffer s)) o raw]> h,
     mkBufferStream (buffer s) (buffer s) (o + n) (isLittleEndian s)
       (Z.max (size s) (o + n))).

(** The digits [toString(16)] produces. *)
Definition lower_hex (c : ascii) : bool :=
  let n := charCode c in
  ((48 <=? n) && (n <=? 57)) || ((97 <=? n) && (n <=? 102)).

(** Strings made of pairs of such digits, the first of each pair not "0":
    the strings [readHex] can return for bytes of 16 and more. *)
Fixpoint hex_pairs (s : string) : bool :=
  match s with
  | EmptyString => true
  | String c (String c' rest) =>
      lower_hex c && negb (charCode c =? 48) && lower_hex c' && hex_pairs rest
  | String _ EmptyString => false
  end.

(** The integer element types, and the Number that the bytes an integer
    writer stores for [x] stand for: [x] truncated and reduced modulo
    [2 ^ width], read as signed for the signed types. *)
Definition is_integer (T : numtype) : bool :=
  match T with Float32 | Float64 => false | _ => true end.

Definition wrap (T : numtype) (x : number) : number :=
  match T with
  | Uint8 => of_Z (ToUint 8 x)
  | Int8 => of_Z (signed 8 (ToUint 8 x))
  | Uint16 => of_Z (ToUint 16 x)
  | Int16 => of_Z (signed 16 (ToUint 16 x))
  | Uint32 => of_Z (ToUint 32 x)
  | Int32 => of_Z (signed 32 (ToUint 32 x))
  | Float32 | Float64 => x
  end.

(** [h'] extends [h]: every buffer of [h] is still there with the length
    it had.  ArrayBuffers never change length, they are only written to or
    left behind. *)
Definition extends (h h' : store) : Prop :=
  (length h <= length h')%nat /\
  forall b, (b < length h)%nat -> byteLength h' b = byteLength h b.

(** A call of any method of the class with its arguments, and the store
    and cursor it leaves behind, whether it returns or throws. *)
Inductive method :=
| m_setEndian (isLittle : bool)
| m_write (T : numtype) (v : value)
| m_writeTwoUint16s (v : value)
| m_writeString (v : option string)
| m_writeHex (v : string)
| m_read (T : numtype)
| m_readUint8Array (length : Z)
| m_readUint16Array (length : Z)
| m_readString (length : Z)
| m_readHex (length : Z)
| m_checkSize (step : Z)
| m_concat (stream : BufferStream)
| m_increment (step : Z)
| m_getBuffer (start end_ : option Z)
| m_more (length : Z)
| m_reset
| m_end
| m_toEnd.

Definition state_after (m : method) (st : store * BufferStream) : store * BufferStream :=
  match m with
  | m_setEndian b => snd (setEndian b st)
  | m_write T v => snd (write T v st)
  | m_writeTwoUint16s v => snd (writeTwoUint16s v st)
  | m_writeString v => snd (writeString v st)
  | m_writeHex v => snd (writeHex v st)
  | m_read T => snd (read T st)
  | m_readUint8Array n => snd (readUint8Array n st)
  | m_readUint16Array n => snd (readUint16Array n st)
  | m_readString n => snd (readString n st)
  | m_readHex n => snd (readHex n st)
  | m_checkSize n => snd (checkSize n st)
  | m_concat other => snd (concat other st)
  | m_increment n => snd (increment n st)
  | m_getBuffer a b => snd (getBuffer a b st)
  | m_more n => snd (more n st)
  | m_reset => snd (reset st)
  | m_end => snd (end_ st)
  | m_toEnd => snd (toEnd st)
  end.

(** What the class expects of a caller: [increment] is given a step that
    stays within the buffer, [more] a length that is not negative, [concat]
    a cursor that is itself well formed, and [writeHex] an even number of
    digits (an odd number leaves the offset at a half). *)
Definition expected (m : method) (h : store) (s : BufferStream) : Prop :=
  match m with
  | m_increment step => 0 <= offset s + step <= byteLength h (buffer s)
  | m_more n => 0 <= n
  | m_concat other => wf h other
  | m_writeHex v => Z.odd (Z.of_nat (String.length v)) = false
  | _ => True
  end.

(** A computation keeps the cursor well formed, only extends the store and
    does not lower the size, whether it returns or throws. *)
Definition keeps {A} (c : M A) (h : store) (s : BufferStream) : Prop :=
  wf (fst (snd (c (h, s)))) (snd (snd (c (h, s)))) /\
  extends h (fst (snd (c (h, s)))) /\
  size s <= size (snd (snd (c (h, s)))).

(** The Number a numeric writer encodes for an argument it accepts: the
    parse of a string, the conversion of anything else. *)
Definition stored_number (T : numtype) (v : value) : number :=
  match v with
  | VString str =>
      match T with
      | Float32 | Float64 => parseFloat str
      | _ => parseInt str 0
      end
  | _ => ToNumber v
  end.

(** The bytes a call of a writer lays down under the given byte order, and
    those of a sequence of calls. *)
Definition bytes_of (littleEndian : bool) (c : write_call) : list Z :=
  match c with
  | CallNumeric T v => NumericToRawBytes T (stored_number T v) littleEndian
  | CallTwoUint16s v =>
      NumericToRawBytes Uint16 (js_shr (ToNumber v) 16) littleEndian
      ++ NumericToRawBytes Uint16 (js_and (ToNumber v) (of_Z 65535)) littleEndian
  | CallString v => map (fun c => byte_of (of_Z c)) (toBinaryArray v)
  | CallHex v => hex_bytes v
  end.

Fixpoint bytes_of_all (littleEndian : bool) (cs : list write_call) : list Z :=
  match cs with
  | [] => []
  | c :: cs' => bytes_of littleEndian c ++ bytes_of_all littleEndian cs'
  end.

(** * Properties *)

(** ** Bytes *)

Lemma lor_shiftl_add (b v : Z) :
  0 <= b < 256 -> Z.lor b (Z.shiftl v 8) = b + 256 * v.
Proof.
  intros Hb.
  assert (Hdisj : Z.land b (Z.shiftl v 8) = 0).
  { apply Z.bits_inj'; intros n Hn.
    rewrite Z.land_spec, Z.bits_0.
    destruct (Z.lt_ge_cases n 8) as [Hlt | Hge].
    - rewrite Z.shiftl_spec_low by lia. apply andb_false_r.
    - destruct (Z.eq_dec b 0) as [-> | Hne]; [now rewrite Z.bits_0 |].
      rewrite (Z.bits_above_log2 b n); [reflexivity | lia |].
      apply Z.lt_le_trans with 8; [apply Z.log2_lt_pow2; lia | lia]. }
  rewrite <- Z.lxor_lor, <- Z.add_nocarry_lxor, Z.shiftl_mul_pow2 by (assumption || lia).
  lia.
Qed.

Lemma length_le_bytes (n : nat) (z : Z) : length (le_bytes n z) = n.
Proof. revert z; induction n as [| n IH]; intros z; simpl; [reflexivity | now rewrite IH]. Qed.

Lemma le_bytes_range (n : nat) (z : Z) : Forall (fun b => 0 <= b < 256) (le_bytes n z).
Proof.
  revert z; induction n as [| n IH]; intros z; simpl; constructor; [| apply IH].
  change 255 with (Z.ones 8). rewrite Z.land_ones by lia. apply Z.mod_pos_bound. lia.
Qed.

Lemma le_value_le_bytes (n : nat) (z : Z) :
  le_value (le_bytes n z) = z mod 2 ^ (8 * Z.of_nat n).
Proof.
  revert z; induction n as [| n IH]; intros z.
  - simpl. now rewrite Z.mod_1_r.
  - cbn [le_bytes le_value]. rewrite IH.
    change 255 with (Z.ones 8). rewrite Z.land_ones, Z.shiftr_div_pow2 by lia.
    rewrite lor_shiftl_add by (apply Z.mod_pos_bound; lia).
    replace (8 * Z.of_nat (S n)) with (8 + 8 * Z.of_nat n) by lia.
    rewrite Z.pow_add_r by lia.
    change (2 ^ 8) with 256.
    rewrite (Z.rem_mul_r z 256 (2 ^ (8 * Z.of_nat n))) by lia. reflexivity.
Qed.

Lemma byte_order_involutive (le : bool) (bs : list Z) :
  byte_order le (byte_order le bs) = bs.
Proof. destruct le; simpl; [reflexivity | apply rev_involutive]. Qed.

Lemma length_byte_order (le : bool) (bs : list Z) :
  length (byte_order le bs) = length bs.
Proof. destruct le; simpl; [reflexivity | apply length_rev]. Qed.

Lemma byte_order_single (le : bool) (b : Z) : byte_order le [b] = [b].
Proof. now destruct le. Qed.

(** ** Numbers *)

Lemma digits2_pos_bounds (m : positive) :
  2 ^ (Zpos (digits2_pos m) - 1) <= Zpos m < 2 ^ Zpos (digits2_pos m).
Proof.
  induction m as [m IH | m IH |]; cbn [digits2_pos].
  - rewrite Pos2Z.inj_succ.
    replace (Z.succ (Zpos (digits2_pos m)) - 1) with (Z.succ (Zpos (digits2_pos m) - 1)) by lia.
    rewrite !Z.pow_succ_r by lia. lia.
  - rewrite Pos2Z.inj_succ.
    replace (Z.succ (Zpos (digits2_pos m)) - 1) with (Z.succ (Zpos (digits2_pos m) - 1)) by lia.
    rewrite !Z.pow_succ_r by lia. lia.
  - simpl. lia.
Qed.

Section Format.
Variables prec emax : Z.
Hypothesis Hprec : 1 < prec.
Hypothesis Hemax : 0 < emax.

(** A valid finite value is either normal or subnormal. *)
Lemma bounded_cases (m : positive) (e : Z) :
  bounded prec emax m e = true ->
  (2 ^ (prec - 1) <= Zpos m < 2 ^ prec /\ emin prec emax <= e <= emax - prec)
  \/ (Zpos m < 2 ^ (prec - 1) /\ e = emin prec emax /\ e <= emax - prec).
Proof.
  unfold bounded, canonical_mantissa, fexp.
  intros H. apply andb_true_iff in H as [Hc He].
  apply Z.eqb_eq in Hc. apply Z.leb_le in He.
  pose proof (digits2_pos_bounds m) as Hd.
  destruct (Z.eq_dec (Zpos (digits2_pos m)) prec) as [Heq | Hne].
  - left. rewrite Heq in Hd. lia.
  - right. assert (Hlt : Zpos (digits2_pos m) <= prec - 1) by lia.
    split; [| lia].
    apply Z.lt_le_trans with (2 ^ Zpos (digits2_pos m)); [lia |].
    apply Z.pow_le_mono_r; lia.
Qed.

Lemma of_bits_join (s : bool) (E M : Z) :
  0 <= M < 2 ^ (prec - 1) -> 0 <= E < 2 * emax ->
  of_bits prec emax (join_bits prec emax s E M) =
    if E =? 0 then
      (if M =? 0 then S754_zero s else S754_finite s (Z.to_pos M) (emin prec emax))
    else if E =? 2 * emax - 1 then
      (if M =? 0 then S754_infinity s else S754_nan)
    else S754_finite s (Z.to_pos (M + 2 ^ (prec - 1))) (E + emin prec emax - 1).
Proof.
  intros HM HE. unfold of_bits, join_bits.
  set (P := 2 ^ (prec - 1)) in *.
  assert (HP : 0 < P) by (apply Z.pow_pos_nonneg; lia).
  set (S := if s then 1 else 0).
  replace ((if s then 2 * emax * P else 0) + E * P + M)
    with (M + (S * (2 * emax) + E) * P) by (subst S; destruct s; lia).
  assert (HS : 0 <= S <= 1) by (subst S; destruct s; lia).
  rewrite Z.mod_add, (Z.mod_small M P) by lia.
  replace (2 * emax * P) with (P * (2 * emax)) by lia.
  rewrite <- (Z.div_div _ P (2 * emax)) by lia.
  rewrite !Z.div_add, (Z.div_small M P), Z.add_0_l by lia.
  rewrite (Z.add_comm _ E), Z.mod_add, (Z.mod_small E), Z.div_add, (Z.div_small E) by lia.
  replace (negb (0 + S =? 0)) with s by (subst S; destruct s; reflexivity).
  reflexivity.
Qed.

(** Decoding the encoding of a valid value gives the value back, NaN
    included. *)
Lemma of_bits_bits_of (x : spec_float) :
  valid_binary prec emax x = true -> of_bits prec emax (bits_of prec emax x) = x.
Proof.
  assert (HP : 0 < 2 ^ (prec - 1)) by (apply Z.pow_pos_nonneg; lia).
  assert (HQ : 0 < 2 ^ (prec - 2) < 2 ^ (prec - 1)).
  { split; [apply Z.pow_pos_nonneg; lia | apply Z.pow_lt_mono_r; lia]. }
  destruct x as [s | s | | s m e]; cbn [valid_binary bits_of]; intros Hv.
  - rewrite of_bits_join by lia. reflexivity.
  - rewrite of_bits_join by lia.
    destruct (Z.eqb_spec (2 * emax - 1) 0); [lia |].
    now rewrite Z.eqb_refl.
  - rewrite of_bits_join by lia.
    destruct (Z.eqb_spec (2 * emax - 1) 0); [lia |].
    rewrite Z.eqb_refl.
    destruct (Z.eqb_spec (2 ^ (prec - 2)) 0); [lia | reflexivity].
  - assert (Hpow : 2 ^ prec = 2 * 2 ^ (prec - 1)).
    { rewrite <- Z.pow_succ_r by lia. f_equal. lia. }
    destruct (bounded_cases m e Hv) as [[Hm He] | (Hm & He & He')].
    + destruct (Z.leb_spec (2 ^ (prec - 1)) (Zpos m)); [| lia].
      unfold emin in *.
      rewrite of_bits_join by lia.
      destruct (Z.eqb_spec (e - (3 - emax - prec) + 1) 0); [lia |].
      destruct (Z.eqb_spec (e - (3 - emax - prec) + 1) (2 * emax - 1)); [lia |].
      unfold emin. f_equal; [| lia].
      replace (Zpos m - 2 ^ (prec - 1) + 2 ^ (prec - 1)) with (Zpos m) by lia.
      reflexivity.
    + destruct (Z.leb_spec (2 ^ (prec - 1)) (Zpos m)); [lia |].
      rewrite of_bits_join by lia. simpl. now subst e.
Qed.

Lemma bits_of_range (x : spec_float) :
  valid_binary prec emax x = true ->
  0 <= bits_of prec emax x < 2 * (2 * emax * 2 ^ (prec - 1)).
Proof.
  assert (HP : 0 < 2 ^ (prec - 1)) by (apply Z.pow_pos_nonneg; lia).
  assert (HQ : 0 < 2 ^ (prec - 2) < 2 ^ (prec - 1)).
  { split; [apply Z.pow_pos_nonneg; lia | apply Z.pow_lt_mono_r; lia]. }
  assert (Hjoin : forall s E M, 0 <= M < 2 ^ (prec - 1) -> 0 <= E < 2 * emax ->
            0 <= join_bits prec emax s E M < 2 * (2 * emax * 2 ^ (prec - 1))).
  { intros s E M HM HE. unfold join_bits. destruct s; nia. }
  destruct x as [s | s | | s m e]; cbn [valid_binary bits_of]; intros Hv;
    try (apply Hjoin; lia).
  assert (Hpow : 2 ^ prec = 2 * 2 ^ (prec - 1)).
  { rewrite <- Z.pow_succ_r by lia. f_equal. lia. }
  destruct (bounded_cases m e Hv) as [[Hm He] | (Hm & He & He')];
    destruct (Z.leb_spec (2 ^ (prec - 1)) (Zpos m)); try lia;
    apply Hjoin; unfold emin in *; lia.
Qed.
End Format.

(** *** Rounding a value that needs none *)

Lemma digits2_pos_iter_xO (m k : positive) :
  digits2_pos (Pos.iter xO m k) = (digits2_pos m + k)%positive.
Proof.
  induction k as [| k IH] using Pos.peano_ind.
  - simpl. lia.
  - rewrite Pos.iter_succ. cbn [digits2_pos]. rewrite IH. lia.
Qed.

Lemma Zpos_iter_xO (m k : positive) :
  Zpos (Pos.iter xO m k) = Zpos m * 2 ^ Zpos k.
Proof.
  induction k as [| k IH] using Pos.peano_ind.
  - simpl. lia.
  - rewrite Pos.iter_succ, Pos2Z.inj_succ, Z.pow_succ_r by lia.
    rewrite Pos2Z.inj_xO, IH. lia.
Qed.

Section Rounding.
Variables prec emax : Z.

(** A mantissa already in canonical position goes through the rounding
    unchanged. *)
Lemma binary_round_aux_canonical (s : bool) (m : positive) (e : Z) :
  bounded prec emax m e = true ->
  binary_round_aux prec emax s (Zpos m) e loc_Exact = S754_finite s m e.
Proof.
  unfold bounded, canonical_mantissa. intros H.
  apply andb_true_iff in H as [Hc He]. apply Z.eqb_eq in Hc.
  unfold binary_round_aux, shr_fexp.
  cbn [Zdigits2 shr_record_of_loc]. rewrite Hc, Z.sub_diag.
  cbn [shr shr_m loc_of_shr_record round_nearest_even Zdigits2].
  rewrite Hc, Z.sub_diag. cbn [shr shr_m]. now rewrite He.
Qed.

(** A mantissa of at most [prec] digits is shifted left into canonical
    position, exactly, as long as the exponent stays in range. *)
Lemma binary_round_widen (s : bool) (m : positive) (e : Z) :
  let e' := e - (prec - Zpos (digits2_pos m)) in
  Zpos (digits2_pos m) <= prec -> emin prec emax <= e' -> e' <= emax - prec ->
  binary_round prec emax s m e = S754_finite s (fst (shl_align m e e')) e'.
Proof.
  intros e' Hd Hmin Hmax.
  assert (He' : e' = e - (prec - Zpos (digits2_pos m))) by reflexivity.
  clearbody e'. unfold binary_round.
  assert (Hfexp : fexp prec emax (Zpos (digits2_pos m) + e) = e').
  { unfold fexp, emin in *. lia. }
  rewrite Hfexp. unfold shl_align.
  destruct (e' - e) as [| k | k] eqn:Hk; cbn [fst].
  - assert (Heq : e' = e) by lia. rewrite Heq in *.
    apply binary_round_aux_canonical. unfold bounded, canonical_mantissa.
    rewrite Hfexp, Z.eqb_refl. cbn. now apply Z.leb_le.
  - lia.
  - apply binary_round_aux_canonical. unfold bounded, canonical_mantissa.
    rewrite digits2_pos_iter_xO, Pos2Z.inj_add.
    replace (fexp prec emax (Zpos (digits2_pos m) + Zpos k + e')) with e'
      by (unfold fexp, emin in *; lia).
    rewrite Z.eqb_refl. cbn. now apply Z.leb_le.
Qed.
End Rounding.

(** The shift of the rounding functions, [iter_pos], as an iteration over
    [nat]. *)
Lemma iter_pos_nat {A : Type} (f : A -> A) (n : positive) (x : A) :
  SpecFloat.iter_pos f n x = Nat.iter (Pos.to_nat n) f x.
Proof.
  revert x. induction n as [n IH | n IH |]; intros x; cbn [SpecFloat.iter_pos].
  - rewrite !IH, Pos2Nat.inj_xI, Nat.iter_succ_r.
    replace (2 * Pos.to_nat n)%nat with (Pos.to_nat n + Pos.to_nat n)%nat by lia.
    now rewrite Nat.iter_add.
  - rewrite !IH, Pos2Nat.inj_xO.
    replace (2 * Pos.to_nat n)%nat with (Pos.to_nat n + Pos.to_nat n)%nat by lia.
    now rewrite Nat.iter_add.
  - reflexivity.
Qed.

(** Shifting right what was shifted left loses nothing. *)
Lemma shr_1_iter_exact (k : nat) (m : positive) :
  Nat.iter k shr_1 (Build_shr_record (Zpos (Nat.iter k xO m)) false false) =
    Build_shr_record (Zpos m) false false.
Proof.
  induction k as [| k IH]; [reflexivity |].
  rewrite Nat.iter_succ_r. cbn [Nat.iter nat_rect shr_1 orb]. exact IH.
Qed.

Lemma shr_iter_xO (m k : positive) (e : Z) :
  shr (Build_shr_record (Zpos (Pos.iter xO m k)) false false) e (Zpos k) =
    (Build_shr_record (Zpos m) false false, e + Zpos k).
Proof.
  unfold shr. rewrite iter_pos_nat, Pos2Nat.inj_iter.
  f_equal. apply shr_1_iter_exact.
Qed.

Section Narrowing.
Variables prec emax : Z.

(** A value of the format, written with its mantissa shifted left by [k]
    and its exponent lowered by [k], rounds to itself. *)
Lemma binary_round_narrow (s : bool) (m k : positive) (e : Z) :
  bounded prec emax m e = true ->
  binary_round prec emax s (Pos.iter xO m k) (e - Zpos k) = S754_finite s m e.
Proof.
  intros Hb. pose proof Hb as Hb'.
  unfold bounded, canonical_mantissa in Hb'.
  apply andb_true_iff in Hb' as [Hc He]. apply Z.eqb_eq in Hc. apply Z.leb_le in He.
  assert (Hfexp : fexp prec emax (Zpos (digits2_pos (Pos.iter xO m k)) + (e - Zpos k)) = e).
  { rewrite digits2_pos_iter_xO, Pos2Z.inj_add.
    replace (Zpos (digits2_pos m) + Zpos k + (e - Zpos k)) with (Zpos (digits2_pos m) + e)
      by lia.
    exact Hc. }
  unfold binary_round. rewrite Hfexp. unfold shl_align.
  replace (e - (e - Zpos k)) with (Zpos k) by lia.
  unfold binary_round_aux, shr_fexp. cbn [Zdigits2 shr_record_of_loc].
  rewrite Hfexp. replace (e - (e - Zpos k)) with (Zpos k) by lia.
  rewrite shr_iter_xO. cbn [shr_m loc_of_shr_record round_nearest_even Zdigits2].
  replace (e - Zpos k + Zpos k) with e by lia.
  rewrite Hc, Z.sub_diag. cbn [shr shr_m].
  apply Z.leb_le in He. now rewrite He.
Qed.
End Narrowing.

(** [of_Z] is exact on the integers a Number holds exactly. *)
Lemma of_Z_exact (z : Z) :
  Z.abs z < 2 ^ 53 -> is_nan (of_Z z) = false /\ truncate (of_Z z) = z.
Proof.
  intros Hz. unfold of_Z, binary_normalize.
  assert (Hpos : forall s p, Zpos p < 2 ^ 53 ->
            is_nan (binary_round 53 1024 s p 0) = false /\
            truncate (binary_round 53 1024 s p 0) = cond_Zopp s (Zpos p)).
  { intros s p Hp.
    pose proof (digits2_pos_bounds p) as Hd.
    assert (Hd53 : Zpos (digits2_pos p) <= 53).
    { destruct (Z.le_gt_cases (Zpos (digits2_pos p)) 53) as [Hle | Hgt]; [assumption |].
      assert (2 ^ 53 <= 2 ^ (Zpos (digits2_pos p) - 1)) by (apply Z.pow_le_mono_r; lia).
      lia. }
    rewrite binary_round_widen by (unfold emin; lia).
    split; [reflexivity |]. cbn [truncate]. f_equal.
    unfold shl_align.
    destruct (0 - (53 - Zpos (digits2_pos p)) - 0) as [| k | k] eqn:Hk; cbn [fst].
    - replace (0 - (53 - Zpos (digits2_pos p))) with 0 by lia. apply Z.shiftl_0_r.
    - lia.
    - replace (0 - (53 - Zpos (digits2_pos p))) with (- Zpos k) by lia.
      rewrite Zpos_iter_xO, Z.shiftl_opp_r, Z.shiftr_div_pow2 by lia.
      apply Z.div_mul. apply Z.pow_nonzero; lia. }
  destruct z as [| p | p].
  - split; reflexivity.
  - apply (Hpos false). lia.
  - apply (Hpos true). lia.
Qed.

(** Encoding then decoding a representable value gives it back. *)
Lemma RawBytes_roundtrip (T : numtype) (v : number) (le : bool) :
  has_reader T = true -> representable T v ->
  RawBytesToNumeric T (NumericToRawBytes T v le) le = v.
Proof.
  intros HT Hv. unfold RawBytesToNumeric, NumericToRawBytes.
  rewrite byte_order_involutive, le_value_le_bytes.
  assert (Hsigned : forall w z, 0 < w -> - 2 ^ (w - 1) <= z < 2 ^ (w - 1) ->
            signed w (z mod 2 ^ w) = z).
  { intros w z Hw Hz. unfold signed.
    assert (Hpow : 2 ^ w = 2 * 2 ^ (w - 1)).
    { rewrite <- Z.pow_succ_r by lia. f_equal. lia. }
    destruct (Z.ltb_spec (z mod 2 ^ w) (2 ^ (w - 1))) as [Hlt | Hge].
    - destruct (Z.lt_ge_cases z 0) as [Hneg | Hpos].
      + rewrite <- (Z.mod_add z 1 (2 ^ w)), Z.mod_small in Hlt by lia. lia.
      + rewrite Z.mod_small in * by lia. lia.
    - destruct (Z.lt_ge_cases z 0) as [Hneg | Hpos].
      + rewrite <- (Z.mod_add z 1 (2 ^ w)), Z.mod_small by lia. lia.
      + rewrite Z.mod_small in * by lia. lia. }
  destruct T; try discriminate HT; cbn [representable raw_bits width] in *;
    unfold ToUint;
    change (8 * Z.of_nat (Z.to_nat 1)) with 8;
    change (8 * Z.of_nat (Z.to_nat 2)) with 16;
    change (8 * Z.of_nat (Z.to_nat 4)) with 32;
    change (8 * Z.of_nat (Z.to_nat 8)) with 64.
  - destruct Hv as [Hv Hr]. rewrite Zmod_mod, Z.mod_small by lia. now symmetry.
  - destruct Hv as [Hv Hr]. rewrite Zmod_mod, Z.mod_small by lia. now symmetry.
  - destruct Hv as [Hv Hr]. rewrite Zmod_mod, Hsigned by lia. now symmetry.
  - destruct Hv as [Hv Hr]. rewrite Zmod_mod, Z.mod_small by lia. now symmetry.
  - destruct Hv as [Hv Hr]. rewrite Zmod_mod, Hsigned by lia. now symmetry.
  - destruct Hv as (Hn & Hval & Hv).
    rewrite Z.mod_small, of_bits_bits_of by
      (try lia; try assumption;
       pose proof (bits_of_range 24 128 ltac:(lia) ltac:(lia) _ Hval) as Hb;
       simpl in *; lia).
    now symmetry.
  - destruct Hv as (Hn & Hval).
    rewrite Z.mod_small, of_bits_bits_of by
      (try lia; try assumption;
       pose proof (bits_of_range 53 1024 ltac:(lia) ltac:(lia) _ Hval) as Hb;
       simpl in *; lia).
    reflexivity.
Qed.

(** ** The store *)

Lemma contents_alloc_new (h : store) (bs : list Z) :
  contents (h ++ [bs]) (length h) = bs.
Proof.
  unfold contents. rewrite list_lookup_total_alt, lookup_app_r, Nat.sub_diag by lia.
  reflexivity.
Qed.

Lemma contents_alloc_old (h : store) (bs : list Z) (b : ArrayBuffer) :
  (b < length h)%nat -> contents (h ++ [bs]) b = contents h b.
Proof. intros Hb. unfold contents. now rewrite lookup_total_app_l. Qed.

Lemma contents_insert_eq (h : store) (b : ArrayBuffer) (bs : list Z) :
  (b < length h)%nat -> contents (<[b := bs]> h) b = bs.
Proof. intros Hb. unfold contents. now rewrite list_lookup_total_insert_eq. Qed.

Lemma contents_insert_ne (h : store) (b b' : ArrayBuffer) (bs : list Z) :
  b <> b' -> contents (<[b := bs]> h) b' = contents h b'.
Proof. intros Hb. unfold contents. now rewrite list_lookup_total_insert_ne. Qed.

Lemma insert_alloc_new (h : store) (bs bs' : list Z) :
  <[length h := bs']> (h ++ [bs]) = h ++ [bs'].
Proof. rewrite insert_app_r_alt, Nat.sub_diag by lia. reflexivity. Qed.

Lemma length_grown (bs : list Z) (n : Z) :
  Z.of_nat (length bs) <= n -> Z.of_nat (length (grown bs n)) = n.
Proof. intros Hn. unfold grown. rewrite length_app, length_replicate. lia. Qed.

Lemma grown_fits (bs : list Z) (n : Z) :
  n <= Z.of_nat (length bs) -> grown bs n = bs.
Proof.
  intros Hn. unfold grown.
  replace (Z.to_nat n - length bs)%nat with 0%nat by lia.
  apply app_nil_r.
Qed.

Lemma length_splice (bs : list Z) (o : Z) (src : list Z) :
  0 <= o -> o + Z.of_nat (length src) <= Z.of_nat (length bs) ->
  length (splice bs o src) = length bs.
Proof.
  intros Ho Hfit. unfold splice.
  rewrite !length_app, length_take, length_drop. lia.
Qed.

(** The written region of a splice is the source. *)
Lemma splice_region (bs : list Z) (o : Z) (src : list Z) :
  0 <= o -> o + Z.of_nat (length src) <= Z.of_nat (length bs) ->
  take (length src) (drop (Z.to_nat o) (splice bs o src)) = src.
Proof.
  intros Ho Hfit. unfold splice.
  rewrite drop_app_length' by (rewrite length_take; lia).
  now rewrite take_app_length.
Qed.

(** Below the written region a splice leaves the bytes alone. *)
Lemma splice_before (bs : list Z) (o : Z) (src : list Z) (i : nat) :
  o <= Z.of_nat (length bs) ->
  (i < Z.to_nat o)%nat -> splice bs o src !! i = bs !! i.
Proof.
  intros Ho Hi. unfold splice.
  rewrite lookup_app_l by (rewrite length_take; lia).
  now rewrite lookup_take_lt.
Qed.

(** Beyond the written region too. *)
Lemma splice_after (bs : list Z) (o : Z) (src : list Z) (i : nat) :
  0 <= o -> o + Z.of_nat (length src) <= Z.of_nat (length bs) ->
  (Z.to_nat o + length src <= i)%nat -> splice bs o src !! i = bs !! i.
Proof.
  intros Ho Hfit Hi. unfold splice.
  rewrite lookup_app_r by (rewrite length_take; lia).
  rewrite lookup_app_r by (rewrite length_take; lia).
  rewrite lookup_drop, length_take. f_equal. lia.
Qed.

Lemma grown_lookup (bs : list Z) (n : Z) (i : nat) :
  (i < length bs)%nat -> grown bs n !! i = bs !! i.
Proof. intros Hi. unfold grown. now rewrite lookup_app_l. Qed.

Lemma length_NumericToRawBytes (T : numtype) (x : number) (le : bool) :
  length (NumericToRawBytes T x le) = Z.to_nat (width T).
Proof. unfold NumericToRawBytes. now rewrite length_byte_order, length_le_bytes. Qed.

(** ** Method by method: the state a call leaves behind *)

Lemma increment_run (step : Z) (h : store) (s : BufferStream) :
  increment step (h, s) =
    (Return step,
     (h, mkBufferStream (buffer s) (view s) (offset s + step) (isLittleEndian s)
           (Z.max (size s) (offset s + step)))).
Proof.
  unfold increment, bind, this, assign, ret. cbn.
  rewrite Z.gtb_ltb.
  destruct (Z.ltb_spec (size s) (offset s + step)) as [Hlt | Hge]; cbn;
    unfold with_size, with_offset; cbn; do 3 f_equal; lia.
Qed.

Lemma set_bytes_zeros (src : list Z) (n : nat) :
  (length src <= n)%nat ->
  set_bytes (replicate n 0) src 0 = Some (grown src (Z.of_nat n)).
Proof.
  intros Hn. unfold set_bytes.
  rewrite length_replicate.
  destruct (Z.gtb_spec (Z.of_nat (length src) + 0) (Z.of_nat n)); [lia |].
  cbn. unfold splice, grown. cbn.
  now rewrite drop_replicate, Nat2Z.id.
Qed.

Lemma checkSize_run (step : Z) (h : store) (s : BufferStream) :
  (buffer s < length h)%nat ->
  checkSize step (h, s) =
    if offset s + step >? byteLength h (buffer s) then
      (Return tt,
       (h ++ [grown (contents h (buffer s)) (offset s + step)],
        mkBufferStream (length h) (length h) (offset s) (isLittleEndian s) (size s)))
    else (Return tt, (h, s)).
Proof.
  intros Hb. unfold checkSize, bind, this, byteLength_of. cbn [fst snd].
  destruct (Z.gtb_spec (offset s + step) (byteLength h (buffer s))) as [Hgt | Hle];
    [| reflexivity].
  unfold byteLength in Hgt.
  unfold new_ArrayBuffer, alloc. cbn [fst snd].
  destruct (Z.ltb_spec (offset s + step) 0); [lia |].
  unfold Uint8Array_set. cbn [fst snd].
  rewrite contents_alloc_new, contents_alloc_old by assumption.
  rewrite set_bytes_zeros by lia.
  rewrite insert_alloc_new, Z2Nat.id by lia.
  reflexivity.
Qed.

Lemma view_set_run (T : numtype) (o : Z) (v : value) (le : bool) (h : store)
    (s : BufferStream) :
  0 <= o -> o + width T <= byteLength h (view s) ->
  view_set T o v le (h, s) =
    (Return tt,
     (<[view s := splice (contents h (view s)) o (NumericToRawBytes T (ToNumber v) le)]> h, s)).
Proof.
  intros Ho Hfit. unfold view_set, SetViewValue, set_bytes, byteLength in *. cbn [fst snd].
  rewrite length_NumericToRawBytes.
  destruct (Z.ltb_spec o 0); [lia |].
  destruct (Z.gtb_spec (o + width T) (Z.of_nat (length (contents h (view s))))); [lia |].
  destruct (Z.gtb_spec (Z.of_nat (Z.to_nat (width T)) + o)
              (Z.of_nat (length (contents h (view s))))); [destruct T; simpl in *; lia |].
  reflexivity.
Qed.

Lemma view_set_8bit (T : numtype) (o : Z) (v : value) (le : bool)
    (st : store * BufferStream) :
  width T = 1 -> view_set T o v false st = view_set T o v le st.
Proof.
  intros HT. unfold view_set, SetViewValue, NumericToRawBytes. rewrite HT.
  change (Z.to_nat 1) with 1%nat. cbn [le_bytes].
  now rewrite !byte_order_single.
Qed.

(** The shape all eight numeric writers share. *)
Lemma write_shape (T : numtype) (value : value) (st : store * BufferStream) :
  write T value st =
    (checkSize (width T) ;;;
     o <- this offset ;;
     v <- lift (coerce T value) ;;
     le <- this isLittleEndian ;;
     view_set T o v le ;;;
     increment (width T)) st.
Proof.
  destruct T; try reflexivity.
  - unfold write, writeUint8, bind, this, lift. cbn [width coerce].
    destruct (checkSize 1 st) as [[[] | e] st1]; [| reflexivity]. cbn.
    destruct (toInt value) as [v | e]; [| reflexivity].
    now rewrite (view_set_8bit Uint8 _ _ (isLittleEndian (snd st1))).
  - unfold write, writeInt8, bind, this, lift. cbn [width coerce].
    destruct (checkSize 1 st) as [[[] | e] st1]; [| reflexivity]. cbn.
    destruct (toInt value) as [v | e]; [| reflexivity].
    now rewrite (view_set_8bit Int8 _ _ (isLittleEndian (snd st1))).
Qed.

Lemma width_pos (T : numtype) : 0 < width T.
Proof. destruct T; simpl; lia. Qed.

(** A numeric write whose argument passes the coercion. *)
Lemma write_run (T : numtype) (value v : value) (h : store) (s : BufferStream) :
  wf h s -> coerce T value = Return v ->
  write T value (h, s) = (Return (width T), written T (ToNumber v) h s).
Proof.
  intros (Hb & Hview & Ho & Hs) Hv.
  pose proof (width_pos T) as Hw.
  rewrite write_shape. unfold bind at 1.
  rewrite checkSize_run by assumption. unfold written, byteLength in *.
  destruct (Z.gtb_spec (offset s + width T) (Z.of_nat (length (contents h (buffer s)))))
    as [Hgt | Hle].
  - unfold bind, this, lift. cbn [fst snd offset isLittleEndian]. rewrite Hv.
    rewrite view_set_run; cbn [view]; unfold byteLength;
      rewrite ?contents_alloc_new, ?length_grown; try lia.
    rewrite increment_run, insert_alloc_new. reflexivity.
  - unfold bind, this, lift. cbn [fst snd]. rewrite Hv.
    rewrite view_set_run; rewrite ?Hview; unfold byteLength; try lia.
    rewrite increment_run, Hview. reflexivity.
Qed.

(** A numeric write whose argument the coercion rejects: the throw comes
    after [checkSize]. *)
Lemma write_throw (T : numtype) (value : value) (e : exn) (h : store) (s : BufferStream) :
  (buffer s < length h)%nat -> coerce T value = Throw e ->
  write T value (h, s) = (Throw e, snd (checkSize (width T) (h, s))).
Proof.
  intros Hb Hv. rewrite write_shape. unfold bind at 1.
  rewrite checkSize_run by assumption.
  destruct (offset s + width T >? byteLength h (buffer s));
    unfold bind, this, lift; now rewrite Hv.
Qed.

(** ** What a numeric write leaves behind *)

Section Written.
Variables (T : numtype) (x : number) (h : store) (s : BufferStream).
Hypothesis Hwf : wf h s.

Let h' := fst (written T x h s).
Let s' := snd (written T x h s).

Lemma written_fields :
  offset s' = offset s + width T /\
  size s' = Z.max (size s) (offset s + width T) /\
  isLittleEndian s' = isLittleEndian s /\
  view s' = buffer s' /\
  buffer s' = (if offset s + width T >? byteLength h (buffer s)
               then length h else buffer s).
Proof.
  subst h' s'. unfold written.
  destruct (offset s + width T >? byteLength h (buffer s)); cbn; auto.
Qed.

Lemma written_contents :
  contents h' (buffer s') =
    splice (grown (contents h (buffer s)) (offset s + width T)) (offset s)
      (NumericToRawBytes T x (isLittleEndian s)).
Proof.
  destruct Hwf as (Hb & Hview & Ho & Hs).
  subst h' s'. unfold written, byteLength in *.
  destruct (Z.gtb_spec (offset s + width T) (Z.of_nat (length (contents h (buffer s)))));
    cbn [fst snd buffer].
  - apply contents_alloc_new.
  - rewrite contents_insert_eq, grown_fits by (assumption || lia). reflexivity.
Qed.

Lemma written_byteLength :
  byteLength h' (buffer s') = Z.max (byteLength h (buffer s)) (offset s + width T).
Proof.
  pose proof (width_pos T) as Hw.
  destruct Hwf as (Hb & Hview & Ho & Hs).
  unfold byteLength in *. rewrite written_contents.
  destruct (Z.le_gt_cases (offset s + width T) (Z.of_nat (length (contents h (buffer s)))))
    as [Hle | Hgt].
  - rewrite grown_fits by lia.
    rewrite length_splice by (rewrite ?length_NumericToRawBytes; lia). lia.
  - rewrite length_splice;
      rewrite ?length_NumericToRawBytes, ?length_grown; lia.
Qed.

Lemma written_wf : wf h' s'.
Proof.
  pose proof (width_pos T) as Hw.
  pose proof written_byteLength as Hlen.
  destruct written_fields as (Hoff & Hsz & Hle & Hv & Hbuf).
  destruct Hwf as (Hb & Hview & Ho & Hs).
  unfold wf. rewrite Hlen, Hoff, Hsz. repeat split; try lia; try assumption.
  rewrite Hbuf. subst h' s'. unfold written.
  destruct (offset s + width T >? byteLength h (buffer s)); cbn [fst].
  - rewrite length_app. simpl. lia.
  - now rewrite length_insert.
Qed.

(** The encoding of [x] sits at the old offset. *)
Lemma written_region :
  region h' (buffer s') (offset s) (width T) =
    NumericToRawBytes T x (isLittleEndian s).
Proof.
  pose proof (width_pos T) as Hw.
  destruct Hwf as (Hb & Hview & Ho & Hs).
  unfold region, byteLength in *. rewrite written_contents.
  rewrite <- (length_NumericToRawBytes T x (isLittleEndian s)).
  apply splice_region; [lia |].
  rewrite length_NumericToRawBytes.
  destruct (Z.le_gt_cases (offset s + width T) (Z.of_nat (length (contents h (buffer s)))))
    as [Hle | Hgt].
  - rewrite grown_fits by lia. lia.
  - rewrite length_grown by lia. lia.
Qed.

(** Every byte the buffer held outside the written region is still
    there, at its index. *)
Lemma written_elsewhere (i : nat) (b : Z) :
  contents h (buffer s) !! i = Some b ->
  ~ (offset s <= Z.of_nat i < offset s + width T) ->
  contents h' (buffer s') !! i = Some b.
Proof.
  pose proof (width_pos T) as Hw.
  destruct Hwf as (Hb & Hview & Ho & Hs).
  intros Hi Hout. unfold byteLength in *.
  pose proof (lookup_lt_Some _ _ _ Hi) as Hlt.
  rewrite written_contents.
  assert (Hfit : offset s + width T
                 <= Z.of_nat (length (grown (contents h (buffer s)) (offset s + width T)))).
  { destruct (Z.le_gt_cases (offset s + width T) (Z.of_nat (length (contents h (buffer s)))))
      as [Hle | Hgt].
    - rewrite grown_fits by lia. lia.
    - rewrite length_grown by lia. lia. }
  destruct (Z.lt_ge_cases (Z.of_nat i) (offset s)) as [Hbefore | Hafter].
  - rewrite splice_before by lia. now rewrite grown_lookup.
  - rewrite splice_after by (rewrite ?length_NumericToRawBytes; lia).
    now rewrite grown_lookup.
Qed.

(** Buffers other than the cursor's are left alone, and so is the old
    buffer when the write moved to a new one. *)
Lemma written_frame (b : ArrayBuffer) :
  (b < length h)%nat -> b <> buffer s' -> contents h' b = contents h b.
Proof.
  intros Hb Hne. subst h' s'. revert Hne. unfold written.
  destruct (offset s + width T >? byteLength h (buffer s)); cbn [fst snd buffer]; intros Hne.
  - now apply contents_alloc_old.
  - now apply contents_insert_ne.
Qed.
End Written.

Lemma representable_not_nan (T : numtype) (v : number) :
  representable T v -> is_nan v = false.
Proof.
  assert (Hint : forall lo hi, v = of_Z (truncate v) /\ lo <= truncate v < hi ->
            - 2 ^ 32 <= lo -> hi <= 2 ^ 32 -> is_nan v = false).
  { intros lo hi [Hv Hr] Hlo Hhi. rewrite Hv. apply of_Z_exact. lia. }
  destruct T; cbn [representable]; intros Hv;
    try (eapply Hint; [exact Hv | lia | lia]); tauto.
Qed.

(** [representable] holds of what it is meant to hold of: the integers of
    the range of an integer type, every binary32 value but NaN seen as a
    Number, every Number but NaN. *)
Lemma representable_of_Z (T : numtype) (z : Z) :
  match T with
  | Uint8 => 0 <= z < 2 ^ 8
  | Int8 => - 2 ^ 7 <= z < 2 ^ 7
  | Uint16 => 0 <= z < 2 ^ 16
  | Int16 => - 2 ^ 15 <= z < 2 ^ 15
  | Uint32 => 0 <= z < 2 ^ 32
  | Int32 => - 2 ^ 31 <= z < 2 ^ 31
  | Float32 | Float64 => False
  end ->
  representable T (of_Z z).
Proof.
  intros Hz.
  assert (Hex : truncate (of_Z z) = z) by (apply of_Z_exact; destruct T; cbv beta iota in Hz; lia).
  destruct T; cbn [representable]; try contradiction; rewrite Hex; split;
    reflexivity || assumption.
Qed.

Lemma to_binary32_of_binary32 (x : spec_float) :
  valid_binary 24 128 x = true -> to_binary32 (of_binary32 x) = x.
Proof.
  destruct x as [s | s | | s m e]; try reflexivity.
  cbn [valid_binary of_binary32]. intros Hv.
  destruct (bounded_cases 24 128 ltac:(lia) m e Hv) as [[Hm He] | (Hm & He & He')];
    pose proof (digits2_pos_bounds m) as Hd;
    assert (Hd24 : Zpos (digits2_pos m) <= 24)
      by (destruct (Z.le_gt_cases (Zpos (digits2_pos m)) 24) as [Hle | Hgt];
          [assumption |];
          assert (2 ^ 24 <= 2 ^ (Zpos (digits2_pos m) - 1)) by (apply Z.pow_le_mono_r; lia);
          lia);
    unfold emin in *;
    rewrite binary_round_widen by (unfold emin; lia);
    unfold shl_align;
    (destruct (e - (53 - Zpos (digits2_pos m)) - e) as [| k | k] eqn:Hk; [lia | lia |]);
    cbn [fst to_binary32];
    replace (e - (53 - Zpos (digits2_pos m))) with (e - Zpos k) by lia;
    now apply binary_round_narrow.
Qed.

Lemma representable_binary32 (x : spec_float) :
  valid_binary 24 128 x = true -> is_nan x = false ->
  representable Float32 (of_binary32 x).
Proof.
  intros Hv Hn. cbn [representable].
  pose proof (to_binary32_of_binary32 x Hv) as Hid. rewrite Hid.
  split; [| split; [assumption | reflexivity]].
  destruct (of_binary32 x); try reflexivity.
  cbn [to_binary32] in Hid. subst x. discriminate Hn.
Qed.

Lemma representable_binary64 (v : number) :
  valid_binary 53 1024 v = true -> is_nan v = false -> representable Float64 v.
Proof. intros Hv Hn. split; assumption. Qed.

(** ** Reading *)

Lemma view_get_run (T : numtype) (o : Z) (le : bool) (h : store) (s : BufferStream) :
  0 <= o -> o + width T <= byteLength h (view s) ->
  view_get T o le (h, s) =
    (Return (RawBytesToNumeric T (region h (view s) o (width T)) le), (h, s)).
Proof.
  intros Ho Hfit. unfold view_get, GetViewValue, byteLength in *. cbn [fst snd].
  destruct (Z.ltb_spec o 0); [lia |].
  destruct (Z.gtb_spec (o + width T) (Z.of_nat (length (contents h (view s))))); [lia |].
  reflexivity.
Qed.

Lemma byte_order_short (le : bool) (bs : list Z) :
  (length bs <= 1)%nat -> byte_order le bs = bs.
Proof.
  destruct bs as [| b [| b' bs]]; cbn [length]; intros Hlen;
    [now destruct le | apply byte_order_single | lia].
Qed.

(** A read of an element type with a reader, within the buffer. *)
Lemma read_run (T : numtype) (h : store) (s : BufferStream) :
  has_reader T = true ->
  0 <= offset s -> offset s + width T <= byteLength h (view s) ->
  read T (h, s) =
    (Return (RawBytesToNumeric T (region h (view s) (offset s) (width T)) (isLittleEndian s)),
     (h, mkBufferStream (buffer s) (view s) (offset s + width T) (isLittleEndian s)
           (Z.max (size s) (offset s + width T)))).
Proof.
  intros HT Ho Hfit.
  destruct T; try discriminate HT;
    unfold read, readUint8, readUint16, readInt16, readUint32, readInt32, readFloat,
      readDouble, bind, this, ret; cbn [fst snd];
    rewrite view_get_run by assumption; rewrite increment_run; try reflexivity.
  unfold RawBytesToNumeric.
  rewrite !byte_order_short; [reflexivity | |];
    unfold region; rewrite length_take; cbn [width]; lia.
Qed.

Lemma coerce_number (T : numtype) (x : number) :
  is_nan x = false -> coerce T (VNumber x) = Return (VNumber x).
Proof.
  intros Hx. destruct T; cbn [coerce]; unfold toInt, toFloat, isNaN; cbn [ToNumber];
    now rewrite Hx.
Qed.

(** ** Round trip *)

(** C1, as amended.  For every element type that has both a writer and a
    reader (all but the signed 8-bit integer, which has no reader) and
    either byte order, writing a value of the type at offset 0, going back
    to offset 0 and reading the type gives the value back: the same Number,
    hence the same bits.  NaN is not among the values: the writers reject
    it. *)
Theorem C1_roundtrip (T : numtype) (v : number) (h : store) (s : BufferStream) :
  wf h s -> offset s = 0 -> has_reader T = true -> representable T v ->
  exists st, (write T (VNumber v) ;;; reset ;;; read T) (h, s) = (Return v, st).
Proof.
  intros Hwf Hoff HT Hv.
  pose proof (width_pos T) as Hw.
  unfold bind at 1.
  rewrite (write_run T _ (VNumber v)) by
    (try assumption; apply coerce_number; eapply representable_not_nan; eassumption).
  cbn [ToNumber].
  destruct (written_fields T v h s) as (Ho' & Hs' & Hle' & Hview' & _).
  pose proof (written_byteLength T v h s Hwf) as Hlen.
  pose proof (written_region T v h s Hwf) as Hreg.
  destruct (written T v h s) as [h' s'] eqn:Hwr. cbn [fst snd] in *.
  unfold bind, reset, assign. cbn [fst snd].
  rewrite read_run; unfold with_offset; cbn [offset view buffer isLittleEndian size];
    [| assumption | lia | rewrite Hview', Hlen; lia].
  rewrite Hview', Hle'. rewrite Hoff in Hreg. rewrite Hreg.
  rewrite RawBytes_roundtrip by assumption.
  eexists. reflexivity.
Qed.

Lemma C1_roundtrip_witness :
  exists st,
    (write Int16 (VNumber (of_Z (-2))) ;;; reset ;;; read Int16)
      ([[]], mkBufferStream 0 0 0 true 0) = (Return (of_Z (-2)), st).
Proof.
  apply (C1_roundtrip Int16 (of_Z (-2)) [[]] (mkBufferStream 0 0 0 true 0)).
  - unfold wf, byteLength. simpl. lia.
  - reflexivity.
  - reflexivity.
  - cbn [representable]. change (truncate (of_Z (-2))) with (-2).
    split; [reflexivity | lia].
Defined.

(** C1 as stated fails twice: the class has no reader for the signed 8-bit
    integer, so that reading it back is a TypeError, and the float writers
    throw on NaN, which is a value of both float types. *)
Lemma C1_counterexample :
  fst ((write Int8 (VNumber (of_Z 1)) ;;; reset ;;; read Int8)
         ([[]], mkBufferStream 0 0 0 false 0)) = Throw TypeError /\
  fst ((write Float64 (VNumber NaN) ;;; reset ;;; read Float64)
         ([[]], mkBufferStream 0 0 0 false 0)) = Throw (NotANumber (VNumber NaN)).
Proof. split; reflexivity. Qed.

(** ** The numeric writers *)

(** C2, as amended.  Each numeric writer, given a Number other than NaN, leaves a
    buffer of at least [offset + width] bytes (the same buffer when it was
    long enough, one of exactly that length otherwise), with the encoding of
    the value under the cursor's byte order at the old offset; the offset
    has moved by the width, the size is the larger of the old size and the
    new offset, and the width is returned. *)
Theorem C2_write_contract (T : numtype) (x : number) (h : store) (s : BufferStream) :
  wf h s -> is_nan x = false ->
  exists h' s',
    write T (VNumber x) (h, s) = (Return (width T), (h', s')) /\
    byteLength h' (buffer s') = Z.max (byteLength h (buffer s)) (offset s + width T) /\
    (offset s + width T <= byteLength h (buffer s) -> buffer s' = buffer s) /\
    region h' (buffer s') (offset s) (width T) = NumericToRawBytes T x (isLittleEndian s) /\
    offset s' = offset s + width T /\
    size s' = Z.max (size s) (offset s') /\
    isLittleEndian s' = isLittleEndian s /\
    wf h' s'.
Proof.
  intros Hwf Hx.
  exists (fst (written T x h s)), (snd (written T x h s)).
  destruct (written_fields T x h s) as (Ho & Hs & Hle & Hview & Hbuf).
  split.
  { rewrite (write_run T _ (VNumber x)) by (try assumption; now apply coerce_number).
    cbn [ToNumber]. now destruct (written T x h s). }
  split; [now apply written_byteLength |].
  split.
  { intros Hfit. rewrite Hbuf.
    destruct (Z.gtb_spec (offset s + width T) (byteLength h (buffer s)));
      [lia | reflexivity]. }
  split; [now apply written_region |].
  split; [assumption |].
  split; [now rewrite Ho |].
  split; [assumption | now apply written_wf].
Qed.

Lemma C2_write_contract_witness :
  exists h' s',
    write Uint16 (VNumber (of_Z 4660)) ([[7; 7; 7]], mkBufferStream 0 0 2 true 2)
      = (Return 2, (h', s')) /\
    byteLength h' (buffer s') = Z.max 3 4 /\
    (2 + 2 <= 3 -> buffer s' = 0%nat) /\
    region h' (buffer s') 2 2 = [52; 18] /\
    offset s' = 4 /\
    size s' = Z.max 2 (offset s') /\
    isLittleEndian s' = true /\
    wf h' s'.
Proof.
  apply (C2_write_contract Uint16 (of_Z 4660) [[7; 7; 7]] (mkBufferStream 0 0 2 true 2)).
  - unfold wf, byteLength. simpl. lia.
  - reflexivity.
Defined.

(** C2 as stated fails for the numeric input NaN, which is a Number and a
    value of both float types: every writer throws "Not a number" on it.
    Nothing is encoded, the offset does not move and no width is returned,
    even in a buffer that has room. *)
Lemma C2_counterexample :
  writeDouble (VNumber NaN)
    ([[1; 2; 3; 4; 5; 6; 7; 8]], mkBufferStream 0 0 0 false 0) =
    (Throw (NotANumber (VNumber NaN)),
     ([[1; 2; 3; 4; 5; 6; 7; 8]], mkBufferStream 0 0 0 false 0)) /\
  writeUint8 (VNumber NaN) ([[1]], mkBufferStream 0 0 0 false 0) =
    (Throw (NotANumber (VNumber NaN)), ([[1]], mkBufferStream 0 0 0 false 0)).
Proof. split; reflexivity. Qed.

(** The example of the specification: 0x1234 as a 16-bit unsigned value is
    [0x34, 0x12] in little-endian order and [0x12, 0x34] in big-endian
    order. *)
Example NumericToRawBytes_endianness :
  NumericToRawBytes Uint16 (of_Z 4660) true = [52; 18] /\
  NumericToRawBytes Uint16 (of_Z 4660) false = [18; 52].
Proof. split; reflexivity. Qed.

(** ** Growth *)

(** C3.  Whenever [checkSize] finds the buffer too short for the bytes
    about to be written, it moves the cursor to a new buffer of exactly
    [offset + step] bytes in which every byte of the old buffer sits at its
    old index, followed by zeros; and after a numeric write that had to grow
    the buffer, every old byte outside the region just written is still at
    its index.  In particular 0xAA then 0xBB written into an empty write
    cursor read back as [0xAA, 0xBB]. *)
Theorem C3_growth_preserves (step : Z) (T : numtype) (value v : value) (h : store)
    (s : BufferStream) :
  wf h s ->
  (byteLength h (buffer s) < offset s + step ->
   exists h1 s1,
     checkSize step (h, s) = (Return tt, (h1, s1)) /\
     buffer s1 = length h /\
     byteLength h1 (buffer s1) = offset s + step /\
     (forall i b, contents h (buffer s) !! i = Some b ->
                  contents h1 (buffer s1) !! i = Some b) /\
     (forall i, byteLength h (buffer s) <= Z.of_nat i < offset s + step ->
                contents h1 (buffer s1) !! i = Some 0)) /\
  (coerce T value = Return v -> byteLength h (buffer s) < offset s + width T ->
   exists h' s',
     write T value (h, s) = (Return (width T), (h', s')) /\
     buffer s' = length h /\
     forall i b, contents h (buffer s) !! i = Some b ->
                 ~ (offset s <= Z.of_nat i < offset s + width T) ->
                 contents h' (buffer s') !! i = Some b) /\
  (exists s0 h0 arr h1 s1,
     WriteBufferStream Nullish None [] = (Return s0, h0) /\
     byteLength h0 (buffer s0) = 0 /\
     (writeUint8 (VNumber (of_Z 170)) ;;; writeUint8 (VNumber (of_Z 187)) ;;;
      reset ;;; readUint8Array 2) (h0, s0) = (Return arr, (h1, s1)) /\
     elements h1 arr = [170; 187]).
Proof.
  intros Hwf. pose proof Hwf as (Hb & Hview & Ho & Hs).
  split; [| split].
  - intros Hgrow. rewrite checkSize_run by assumption.
    destruct (Z.gtb_spec (offset s + step) (byteLength h (buffer s))); [| lia].
    do 2 eexists. split; [reflexivity |]. cbn [buffer].
    unfold byteLength in *. rewrite contents_alloc_new.
    split; [reflexivity |]. split; [apply length_grown; lia |]. split.
    + intros i b Hi. rewrite grown_lookup; [assumption |].
      eapply lookup_lt_Some; eassumption.
    + intros i Hi. unfold grown.
      rewrite lookup_app_r by lia. apply lookup_replicate_2. lia.
  - intros Hv Hgrow. rewrite (write_run T _ v) by assumption.
    exists (fst (written T (ToNumber v) h s)), (snd (written T (ToNumber v) h s)).
    split; [now destruct (written T (ToNumber v) h s) |]. split.
    + destruct (written_fields T (ToNumber v) h s) as (_ & _ & _ & _ & ->).
      destruct (Z.gtb_spec (offset s + width T) (byteLength h (buffer s))); [reflexivity | lia].
    + intros i b. now apply written_elsewhere.
  - exists (mkBufferStream 0 0 0 false 0), [[]], (mkUint8Array 2 0 2),
      [[]; [170]; [170; 187]], (mkBufferStream 2 2 2 false 2).
    repeat split; vm_compute; reflexivity.
Qed.

Lemma C3_growth_preserves_witness :
  contents (fst (snd (writeUint16 (VNumber (of_Z 1)) ([[9; 8; 7]], mkBufferStream 0 0 2 false 3))))
    (buffer (snd (snd (writeUint16 (VNumber (of_Z 1)) ([[9; 8; 7]], mkBufferStream 0 0 2 false 3)))))
    !! 1%nat = Some 8.
Proof.
  destruct (C3_growth_preserves 2 Uint16 (VNumber (of_Z 1)) (VNumber (of_Z 1))
              [[9; 8; 7]] (mkBufferStream 0 0 2 false 3)) as (_ & Hwrite & _).
  - unfold wf, byteLength. simpl. lia.
  - destruct Hwrite as (h' & s' & Hrun & _ & Hkeep).
    + reflexivity.
    + unfold byteLength. simpl. lia.
    + change (writeUint16 (VNumber (of_Z 1))) with (write Uint16 (VNumber (of_Z 1))).
      rewrite Hrun. cbn [fst snd]. apply Hkeep; [reflexivity | simpl; lia].
Defined.

(** ** Coercion of the argument *)

Lemma coerce_cases (T : numtype) (value : value) :
  coerce T value =
    if isNaN value then Throw (NotANumber value)
    else match value with
         | VString str =>
             Return (VNumber (match T with
                              | Float32 | Float64 => parseFloat str
                              | _ => parseInt str 0
                              end))
         | _ => Return value
         end.
Proof. destruct T; cbn [coerce]; unfold toInt, toFloat; reflexivity. Qed.

Lemma coerce_accepts (T : numtype) (value : value) :
  isNaN value = false -> exists v, coerce T value = Return v.
Proof.
  intros Hn. rewrite coerce_cases, Hn. destruct value; eexists; reflexivity.
Qed.




(** ** Cursors after a store or an increment *)

Lemma wf_insert (h : store) (s : BufferStream) (bs : list Z) :
  wf h s -> length bs = length (contents h (buffer s)) ->
  wf (<[buffer s := bs]> h) s.
Proof.
  intros (Hb & Hview & Ho & Hs) Hlen. unfold wf, byteLength in *.
  rewrite length_insert, contents_insert_eq, Hlen by assumption. auto.
Qed.

Lemma wf_increment (h : store) (s : BufferStream) (step : Z) :
  wf h s -> 0 <= step -> offset s + step <= byteLength h (buffer s) ->
  wf h (mkBufferStream (buffer s) (view s) (offset s + step) (isLittleEndian s)
          (Z.max (size s) (offset s + step))).
Proof.
  intros (Hb & Hview & Ho & Hs) Hstep Hfit. unfold wf in *. cbn.
  repeat split; lia || assumption.
Qed.

(** ** Slices and sub-cursors *)

Lemma slice_bytes_region (bs : list Z) (start end_ : Z) :
  0 <= start <= end_ -> end_ <= Z.of_nat (length bs) ->
  slice_bytes bs start (Some end_) =
    take (Z.to_nat (end_ - start)) (drop (Z.to_nat start) bs) /\
  Z.of_nat (length (slice_bytes bs start (Some end_))) = end_ - start.
Proof.
  intros Hse He. unfold slice_bytes.
  destruct (Z.ltb_spec start 0); [lia |].
  destruct (Z.ltb_spec end_ 0); [lia |].
  rewrite !Z.min_l, Z.max_l by lia.
  split; [reflexivity |].
  rewrite length_take, length_drop. lia.
Qed.

Lemma getBuffer_run (start end_ : option Z) (h : store) (s : BufferStream) :
  getBuffer start end_ (h, s) =
    (Return (length h),
     (h ++ [if falsy start && falsy end_
            then slice_bytes (contents h (buffer s)) 0 (Some (size s))
            else slice_bytes (contents h (buffer s)) (default 0 start) end_], s)).
Proof.
  unfold getBuffer, bind, this, ArrayBuffer_slice, alloc. cbn [fst snd].
  destruct (falsy start && falsy end_); reflexivity.
Qed.

(** C9, as amended.  For bounds [0 <= start <= end <= capacity] that are
    not both 0, [getBuffer(start, end)] returns a new buffer holding exactly
    the region [[start, end)], of length [end - start], and changes neither
    the cursor nor any existing buffer; called with no arguments, or with
    both bounds 0, it returns a copy of the region [[0, size)]. *)
Theorem C9_getBuffer (start end_ : Z) (h : store) (s : BufferStream) :
  wf h s -> 0 <= start <= end_ -> end_ <= byteLength h (buffer s) ->
  (~ (start = 0 /\ end_ = 0) ->
   exists b h',
     getBuffer (Some start) (Some end_) (h, s) = (Return b, (h', s)) /\
     b = length h /\
     contents h' b = region h (buffer s) start (end_ - start) /\
     byteLength h' b = end_ - start /\
     forall b0, (b0 < length h)%nat -> contents h' b0 = contents h b0) /\
  (forall args, args = (None, None) \/ args = (Some 0, Some 0) ->
   exists b h',
     getBuffer (fst args) (snd args) (h, s) = (Return b, (h', s)) /\
     b = length h /\
     contents h' b = region h (buffer s) 0 (size s) /\
     byteLength h' b = size s /\
     forall b0, (b0 < length h)%nat -> contents h' b0 = contents h b0).
Proof.
  intros (Hb & Hview & Ho & Hs) Hse He. unfold byteLength in *. split.
  - intros Hnz. rewrite getBuffer_run.
    assert (Hfalsy : falsy (Some start) && falsy (Some end_) = false).
    { cbn [falsy]. destruct (Z.eqb_spec start 0), (Z.eqb_spec end_ 0); try reflexivity. tauto. }
    rewrite Hfalsy. cbn [default].
    destruct (slice_bytes_region (contents h (buffer s)) start end_ Hse He) as [Hsl Hlen].
    do 2 eexists. split; [reflexivity |]. split; [reflexivity |].
    unfold byteLength. rewrite contents_alloc_new.
    split; [exact Hsl |]. split; [exact Hlen |].
    intros b0 Hb0. now apply contents_alloc_old.
  - intros args Hargs. rewrite getBuffer_run.
    assert (Hfalsy : falsy (fst args) && falsy (snd args) = true)
      by (destruct Hargs as [-> | ->]; reflexivity).
    rewrite Hfalsy.
    destruct (slice_bytes_region (contents h (buffer s)) 0 (size s)) as [Hsl Hlen]; try lia.
    do 2 eexists. split; [reflexivity |]. split; [reflexivity |].
    unfold byteLength. rewrite contents_alloc_new.
    split; [| split].
    + rewrite Hsl. unfold region. now rewrite Z.sub_0_r.
    + rewrite Hlen. lia.
    + intros b0 Hb0. now apply contents_alloc_old.
Qed.

Lemma C9_getBuffer_witness :
  exists b h',
    getBuffer (Some 1) (Some 3) ([[5; 6; 7; 8]], mkBufferStream 0 0 4 false 4)
      = (Return b, (h', mkBufferStream 0 0 4 false 4)) /\
    contents h' b = [6; 7].
Proof.
  destruct (C9_getBuffer 1 3 [[5; 6; 7; 8]] (mkBufferStream 0 0 4 false 4))
    as [Hsome _].
  - unfold wf, byteLength. simpl. lia.
  - lia.
  - unfold byteLength. simpl. lia.
  - destruct Hsome as (b & h' & Hrun & _ & Hcontents & _); [lia |].
    exists b, h'. split; [exact Hrun |]. rewrite Hcontents. reflexivity.
Defined.

(** C9 as stated fails at [start = end = 0]: both bounds are falsy, the
    call is taken for one without arguments, and the region [[0, size)]
    comes back instead of the empty one. *)
Lemma C9_counterexample :
  getBuffer (Some 0) (Some 0) ([[10; 1]], mkBufferStream 0 0 0 false 2) =
    (Return 1%nat, ([[10; 1]; [10; 1]], mkBufferStream 0 0 0 false 2)) /\
  byteLength [[10; 1]; [10; 1]] 1 <> 0 - 0.
Proof. split; [reflexivity | discriminate]. Qed.

(** A numeric write, whether it returns or throws, touches no existing
    buffer but the cursor's own. *)
Lemma write_frame (T : numtype) (value : value) (h : store) (s : BufferStream)
    (b : ArrayBuffer) :
  wf h s -> (b < length h)%nat -> b <> buffer s ->
  contents (fst (snd (write T value (h, s)))) b = contents h b.
Proof.
  intros Hwf Hb Hne. pose proof Hwf as (Hbs & _).
  destruct (coerce T value) as [v | e] eqn:Hc.
  - rewrite (write_run T _ _ h s Hwf Hc). cbn [snd].
    apply written_frame; [assumption |].
    destruct (written_fields T (ToNumber v) h s) as (_ & _ & _ & _ & ->).
    destruct (offset s + width T >? byteLength h (buffer s)); lia.
  - rewrite (write_throw T _ _ h s Hbs Hc), checkSize_run by assumption. cbn [snd].
    destruct (offset s + width T >? byteLength h (buffer s)); cbn [fst];
      [now apply contents_alloc_old | reflexivity].
Qed.

(** C4.  [more(length)] throws exactly when [offset + length] exceeds the
    capacity, and then changes nothing.  Otherwise it returns a read cursor
    over a new buffer that holds a copy of the bytes
    [[offset, offset + length)], with size [length] and offset 0, and moves
    the parent's offset on by [length]; the two cursors have different
    buffers, so that a store into either buffer, or a numeric write through
    either cursor, leaves the bytes of the other as they were. *)
Theorem C4_more (length_ : Z) (h : store) (s : BufferStream) :
  wf h s -> 0 <= length_ ->
  (offset s + length_ > byteLength h (buffer s) ->
   more length_ (h, s) = (Throw RequestMoreThanAllocated, (h, s))) /\
  (offset s + length_ <= byteLength h (buffer s) ->
   exists sub h' s',
     more length_ (h, s) = (Return sub, (h', s')) /\
     buffer sub = length h /\ buffer sub <> buffer s' /\
     contents h' (buffer sub) = region h (buffer s) (offset s) length_ /\
     size sub = length_ /\ offset sub = 0 /\ wf h' sub /\
     offset s' = offset s + length_ /\ buffer s' = buffer s /\
     contents h' (buffer s') = contents h (buffer s) /\ wf h' s' /\
     (forall bs, contents (<[buffer sub := bs]> h') (buffer s') = contents h' (buffer s')) /\
     (forall bs, contents (<[buffer s' := bs]> h') (buffer sub) = contents h' (buffer sub)) /\
     (forall T value,
        contents (fst (snd (write T value (h', sub)))) (buffer s') = contents h' (buffer s')) /\
     (forall T value,
        contents (fst (snd (write T value (h', s')))) (buffer sub) = contents h' (buffer sub))).
Proof.
  intros Hwf Hlen. pose proof Hwf as (Hb & Hview & Ho & Hs).
  unfold more, bind, this, byteLength_of. cbn [fst snd]. split.
  - intros Hgt.
    destruct (Z.gtb_spec (offset s + length_) (byteLength h (buffer s))); [reflexivity | lia].
  - intros Hle.
    destruct (Z.gtb_spec (offset s + length_) (byteLength h (buffer s))); [lia |].
    unfold ArrayBuffer_slice, alloc. cbn [fst snd].
    rewrite increment_run. unfold construct, ReadBufferStream, BufferStream_constructor.
    cbn [fst snd default with_size buffer view offset isLittleEndian size].
    unfold byteLength in *.
    destruct (slice_bytes_region (contents h (buffer s)) (offset s) (offset s + length_))
      as [Hsl Hsllen]; try lia.
    replace (offset s + length_ - offset s) with length_ in * by lia.
    rewrite contents_alloc_new, Hsllen.
    set (h' := h ++ [slice_bytes (contents h (buffer s)) (offset s) (Some (offset s + length_))]).
    set (sub := mkBufferStream (length h) (length h) 0 false length_).
    set (s' := mkBufferStream (buffer s) (view s) (offset s + length_) (isLittleEndian s)
                 (Z.max (size s) (offset s + length_))).
    assert (Hsub : contents h' (buffer sub) = region h (buffer s) (offset s) length_).
    { subst h' sub. cbn [buffer]. now rewrite contents_alloc_new. }
    assert (Hpar : contents h' (buffer s') = contents h (buffer s)).
    { subst h' s'. cbn [buffer]. now apply contents_alloc_old. }
    assert (Hlen' : length h' = S (length h)).
    { subst h'. rewrite length_app. cbn. lia. }
    assert (Hwfsub : wf h' sub).
    { unfold wf, byteLength. rewrite Hsub, Hlen'. unfold region.
      rewrite <- Hsl, Hsllen. subst sub. cbn. lia. }
    assert (Hwfpar : wf h' s').
    { unfold wf, byteLength. rewrite Hpar, Hlen'. subst s'. cbn. lia. }
    assert (Hne : buffer sub <> buffer s') by (subst sub s'; cbn; lia).
    exists sub, h', s'.
    split; [reflexivity |]. split; [reflexivity |]. split; [exact Hne |].
    split; [exact Hsub |]. split; [reflexivity |]. split; [reflexivity |].
    split; [exact Hwfsub |]. split; [reflexivity |]. split; [reflexivity |].
    split; [exact Hpar |]. split; [exact Hwfpar |].
    split; [intros bs; now apply contents_insert_ne |].
    split; [intros bs; apply contents_insert_ne; congruence |].
    split.
    + intros T value. apply write_frame; [assumption | | congruence].
      rewrite Hlen'. subst s'. cbn. lia.
    + intros T value. apply write_frame; [assumption | | assumption].
      rewrite Hlen'. subst sub. cbn. lia.
Qed.

Lemma C4_more_witness :
  exists sub h' s',
    more 4 ([[1; 2; 3; 4; 5; 6; 7; 8]], mkBufferStream 0 0 0 false 8) = (Return sub, (h', s')) /\
    contents h' (buffer sub) = [1; 2; 3; 4] /\ size sub = 4 /\
    forall bs, region (<[buffer sub := bs]> h') (buffer s') 4 4 = [5; 6; 7; 8].
Proof.
  destruct (C4_more 4 [[1; 2; 3; 4; 5; 6; 7; 8]] (mkBufferStream 0 0 0 false 8))
    as [_ Hok].
  - unfold wf, byteLength. simpl. lia.
  - lia.
  - destruct Hok as (sub & h' & s' & Hrun & _ & _ & Hsub & Hsize & _ & _ & _ & _ & Hpar & _ &
                     Hiso & _).
    { unfold byteLength. simpl. lia. }
    exists sub, h', s'. split; [exact Hrun |]. split; [exact Hsub |]. split; [exact Hsize |].
    intros bs. unfold region. rewrite Hiso, Hpar. reflexivity.
Defined.

(** ** Concatenation *)

Lemma new_ArrayBuffer_run (n : Z) (h : store) (s : BufferStream) :
  0 <= n ->
  new_ArrayBuffer n (h, s) = (Return (length h), (h ++ [replicate (Z.to_nat n) 0], s)).
Proof.
  intros Hn. unfold new_ArrayBuffer, alloc. cbn [fst snd].
  destruct (Z.ltb_spec n 0); [lia | reflexivity].
Qed.

Lemma Uint8Array_set_run (target source : ArrayBuffer) (off : Z) (h : store)
    (s : BufferStream) :
  0 <= off ->
  Z.of_nat (length (contents h source)) + off <= Z.of_nat (length (contents h target)) ->
  Uint8Array_set target source off (h, s) =
    (Return tt, (<[target := splice (contents h target) off (contents h source)]> h, s)).
Proof.
  intros Hoff Hfit. unfold Uint8Array_set, set_bytes. cbn [fst snd].
  destruct (Z.ltb_spec off 0); [lia |].
  destruct (Z.gtb_spec (Z.of_nat (length (contents h source)) + off)
              (Z.of_nat (length (contents h target)))); [lia | reflexivity].
Qed.

Lemma on_getBuffer_run (other : BufferStream) (start end_ : option Z) (h : store)
    (s : BufferStream) :
  on other (getBuffer start end_) (h, s) =
    (Return (length h),
     (h ++ [if falsy start && falsy end_
            then slice_bytes (contents h (buffer other)) 0 (Some (size other))
            else slice_bytes (contents h (buffer other)) (default 0 start) end_], s)).
Proof. unfold on. cbn [fst snd]. now rewrite getBuffer_run. Qed.

(** What [getBuffer(0, n)] copies when [n] is within the buffer, whether or
    not [n] is 0 and the call falls back on the size. *)
Lemma getBuffer_prefix (bs : list Z) (n sz : Z) :
  0 <= n <= Z.of_nat (length bs) -> 0 <= sz <= Z.of_nat (length bs) ->
  let copy := if falsy (Some 0) && falsy (Some n)
              then slice_bytes bs 0 (Some sz)
              else slice_bytes bs (default 0 (Some 0)) (Some n) in
  take (Z.to_nat n) copy = take (Z.to_nat n) bs /\
  Z.of_nat (length copy) = (if n =? 0 then sz else n).
Proof.
  intros Hn Hsz copy. subst copy.
  change (default 0 (Some 0)) with 0. cbn [falsy]. rewrite Z.eqb_refl. cbn [andb].
  destruct (Z.eqb_spec n 0) as [-> | Hnz]; cbv iota.
  - destruct (slice_bytes_region bs 0 sz) as [_ Hlen]; try lia.
    split; [reflexivity | lia].
  - destruct (slice_bytes_region bs 0 n) as [-> Hlen]; try lia.
    change (Z.to_nat 0) with 0%nat in *. rewrite drop_0, Z.sub_0_r in *. rewrite take_take.
    split; [f_equal; lia | assumption].
Qed.

Lemma take_splice (bs : list Z) (o : Z) (src : list Z) :
  0 <= o <= Z.of_nat (length bs) ->
  take (Z.to_nat o) (splice bs o src) = take (Z.to_nat o) bs.
Proof.
  intros Ho. unfold splice.
  rewrite take_app_le by (rewrite length_take; lia).
  rewrite take_take. f_equal. lia.
Qed.

(** C6, as amended.  [concat(other)] copies the bytes [[0, other.size)] of
    [other] into this cursor from the current offset on, in a new buffer of
    exactly [offset + other.size] bytes when the room left is too small and
    in place otherwise; the bytes below the old offset stay, the offset
    moves on by [other.size], and the size is set to the new offset. *)
Theorem C6_concat (other : BufferStream) (h : store) (s : BufferStream) :
  wf h s -> wf h other ->
  exists h' s',
    concat other (h, s) = (Return (byteLength h' (buffer s')), (h', s')) /\
    byteLength h' (buffer s') =
      (if size other >? byteLength h (buffer s) - offset s
       then offset s + size other else byteLength h (buffer s)) /\
    region h' (buffer s') 0 (offset s) = region h (buffer s) 0 (offset s) /\
    region h' (buffer s') (offset s) (size other) = region h (buffer other) 0 (size other) /\
    offset s' = offset s + size other /\
    size s' = offset s' /\
    wf h' s'.
Proof.
  intros Hwf Hwfo.
  pose proof Hwf as (Hb & Hview & Ho & Hs).
  pose proof Hwfo as (Hbo & _ & _ & Hso).
  unfold byteLength in *.
  set (old := contents h (buffer s)) in *.
  set (n := size other) in *.
  set (o := offset s) in *.
  unfold concat, bind at 1, this. cbn [fst snd].
  unfold bind at 1, byteLength_of, byteLength. cbn [fst snd].
  unfold bind at 1. cbn [fst snd]. unfold bind at 1.
  fold old. fold n. fold o.
  destruct (Z.gtb_spec n (Z.of_nat (length old) - o)) as [Hgrow | Hroom].
  - (* a new buffer *)
    unfold bind at 1. rewrite new_ArrayBuffer_run by lia.
    unfold bind at 1. rewrite getBuffer_run.
    rewrite contents_alloc_old by assumption. fold old.
    destruct (getBuffer_prefix old o (size s)) as [Hmine Hminelen]; try lia.
    set (mine := if falsy (Some 0) && falsy (Some o) then _ else _) in *.
    set (zeros := replicate (Z.to_nat (o + n)) 0).
    assert (Hfit1 : Z.of_nat (length mine) + 0 <= Z.of_nat (length zeros)).
    { subst zeros. rewrite length_replicate, Hminelen. destruct (o =? 0); lia. }
    unfold bind at 1. rewrite Uint8Array_set_run.
    2:{ lia. }
    2:{ rewrite contents_alloc_new, contents_alloc_old, contents_alloc_new
          by (rewrite length_app; cbn; lia). exact Hfit1. }
    rewrite contents_alloc_new.
    rewrite (contents_alloc_old (h ++ [zeros])), contents_alloc_new
      by (rewrite length_app; cbn; lia).
    set (h3 := <[length h := splice zeros 0 mine]> ((h ++ [zeros]) ++ [mine])).
    assert (Hlen3 : length h3 = S (S (length h))).
    { subst h3. rewrite length_insert, !length_app. cbn. lia. }
    assert (Hnew3 : contents h3 (length h) = splice zeros 0 mine).
    { subst h3. apply contents_insert_eq. rewrite !length_app. cbn. lia. }
    assert (Hother3 : contents h3 (buffer other) = contents h (buffer other)).
    { subst h3. rewrite contents_insert_ne by lia.
      rewrite !contents_alloc_old; rewrite ?length_app; cbn; lia || reflexivity. }
    unfold bind at 1. rewrite on_getBuffer_run, Hother3.
    destruct (getBuffer_prefix (contents h (buffer other)) n n) as [Htheirs Htheirslen];
      try lia.
    set (theirs := if falsy (Some 0) && falsy (Some n) then _ else _) in *.
    assert (Htl : Z.of_nat (length theirs) = n) by (destruct (n =? 0); lia).
    assert (Hsp1 : length (splice zeros 0 mine) = length zeros).
    { apply length_splice; lia. }
    assert (Hzl : Z.of_nat (length zeros) = o + n).
    { subst zeros. rewrite length_replicate. lia. }
    unfold bind at 1. rewrite Uint8Array_set_run.
    2:{ lia. }
    2:{ rewrite contents_alloc_new, contents_alloc_old, Hnew3 by lia. lia. }
    rewrite contents_alloc_new, contents_alloc_old, Hnew3 by lia.
    set (final := splice (splice zeros 0 mine) o theirs).
    set (h5 := <[length h := final]> (h3 ++ [theirs])).
    unfold bind, assign, this, byteLength_of. cbn [fst snd].
    unfold with_buffer, with_view, with_offset, with_size.
    cbn [buffer view offset isLittleEndian size].
    assert (Hfinal : contents h5 (length h) = final).
    { subst h5. apply contents_insert_eq. rewrite length_app. lia. }
    assert (Hfl : Z.of_nat (length final) = o + n).
    { subst final. rewrite length_splice; lia. }
    exists h5, (mkBufferStream (length h) (length h) (o + n) (isLittleEndian s) (o + n)).
    split; [reflexivity |].
    cbn [buffer offset size]. unfold byteLength, region. rewrite Hfinal.
    split; [exact Hfl |]. split; [| split; [| split; [| split]]].
    + subst final. change (Z.to_nat 0) with 0%nat. rewrite !drop_0.
      rewrite take_splice by lia.
      destruct (Z.eqb_spec o 0) as [Hz | Hnz].
      * rewrite Hz. reflexivity.
      * unfold splice. change (Z.to_nat 0) with 0%nat. rewrite take_0, app_nil_l.
        rewrite take_app_le by lia. exact Hmine.
    + subst final. change (Z.to_nat 0) with 0%nat. rewrite drop_0, <- Htheirs.
      replace (Z.to_nat n) with (length theirs) at 1 by lia.
      rewrite splice_region by lia.
      rewrite firstn_all2 by lia. reflexivity.
    + reflexivity.
    + reflexivity.
    + unfold wf, byteLength. cbn [buffer view offset size]. rewrite Hfinal, Hfl.
      subst h5. rewrite length_insert, length_app, Hlen3. lia.
  - (* in place *)
    unfold bind at 1. rewrite on_getBuffer_run.
    destruct (getBuffer_prefix (contents h (buffer other)) n n) as [Htheirs Htheirslen];
      try lia.
    set (theirs := if falsy (Some 0) && falsy (Some n) then _ else _) in *.
    assert (Htl : Z.of_nat (length theirs) = n) by (destruct (n =? 0); lia).
    rewrite Uint8Array_set_run.
    2:{ lia. }
    2:{ rewrite contents_alloc_new, contents_alloc_old by assumption. fold old. lia. }
    rewrite contents_alloc_new, contents_alloc_old by assumption. fold old.
    set (final := splice old o theirs).
    set (h2 := <[buffer s := final]> (h ++ [theirs])).
    unfold bind, assign, this, byteLength_of. cbn [fst snd].
    unfold with_buffer, with_view, with_offset, with_size.
    cbn [buffer view offset isLittleEndian size].
    assert (Hfinal : contents h2 (buffer s) = final).
    { subst h2. apply contents_insert_eq. rewrite length_app. lia. }
    assert (Hfl : length final = length old).
    { subst final. apply length_splice; lia. }
    exists h2, (mkBufferStream (buffer s) (view s) (o + n) (isLittleEndian s) (o + n)).
    split; [reflexivity |].
    cbn [buffer offset size]. unfold byteLength, region. rewrite Hfinal.
    split; [now rewrite Hfl |]. split; [| split; [| split; [| split]]].
    + subst final. change (Z.to_nat 0) with 0%nat. rewrite !drop_0.
      apply (take_splice old o theirs). lia.
    + subst final. change (Z.to_nat 0) with 0%nat. rewrite drop_0, <- Htheirs.
      replace (Z.to_nat n) with (length theirs) at 1 by lia.
      rewrite splice_region by lia.
      rewrite firstn_all2 by lia. reflexivity.
    + reflexivity.
    + reflexivity.
    + unfold wf, byteLength. cbn [buffer view offset size]. rewrite Hfinal, Hfl.
      subst h2. rewrite length_insert, length_app. fold old. lia.
Qed.

Lemma C6_concat_witness :
  exists h' s',
    concat (mkBufferStream 1 1 3 false 3) ([[1; 2]; [3; 4; 5]], mkBufferStream 0 0 2 false 2)
      = (Return (byteLength h' (buffer s')), (h', s')) /\
    byteLength h' (buffer s') = 5 /\
    region h' (buffer s') 0 2 = [1; 2] /\
    region h' (buffer s') 2 3 = [3; 4; 5] /\
    offset s' = 5 /\ size s' = offset s' /\ wf h' s'.
Proof.
  apply (C6_concat (mkBufferStream 1 1 3 false 3) [[1; 2]; [3; 4; 5]]
           (mkBufferStream 0 0 2 false 2));
    unfold wf, byteLength; simpl; lia.
Defined.

(** C6 as stated fails on the size: with the offset at 2 in a cursor of
    size 5, appending one byte leaves the size at 3, the new offset, not at
    5 + 1. *)
Lemma C6_counterexample :
  concat (mkBufferStream 1 1 0 false 1)
    ([[1; 2; 3; 4; 5]; [9]], mkBufferStream 0 0 2 false 5) =
    (Return 5, ([[1; 2; 9; 4; 5]; [9]; [9]], mkBufferStream 0 0 3 false 3)) /\
  size (mkBufferStream 0 0 3 false 3) <> 5 + 1.
Proof. split; [reflexivity | discriminate]. Qed.

(** ** Hex *)

Lemma region_step (h : store) (b : ArrayBuffer) (o : Z) (n : nat) :
  0 <= o -> o + Z.of_nat (S n) <= byteLength h b ->
  exists x,
    region h b o 1 = [x] /\
    region h b o (Z.of_nat (S n)) = x :: region h b (o + 1) (Z.of_nat n).
Proof.
  intros Ho Hfit. unfold region, byteLength in *.
  destruct (lookup_lt_is_Some_2 (contents h b) (Z.to_nat o)) as [x Hx]; [lia |].
  exists x. rewrite (drop_S _ _ _ Hx).
  replace (Z.to_nat (o + 1)) with (S (Z.to_nat o)) by lia.
  rewrite !Nat2Z.id. split; reflexivity.
Qed.

Lemma string_app_nil_r (a : string) : (a ++ EmptyString)%string = a.
Proof. induction a as [| c a IH]; cbn; [reflexivity | now rewrite IH]. Qed.

Lemma string_app_assoc (a b c : string) : ((a ++ b) ++ c = a ++ (b ++ c))%string.
Proof. induction a as [| x a IH]; cbn; [reflexivity | now rewrite IH]. Qed.

(** What [readHex] does in general: within the buffer it returns the
    unpadded numerals of the next [n] bytes and moves the offset by [n]. *)
Lemma readHex_loop_run (n : nat) :
  forall (acc : string) (h : store) (s : BufferStream),
    0 <= offset s -> offset s + Z.of_nat n <= byteLength h (view s) ->
    readHex_loop n acc (h, s) =
      (Return (acc ++ hex_of_bytes (region h (view s) (offset s) (Z.of_nat n)))%string,
       (h, mkBufferStream (buffer s) (view s) (offset s + Z.of_nat n) (isLittleEndian s)
             (if n is O then size s else Z.max (size s) (offset s + Z.of_nat n)))).
Proof.
  induction n as [| n IH]; intros acc h s Ho Hfit.
  - cbn [readHex_loop]. unfold ret, region.
    change (Z.to_nat (Z.of_nat 0)) with 0%nat. rewrite take_0. cbn [hex_of_bytes].
    rewrite string_app_nil_r. change (Z.of_nat 0) with 0. rewrite Z.add_0_r.
    now destruct s.
  - cbn [readHex_loop]. unfold bind at 1.
    rewrite (read_run Uint8) by (cbn [width]; reflexivity || lia).
    destruct (region_step h (view s) (offset s) n Ho Hfit) as (x & Hx1 & Hxn).
    cbn [width]. rewrite Hx1, Hxn.
    rewrite IH by (cbn [offset view]; lia).
    cbn [offset view buffer isLittleEndian size hex_of_bytes].
    unfold RawBytesToNumeric. rewrite byte_order_single. cbn [le_value].
    change (Z.shiftl 0 8) with 0. rewrite Z.lor_0_r, string_app_assoc.
    do 3 f_equal; [lia | destruct n; lia].
Qed.

Lemma readHex_run (n : Z) (h : store) (s : BufferStream) :
  0 <= n -> 0 <= offset s -> offset s + n <= byteLength h (view s) ->
  exists s',
    readHex n (h, s) = (Return (hex_of_bytes (region h (view s) (offset s) n)), (h, s')) /\
    offset s' = offset s + n.
Proof.
  intros Hn Ho Hfit. unfold readHex.
  rewrite readHex_loop_run by lia. rewrite Z2Nat.id by lia.
  eexists. split; reflexivity.
Qed.

Lemma toString16_unpadded (b : Z) :
  0 <= b < 16 -> String.length (toString16 (of_Z b)) = 1%nat.
Proof.
  intros Hb.
  assert (Hcases : b = 0 \/ b = 1 \/ b = 2 \/ b = 3 \/ b = 4 \/ b = 5 \/ b = 6 \/ b = 7 \/
                   b = 8 \/ b = 9 \/ b = 10 \/ b = 11 \/ b = 12 \/ b = 13 \/ b = 14 \/ b = 15)
    by lia.
  repeat (destruct Hcases as [-> | Hcases]; [reflexivity |]). now subst b.
Qed.

(** C7, at a byte below 16.  [readHex] renders each byte with
    [toString(16)], which does not pad: the bytes 0x0a, 0x01 come out as
    the two characters "a1", not the four characters "0a01". *)
Theorem C7_readHex_unpadded :
  readHex 2 ([[10; 1]], mkBufferStream 0 0 0 false 2) =
    (Return "a1"%string, ([[10; 1]], mkBufferStream 0 0 2 false 2)) /\
  String.length "a1" <> (2 * 2)%nat.
Proof. split; [reflexivity | discriminate]. Qed.

(** The example of the specification, where both bytes are at least 16. *)
Example hex_roundtrip_1a2b :
  (writeHex "1a2b" ;;; reset ;;; readHex 2) ([[]], mkBufferStream 0 0 0 false 0) =
    (Return "1a2b"%string, ([[]; [26; 43]], mkBufferStream 1 1 2 false 2)).
Proof. reflexivity. Qed.

(** ** Runs of 16-bit values *)

(** What [readUint16Array] does in general on an even byte count [2 * k]
    within the buffer: the offset moves by [2 * k] and the array has [k]
    elements, but element 0 is 0 and element [j + 1] is the [j]-th value
    of the run; the last value of the run is in no element. *)
Lemma readUint16Array_loop_run (k : nat) (h : store) (s0 : BufferStream) :
  0 <= offset s0 -> offset s0 + 2 * Z.of_nat k <= byteLength h (view s0) ->
  forall (fuel i : nat) (arr : list Z),
    (k - i < fuel)%nat -> (i <= k)%nat ->
    exists arr',
      readUint16Array_loop fuel (2 * Z.of_nat k) (Z.of_nat i) arr
        (h, with_offset (offset s0 + 2 * Z.of_nat i) s0)
      = (Return arr', (h, with_offset (offset s0 + 2 * Z.of_nat k) s0)) /\
      length arr' = length arr /\
      (forall j, (j <= i)%nat -> arr' !! j = arr !! j) /\
      (forall j, (i <= j < k)%nat -> (S j < length arr)%nat ->
                 arr' !! S j = Some (uint16_at h s0 (offset s0) j)).
Proof.
  intros Ho Hfit fuel. induction fuel as [| fuel IH]; intros i arr Hfuel Hi; [lia |].
  cbn [readUint16Array_loop].
  destruct (Z.ltb_spec (2 * Z.of_nat i) (2 * Z.of_nat k)) as [Hlt | Hge].
  - unfold bind at 1, this at 1. cbn [fst snd]. unfold bind at 1, this at 1. cbn [fst snd].
    unfold bind at 1.
    rewrite view_get_run by (cbn [with_offset offset view width]; lia).
    unfold bind at 1, this at 1. cbn [fst snd]. unfold bind at 1, assign.
    cbn [fst snd with_offset offset view buffer isLittleEndian size].
    replace (Z.to_nat (Z.of_nat i + 1)) with (S i) by lia.
    set (arr1 := <[S i := _]> arr).
    destruct (IH (S i) arr1) as (arr' & Hrun & Hlen & Hlow & Hhigh); [lia | lia |].
    unfold with_offset in Hrun. cbn [buffer view offset isLittleEndian size] in Hrun.
    replace (offset s0 + 2 * Z.of_nat i + 2) with (offset s0 + 2 * Z.of_nat (S i)) by lia.
    replace (Z.of_nat i + 1) with (Z.of_nat (S i)) by lia.
    exists arr'. split; [exact Hrun |].
    assert (Hlen1 : length arr1 = length arr) by (subst arr1; apply length_insert).
    split; [congruence |]. split.
    + intros j Hj. rewrite Hlow by lia. subst arr1.
      apply list_lookup_insert_ne. lia.
    + intros j Hj Hjlen.
      destruct (Nat.eq_dec j i) as [-> | Hne].
      * rewrite Hlow by lia. subst arr1.
        now rewrite list_lookup_insert_eq by lia.
      * apply Hhigh; lia.
  - assert (i = k) by lia. subst i.
    exists arr. split; [reflexivity |]. split; [reflexivity |]. split; [reflexivity |].
    intros j Hj. lia.
Qed.

Lemma readUint16Array_run (k : nat) (h : store) (s : BufferStream) :
  0 <= offset s -> offset s + 2 * Z.of_nat k <= byteLength h (view s) ->
  exists arr,
    readUint16Array (2 * Z.of_nat k) (h, s)
      = (Return arr, (h, with_offset (offset s + 2 * Z.of_nat k) s)) /\
    length arr = k /\
    ((0 < k)%nat -> arr !! 0%nat = Some 0) /\
    (forall j, (S j < k)%nat -> arr !! S j = Some (uint16_at h s (offset s) j)).
Proof.
  intros Ho Hfit. unfold readUint16Array.
  replace (Z.quot (2 * Z.of_nat k) 2) with (Z.of_nat k)
    by (rewrite Z.mul_comm, Z.quot_mul; lia).
  destruct (Z.ltb_spec (Z.of_nat k) 0); [lia |].
  rewrite Nat2Z.id.
  destruct (readUint16Array_loop_run k h s Ho Hfit (S (Z.to_nat (2 * Z.of_nat k))) 0
              (replicate k 0)) as (arr & Hrun & Hlen & Hlow & Hhigh); [lia | lia |].
  change (Z.of_nat 0) with 0 in Hrun. rewrite Z.mul_0_r, Z.add_0_r in Hrun.
  replace (with_offset (offset s) s) with s in Hrun by now destruct s.
  rewrite length_replicate in *.
  exists arr. split; [exact Hrun |]. split; [exact Hlen |]. split.
  - intros Hk. rewrite Hlow by lia. apply lookup_replicate_2. lia.
  - intros j Hj. apply Hhigh; lia.
Qed.

(** C8, on four bytes.  The loop increments [i] before it stores, so that
    the first value read lands in element 1, element 0 keeps its initial 0
    and the last value read is stored past the end and dropped: from the
    big-endian bytes of 1 and 2 the array is [0, 1], not [1, 2]. *)
Theorem C8_readUint16Array_off_by_one :
  readUint16Array 4 ([[0; 1; 0; 2]], mkBufferStream 0 0 0 false 4) =
    (Return [0; 1], ([[0; 1; 0; 2]], mkBufferStream 0 0 4 false 4)) /\
  readUint16 ([[0; 1; 0; 2]], mkBufferStream 0 0 0 false 4) =
    (Return (of_Z 1), ([[0; 1; 0; 2]], mkBufferStream 0 0 2 false 4)).
Proof. split; reflexivity. Qed.

(** ** Further examples of the specification *)

(** 0x0001FFFF written as two 16-bit words and read back as two. *)
Example two_uint16s :
  (writeTwoUint16s (VNumber (of_Z 131071)) ;;; reset ;;;
   hi <- readUint16 ;; lo <- readUint16 ;; ret (js_or (js_shl hi 16) lo))
    ([[]], mkBufferStream 0 0 0 false 0) =
    (Return (of_Z 131071), ([[]; [0; 1; 255; 255]], mkBufferStream 1 1 4 false 4)).
Proof. reflexivity. Qed.

(** 1.5 and -0 through the 32-bit float accessors, little-endian. *)
Example float32_roundtrip :
  (writeFloat (VString "1.5") ;;; writeFloat (VNumber (S754_zero true)) ;;; reset ;;;
   a <- readFloat ;; b <- readFloat ;; ret (a, b))
    ([[]], mkBufferStream 0 0 0 true 0) =
    (Return (S754_finite false 6755399441055744 (-52), S754_zero true),
     ([[]; [0; 0; 192; 63]; [0; 0; 192; 63; 0; 0; 0; 128]],
      mkBufferStream 2 2 8 true 8)).
Proof. reflexivity. Qed.

(** [end()] holds once the offset has reached the capacity. *)
Example end_at_capacity :
  (writeUint16 (VNumber (of_Z 7)) ;;; end_) ([[0; 0; 0]], mkBufferStream 0 0 0 false 0) =
    (Return false, ([[0; 7; 0]], mkBufferStream 0 0 2 false 2)) /\
  (writeUint16 (VNumber (of_Z 7)) ;;; end_) ([[0; 0]], mkBufferStream 0 0 0 false 0) =
    (Return true, ([[0; 7]], mkBufferStream 0 0 2 false 2)).
Proof. split; reflexivity. Qed.

(** * Further properties of the class *)

(** ** Regions *)

Lemma region_app (h : store) (b : ArrayBuffer) (o n m : Z) :
  0 <= o -> 0 <= n -> 0 <= m ->
  region h b o (n + m) = region h b o n ++ region h b (o + n) m.
Proof.
  intros Ho Hn Hm. unfold region.
  replace (Z.to_nat (n + m)) with (Z.to_nat n + Z.to_nat m)%nat by lia.
  replace (Z.to_nat (o + n)) with (Z.to_nat o + Z.to_nat n)%nat by lia.
  now rewrite <- drop_drop, take_take_drop.
Qed.

Lemma region_prefix (h : store) (b : ArrayBuffer) (n : Z) :
  region h b 0 n = take (Z.to_nat n) (contents h b).
Proof. unfold region. change (Z.to_nat 0) with 0%nat. now rewrite drop_0. Qed.

Lemma length_region (h : store) (b : ArrayBuffer) (o n : Z) :
  0 <= o -> 0 <= n -> o + n <= byteLength h b ->
  Z.of_nat (length (region h b o n)) = n.
Proof.
  intros Ho Hn Hfit. unfold region, byteLength in *.
  rewrite length_take, length_drop. lia.
Qed.

Lemma length_encodings (le : bool) (vs : list (numtype * number)) :
  Z.of_nat (length (encodings le vs)) = total_width vs.
Proof.
  induction vs as [| [T v] rest IH]; [reflexivity |].
  cbn [encodings total_width]. rewrite length_app, length_NumericToRawBytes.
  pose proof (width_pos T). lia.
Qed.

Lemma total_width_nonneg (vs : list (numtype * number)) : 0 <= total_width vs.
Proof.
  induction vs as [| [T v] rest IH]; cbn [total_width]; [lia |].
  pose proof (width_pos T). lia.
Qed.

(** The bytes up to the new offset after one numeric write: those up to
    the old offset, then the encoding. *)
Lemma written_prefix (T : numtype) (x : number) (h : store) (s : BufferStream) :
  wf h s ->
  take (Z.to_nat (offset s + width T))
    (contents (fst (written T x h s)) (buffer (snd (written T x h s)))) =
  take (Z.to_nat (offset s)) (contents h (buffer s))
    ++ NumericToRawBytes T x (isLittleEndian s).
Proof.
  intros Hwf. pose proof Hwf as (Hb & Hview & Ho & Hs).
  pose proof (width_pos T) as Hw.
  rewrite written_contents by assumption. unfold splice, grown, byteLength in *.
  rewrite app_assoc, take_app_length'.
  - rewrite take_app_le by lia. reflexivity.
  - rewrite length_app, length_take, length_app, length_NumericToRawBytes. lia.
Qed.

(** ** A run of writes, a run of reads *)

Lemma write_each_run (vs : list (numtype * number)) :
  forall (h : store) (s : BufferStream),
    wf h s -> Forall (fun p => is_nan (snd p) = false) vs ->
    exists h' s',
      write_each vs (h, s) = (Return tt, (h', s')) /\ wf h' s' /\
      offset s' = offset s + total_width vs /\
      isLittleEndian s' = isLittleEndian s /\
      size s <= size s' /\ (vs <> [] -> size s' = Z.max (size s) (offset s')) /\
      byteLength h' (buffer s') = Z.max (byteLength h (buffer s)) (offset s') /\
      take (Z.to_nat (offset s')) (contents h' (buffer s')) =
        take (Z.to_nat (offset s)) (contents h (buffer s))
          ++ encodings (isLittleEndian s) vs.
Proof.
  induction vs as [| [T v] rest IH]; intros h s Hwf Hvs.
  - exists h, s. cbn [write_each total_width encodings]. unfold ret.
    rewrite Z.add_0_r, app_nil_r.
    split; [reflexivity |]. split; [assumption |]. split; [reflexivity |].
    split; [reflexivity |]. split; [lia |].
    split; [intros Hne; now destruct Hne |].
    split; [destruct Hwf as (_ & _ & Ho & _); lia | reflexivity].
  - inversion Hvs as [| p ps Hv Hrest]; subst. cbn [snd] in Hv.
    cbn [write_each total_width encodings]. unfold bind.
    rewrite (write_run T _ (VNumber v)) by (try assumption; now apply coerce_number).
    cbn [ToNumber].
    pose proof (written_wf T v h s Hwf) as Hwf1.
    pose proof (written_prefix T v h s Hwf) as Hpre.
    destruct (written_fields T v h s) as (Ho1 & Hs1 & Hle1 & _ & _).
    pose proof (written_byteLength T v h s Hwf) as Hlen1.
    destruct (written T v h s) as [h1 s1]. cbn [fst snd] in *.
    destruct (IH h1 s1 Hwf1 Hrest)
      as (h' & s' & Hrun & Hwf' & Ho' & Hle' & Hsz & Hmax & Hlen' & Hpre').
    exists h', s'. rewrite Hrun.
    pose proof (total_width_nonneg rest) as Htw. pose proof (width_pos T) as Hw.
    split; [reflexivity |]. split; [assumption |]. split; [lia |].
    split; [congruence |]. split; [lia |]. split; [| split].
    + intros _. destruct rest as [| q rest'].
      * cbn [write_each] in Hrun. unfold ret in Hrun. inversion Hrun; subst. lia.
      * rewrite Hmax by discriminate. lia.
    + lia.
    + rewrite Hpre', Ho1, Hpre, Hle1, <- app_assoc. reflexivity.
Qed.

Lemma read_each_run (vs : list (numtype * number)) :
  forall (h : store) (s : BufferStream),
    0 <= offset s -> offset s + total_width vs <= byteLength h (view s) ->
    Forall (fun p => has_reader (fst p) = true /\ representable (fst p) (snd p)) vs ->
    region h (view s) (offset s) (total_width vs) = encodings (isLittleEndian s) vs ->
    exists s',
      read_each (map fst vs) (h, s) = (Return (map snd vs), (h, s')) /\
      offset s' = offset s + total_width vs /\
      buffer s' = buffer s /\ view s' = view s /\ isLittleEndian s' = isLittleEndian s.
Proof.
  induction vs as [| [T v] rest IH]; intros h s Ho Hfit Hvs Hreg.
  - exists s. cbn [read_each map total_width]. unfold ret. rewrite Z.add_0_r. auto.
  - inversion Hvs as [| p ps [HT Hv] Hrest]; subst. cbn [fst snd] in HT, Hv.
    cbn [read_each map total_width encodings fst snd] in *.
    pose proof (total_width_nonneg rest) as Htw. pose proof (width_pos T) as Hw.
    rewrite region_app in Hreg by lia.
    apply app_inj_1 in Hreg as [Hreg1 Hreg2].
    2:{ rewrite length_NumericToRawBytes.
        pose proof (length_region h (view s) (offset s) (width T)) as Hl. lia. }
    unfold bind at 1. rewrite read_run by (assumption || lia).
    rewrite Hreg1, RawBytes_roundtrip by assumption.
    set (s1 := mkBufferStream _ _ _ _ _).
    destruct (IH h s1) as (s' & Hrun & Ho' & Hb' & Hv' & Hle'); subst s1;
      cbn [offset view isLittleEndian]; try assumption; try lia.
    unfold bind. rewrite Hrun. unfold ret.
    exists s'. cbn [offset buffer view isLittleEndian] in *.
    repeat split; try assumption; lia.
Qed.

(** X1.  A whole record round-trips: any run of values written one after
    the other from offset 0, each with the writer of its type, is read back
    in order by the readers of those types after [reset], under either byte
    order, however long the buffer was to begin with. *)
Theorem X1_sequence_roundtrip (vs : list (numtype * number)) (h : store)
    (s : BufferStream) :
  wf h s -> offset s = 0 ->
  Forall (fun p => has_reader (fst p) = true /\ representable (fst p) (snd p)) vs ->
  exists st,
    (write_each vs ;;; reset ;;; read_each (map fst vs)) (h, s) = (Return (map snd vs), st).
Proof.
  intros Hwf Hoff Hvs.
  assert (Hnan : Forall (fun p => is_nan (snd p) = false) vs).
  { eapply Forall_impl; [exact Hvs |]. intros [T v] [_ Hr]. cbn [fst snd] in *.
    eapply representable_not_nan; eassumption. }
  destruct (write_each_run vs h s Hwf Hnan)
    as (h' & s' & Hrun & Hwf' & Ho' & Hle' & _ & _ & _ & Hpre).
  destruct Hwf' as (Hb' & Hview' & Hoff' & _).
  pose proof (total_width_nonneg vs) as Htw.
  unfold bind at 1. rewrite Hrun. unfold bind at 1, reset, assign. cbn [fst snd].
  destruct (read_each_run vs h' (with_offset 0 s')) as (s'' & Hread & _);
    cbn [with_offset offset view isLittleEndian]; try assumption; try lia.
  - rewrite Hview'. lia.
  - rewrite region_prefix, Hview', Hle'.
    rewrite Ho', Hoff in Hpre. cbn [Z.to_nat take app] in Hpre.
    rewrite Z.add_0_l in Hpre. exact Hpre.
  - rewrite Hread. eexists. reflexivity.
Qed.

Lemma X1_sequence_roundtrip_witness :
  exists st,
    (write_each [(Uint8, of_Z 200); (Int32, of_Z (-5)); (Uint16, of_Z 513)] ;;; reset ;;;
     read_each [Uint8; Int32; Uint16]) ([[]], mkBufferStream 0 0 0 true 0) =
    (Return [of_Z 200; of_Z (-5); of_Z 513], st).
Proof.
  apply (X1_sequence_roundtrip [(Uint8, of_Z 200); (Int32, of_Z (-5)); (Uint16, of_Z 513)]
           [[]] (mkBufferStream 0 0 0 true 0)).
  - unfold wf, byteLength. simpl. lia.
  - reflexivity.
  - repeat (apply Forall_cons_2;
            [split; [reflexivity |];
             cbn [fst snd representable];
             split; [vm_compute; reflexivity | vm_compute; split; [discriminate | reflexivity]] |]).
    apply Forall_nil_2.
Defined.

(** X2.  Serialising into a cursor that stands at the end of its data
    (offset, size and capacity equal, as in a new write cursor) appends:
    after a run of numeric writes, [getBuffer()] returns exactly the old
    bytes followed by the encodings of the values in the order written, and
    the cursor again stands at the end of its buffer. *)
Theorem X2_writes_append (vs : list (numtype * number)) (h : store) (s : BufferStream) :
  wf h s -> offset s = byteLength h (buffer s) -> size s = offset s ->
  Forall (fun p => is_nan (snd p) = false) vs ->
  exists b h' s',
    (write_each vs ;;; getBuffer None None) (h, s) = (Return b, (h', s')) /\
    contents h' b = contents h (buffer s) ++ encodings (isLittleEndian s) vs /\
    offset s' = byteLength h' (buffer s') /\ size s' = offset s'.
Proof.
  intros Hwf Hend Hsize Hvs.
  destruct (write_each_run vs h s Hwf Hvs)
    as (h1 & s1 & Hrun & Hwf1 & Ho1 & Hle1 & Hsz1 & Hmax1 & Hlen1 & Hpre).
  pose proof (total_width_nonneg vs) as Htw.
  pose proof Hwf as (Hb & _ & Ho & _). pose proof Hwf1 as (Hb1 & _ & Hoff1 & Hs1).
  assert (Hcap : byteLength h1 (buffer s1) = offset s1) by lia.
  assert (Hsize1 : size s1 = offset s1).
  { destruct vs as [| p vs']; [| rewrite Hmax1 by discriminate; lia].
    cbn [write_each] in Hrun. unfold ret in Hrun. inversion Hrun; subst. assumption. }
  unfold bind. rewrite Hrun, getBuffer_run. cbn [falsy andb].
  destruct (slice_bytes_region (contents h1 (buffer s1)) 0 (size s1)) as [Hsl _];
    [lia | unfold byteLength in *; lia |].
  exists (length h1), (h1 ++ [slice_bytes (contents h1 (buffer s1)) 0 (Some (size s1))]), s1.
  split; [reflexivity |]. rewrite contents_alloc_new, Hsl.
  split; [| split].
  - change (Z.to_nat 0) with 0%nat. rewrite drop_0, Z.sub_0_r, Hsize1, Hpre.
    unfold byteLength in Hend. rewrite Hend, Nat2Z.id, firstn_all. reflexivity.
  - unfold byteLength in *. rewrite contents_alloc_old by assumption. lia.
  - assumption.
Qed.

Lemma X2_writes_append_witness :
  exists b h' s',
    (write_each [(Uint16, of_Z 258); (Uint8, of_Z 3)] ;;; getBuffer None None)
      ([[9; 9]], mkBufferStream 0 0 2 false 2) = (Return b, (h', s')) /\
    contents h' b = [9; 9] ++ [1; 2; 3] /\
    offset s' = byteLength h' (buffer s') /\ size s' = offset s'.
Proof.
  apply (X2_writes_append [(Uint16, of_Z 258); (Uint8, of_Z 3)] [[9; 9]]
           (mkBufferStream 0 0 2 false 2)).
  - unfold wf, byteLength. simpl. lia.
  - reflexivity.
  - reflexivity.
  - repeat (apply Forall_cons_2; [reflexivity |]). apply Forall_nil_2.
Defined.

(** X3.  Growth is exact-fit.  After any numeric write of a Number other
    than NaN that had to grow the buffer the capacity equals the new offset,
    [end()] is true, and the next numeric write of such a Number, whatever
    its type, has to move to yet another buffer. *)
Theorem X3_exact_fit_growth (T : numtype) (x : number) (h : store) (s : BufferStream) :
  wf h s -> is_nan x = false -> byteLength h (buffer s) < offset s + width T ->
  exists h' s',
    write T (VNumber x) (h, s) = (Return (width T), (h', s')) /\
    byteLength h' (buffer s') = offset s' /\
    end_ (h', s') = (Return true, (h', s')) /\
    forall T2 x2, is_nan x2 = false ->
      buffer (snd (snd (write T2 (VNumber x2) (h', s')))) = length h' /\
      (buffer s' < length h')%nat.
Proof.
  intros Hwf Hx Hgrow.
  rewrite (write_run T _ (VNumber x)) by (try assumption; now apply coerce_number).
  cbn [ToNumber].
  pose proof (written_wf T x h s Hwf) as Hwf'.
  pose proof (written_byteLength T x h s Hwf) as Hlen.
  destruct (written_fields T x h s) as (Ho' & _).
  destruct (written T x h s) as [h' s']. cbn [fst snd] in *.
  exists h', s'. split; [reflexivity |].
  assert (Hcap : byteLength h' (buffer s') = offset s') by lia.
  split; [exact Hcap |]. split.
  - unfold end_, bind, this, byteLength_of, ret. cbn [fst snd]. rewrite Hcap.
    destruct (Z.geb_spec (offset s') (offset s')); [reflexivity | lia].
  - intros T2 x2 Hx2. split; [| apply Hwf'].
    rewrite (write_run T2 _ (VNumber x2)) by (try assumption; now apply coerce_number).
    cbn [ToNumber snd].
    destruct (written_fields T2 x2 h' s') as (_ & _ & _ & _ & ->).
    pose proof (width_pos T2).
    destruct (Z.gtb_spec (offset s' + width T2) (byteLength h' (buffer s'))); [reflexivity | lia].
Qed.

Lemma X3_exact_fit_growth_witness :
  exists h' s',
    write Uint32 (VNumber (of_Z 1)) ([[0; 0]], mkBufferStream 0 0 1 false 1)
      = (Return 4, (h', s')) /\
    byteLength h' (buffer s') = offset s' /\
    end_ (h', s') = (Return true, (h', s')) /\
    forall T2 x2, is_nan x2 = false ->
      buffer (snd (snd (write T2 (VNumber x2) (h', s')))) = length h' /\
      (buffer s' < length h')%nat.
Proof.
  apply (X3_exact_fit_growth Uint32 (of_Z 1) [[0; 0]] (mkBufferStream 0 0 1 false 1)).
  - unfold wf, byteLength. simpl. lia.
  - reflexivity.
  - unfold byteLength. simpl. lia.
Defined.

Lemma read_out_of_range (T : numtype) (h : store) (s : BufferStream) :
  wf h s -> has_reader T = true -> byteLength h (buffer s) < offset s + width T ->
  read T (h, s) = (Throw RangeError, (h, s)).
Proof.
  intros (Hb & Hview & Ho & Hs) HT Hout.
  assert (Hget : forall le, view_get T (offset s) le (h, s) = (Throw RangeError, (h, s))).
  { intros le. unfold view_get, GetViewValue, byteLength in *. cbn [fst snd].
    rewrite Hview.
    destruct (Z.ltb_spec (offset s) 0); [lia |].
    destruct (Z.gtb_spec (offset s + width T) (Z.of_nat (length (contents h (buffer s)))));
      [reflexivity | lia]. }
  destruct T; try discriminate HT;
    unfold read, readUint8, readUint16, readInt16, readUint32, readInt32, readFloat,
      readDouble, bind, this; cbn [fst snd]; now rewrite Hget.
Qed.

(** X4.  Reads are bounds-checked by the DataView.  On a well-formed
    cursor a numeric read returns the value decoded from the [width] bytes
    at the offset, moves the offset by the width, raises the size to the new
    offset if it was below, and leaves every buffer as it was; when fewer
    than [width] bytes remain it throws a RangeError and changes nothing. *)
Theorem X4_read_bounds (T : numtype) (h : store) (s : BufferStream) :
  wf h s -> has_reader T = true ->
  (offset s + width T <= byteLength h (buffer s) ->
   read T (h, s) =
     (Return (RawBytesToNumeric T (region h (buffer s) (offset s) (width T))
                (isLittleEndian s)),
      (h, mkBufferStream (buffer s) (view s) (offset s + width T) (isLittleEndian s)
            (Z.max (size s) (offset s + width T))))) /\
  (byteLength h (buffer s) < offset s + width T ->
   read T (h, s) = (Throw RangeError, (h, s))).
Proof.
  intros Hwf HT. pose proof Hwf as (Hb & Hview & Ho & Hs). split.
  - intros Hfit. rewrite read_run by (rewrite ?Hview; assumption || lia).
    now rewrite Hview.
  - now apply read_out_of_range.
Qed.

Lemma X4_read_bounds_witness :
  read Uint16 ([[1; 2; 3]], mkBufferStream 0 0 2 false 3) =
    (Throw RangeError, ([[1; 2; 3]], mkBufferStream 0 0 2 false 3)).
Proof.
  destruct (X4_read_bounds Uint16 [[1; 2; 3]] (mkBufferStream 0 0 2 false 3)) as [_ Hout].
  - unfold wf, byteLength. simpl. lia.
  - reflexivity.
  - apply Hout. unfold byteLength. simpl. lia.
Defined.

(** X5.  On a well-formed cursor [end()] is true exactly when the offset
    is at the capacity, which is exactly when a one-byte read would throw;
    [toEnd()] brings that about, and after [reset()] it holds only of an
    empty buffer. *)
Theorem X5_end_predicate (h : store) (s : BufferStream) :
  wf h s ->
  exists e,
    end_ (h, s) = (Return e, (h, s)) /\
    (e = true <-> offset s = byteLength h (buffer s)) /\
    (e = true <-> readUint8 (h, s) = (Throw RangeError, (h, s))) /\
    (toEnd ;;; end_) (h, s) = (Return true, (h, with_offset (byteLength h (buffer s)) s)) /\
    (reset ;;; end_) (h, s) = (Return (byteLength h (buffer s) =? 0), (h, with_offset 0 s)).
Proof.
  intros Hwf. pose proof Hwf as (Hb & Hview & Ho & Hs).
  exists (offset s >=? byteLength h (buffer s)).
  split; [reflexivity |]. split; [| split; [| split]].
  - destruct (Z.geb_spec (offset s) (byteLength h (buffer s))); split; intros; lia || congruence.
  - change readUint8 with (read Uint8).
    destruct (Z.geb_spec (offset s) (byteLength h (buffer s))) as [Hge | Hlt]; split.
    + intros _. apply read_out_of_range; [assumption | reflexivity | cbn [width]; lia].
    + reflexivity.
    + discriminate.
    + intros Hthrow.
      rewrite read_run in Hthrow by (rewrite ?Hview; cbn [width]; reflexivity || lia).
      discriminate.
  - unfold bind, toEnd, end_, bind, this, byteLength_of, assign, ret. cbn [fst snd].
    cbn [with_offset offset buffer].
    destruct (Z.geb_spec (byteLength h (buffer s)) (byteLength h (buffer s))); [reflexivity | lia].
  - unfold bind, reset, end_, bind, this, byteLength_of, assign, ret. cbn [fst snd].
    cbn [with_offset offset buffer]. do 2 f_equal.
    unfold byteLength.
    destruct (Z.geb_spec 0 (Z.of_nat (length (contents h (buffer s)))));
      destruct (Z.eqb_spec (Z.of_nat (length (contents h (buffer s)))) 0); lia || reflexivity.
Qed.

Lemma X5_end_predicate_witness :
  exists e,
    end_ ([[1; 2]], mkBufferStream 0 0 2 false 2) = (Return e, ([[1; 2]], mkBufferStream 0 0 2 false 2)) /\
    (e = true <-> 2 = byteLength [[1; 2]] 0) /\
    (e = true <->
     readUint8 ([[1; 2]], mkBufferStream 0 0 2 false 2)
       = (Throw RangeError, ([[1; 2]], mkBufferStream 0 0 2 false 2))) /\
    (toEnd ;;; end_) ([[1; 2]], mkBufferStream 0 0 2 false 2)
      = (Return true, ([[1; 2]], with_offset (byteLength [[1; 2]] 0) (mkBufferStream 0 0 2 false 2))) /\
    (reset ;;; end_) ([[1; 2]], mkBufferStream 0 0 2 false 2)
      = (Return (byteLength [[1; 2]] 0 =? 0), ([[1; 2]], with_offset 0 (mkBufferStream 0 0 2 false 2))).
Proof.
  apply (X5_end_predicate [[1; 2]] (mkBufferStream 0 0 2 false 2)).
  unfold wf, byteLength. simpl. lia.
Defined.

(** ** Bulk writers *)

Lemma splice_splice_adjacent (bs : list Z) (o : Z) (a b : list Z) :
  0 <= o -> o + Z.of_nat (length a) + Z.of_nat (length b) <= Z.of_nat (length bs) ->
  splice (splice bs o a) (o + Z.of_nat (length a)) b = splice bs o (a ++ b).
Proof.
  intros Ho Hfit. unfold splice.
  replace (Z.to_nat (o + Z.of_nat (length a))) with (Z.to_nat o + length a)%nat by lia.
  rewrite !app_assoc.
  rewrite take_app_length' by (rewrite length_app, length_take; lia).
  rewrite drop_app_ge by (rewrite length_app, length_take; lia).
  rewrite length_app, length_take, drop_drop, <- !app_assoc.
  do 3 f_equal. rewrite length_app. f_equal. lia.
Qed.

Lemma splice_nil (bs : list Z) (o : Z) : splice bs o [] = bs.
Proof. unfold splice. cbn [length app]. rewrite Nat.add_0_r. apply take_drop. Qed.

Lemma NumericToRawBytes_Uint8 (x : number) (le : bool) :
  NumericToRawBytes Uint8 x le = [byte_of x].
Proof. unfold NumericToRawBytes. cbn. apply byte_order_single. Qed.

Lemma writeString_loop_run (bin : list Z) :
  forall (o : Z) (h : store) (s : BufferStream),
    (view s < length h)%nat -> 0 <= o ->
    o + Z.of_nat (length bin) <= byteLength h (view s) ->
    writeString_loop bin o (h, s) =
      (Return tt,
       (<[view s := splice (contents h (view s)) o (map (fun c => byte_of (of_Z c)) bin)]> h, s)).
Proof.
  induction bin as [| c rest IH]; intros o h s Hv Ho Hfit.
  - cbn [writeString_loop map]. unfold ret. rewrite splice_nil.
    now rewrite list_insert_id by (apply list_lookup_lookup_total_lt; lia).
  - cbn [writeString_loop map length] in *. unfold bind, byteLength in *.
    rewrite view_set_run by (unfold byteLength; cbn [width]; lia).
    cbn [ToNumber]. rewrite NumericToRawBytes_Uint8.
    rewrite IH; rewrite ?length_insert; try assumption; try lia.
    2:{ unfold byteLength. rewrite contents_insert_eq, length_splice by (cbn [length]; lia). lia. }
    rewrite contents_insert_eq, list_insert_insert_eq by assumption.
    change (o + 1) with (o + Z.of_nat (length [byte_of (of_Z c)])).
    rewrite splice_splice_adjacent by (cbn [length]; rewrite ?length_map; lia).
    reflexivity.
Qed.

Lemma writeHex_loop_run (n : nat) :
  forall (digits : string) (o : Z) (h : store) (s : BufferStream),
    String.length digits = (2 * n)%nat ->
    (view s < length h)%nat -> 0 <= o ->
    o + Z.of_nat n <= byteLength h (view s) ->
    writeHex_loop digits o (h, s) =
      (Return tt, (<[view s := splice (contents h (view s)) o (hex_bytes digits)]> h, s)) /\
    length (hex_bytes digits) = n.
Proof.
  induction n as [| n IH]; intros digits o h s Hlen Hv Ho Hfit.
  - destruct digits; [| discriminate Hlen].
    cbn [writeHex_loop hex_bytes]. unfold ret. rewrite splice_nil.
    split; [| reflexivity].
    now rewrite list_insert_id by (apply list_lookup_lookup_total_lt; lia).
  - destruct digits as [| c [| c' rest]]; cbn [String.length] in Hlen; try lia.
    cbn [writeHex_loop hex_bytes]. unfold bind, byteLength in *.
    rewrite view_set_run by (unfold byteLength; cbn [width]; lia).
    cbn [ToNumber]. rewrite NumericToRawBytes_Uint8.
    set (b := byte_of _).
    destruct (IH rest (o + 1) (<[view s := splice (contents h (view s)) o [b]]> h) s)
      as [Hrun Hl]; rewrite ?length_insert; try assumption; try lia.
    { unfold byteLength. rewrite contents_insert_eq, length_splice by (cbn [length]; lia). lia. }
    rewrite Hrun, contents_insert_eq, list_insert_insert_eq by assumption.
    change (o + 1) with (o + Z.of_nat (length [b])).
    rewrite splice_splice_adjacent by (cbn [length]; lia).
    split; [reflexivity | cbn [length]; lia].
Qed.

(** A writer that makes room for [raw], stores it byte by byte from the
    offset on and then increments leaves [stored raw] behind. *)
Lemma bulk_write_run (loop : Z -> M unit) (raw : list Z) (h : store) (s : BufferStream) :
  wf h s ->
  (forall (h1 : store) (s1 : BufferStream),
     (view s1 < length h1)%nat ->
     offset s + Z.of_nat (length raw) <= byteLength h1 (view s1) ->
     loop (offset s) (h1, s1) =
       (Return tt, (<[view s1 := splice (contents h1 (view s1)) (offset s) raw]> h1, s1))) ->
  (checkSize (Z.of_nat (length raw)) ;;; loop (offset s) ;;;
   increment (Z.of_nat (length raw))) (h, s) =
    (Return (Z.of_nat (length raw)), stored raw h s).
Proof.
  intros (Hb & Hview & Ho & Hs) Hloop. unfold bind at 1.
  rewrite checkSize_run by assumption. unfold stored, byteLength in *.
  destruct (Z.gtb_spec (offset s + Z.of_nat (length raw))
              (Z.of_nat (length (contents h (buffer s))))) as [Hgt | Hle].
  - unfold bind. rewrite Hloop; cbn [view].
    + rewrite increment_run, contents_alloc_new, insert_alloc_new. reflexivity.
    + rewrite length_app. cbn. lia.
    + unfold byteLength. rewrite contents_alloc_new, length_grown by lia. lia.
  - unfold bind. rewrite Hloop; rewrite ?Hview; try assumption; try lia.
    rewrite increment_run, Hview. reflexivity.
Qed.

Lemma checkSize_then_offset {A} (n : Z) (k : Z -> M A) (h : store) (s : BufferStream) :
  wf h s ->
  (checkSize n ;;; (o <- this offset ;; k o)) (h, s) = (checkSize n ;;; k (offset s)) (h, s).
Proof.
  intros Hwf. unfold bind, this. rewrite checkSize_run by apply Hwf.
  destruct (offset s + n >? byteLength h (buffer s)); reflexivity.
Qed.

Lemma writeString_run (value : option string) (h : store) (s : BufferStream) :
  wf h s ->
  writeString value (h, s) =
    (Return (Z.of_nat (length (toBinaryArray value))),
     stored (map (fun c => byte_of (of_Z c)) (toBinaryArray value)) h s).
Proof.
  intros Hwf. pose proof Hwf as (Hb & Hview & Ho & Hs).
  pose proof (bulk_write_run (writeString_loop (toBinaryArray value))
                (map (fun c => byte_of (of_Z c)) (toBinaryArray value)) h s Hwf) as Hbulk.
  rewrite length_map in Hbulk. unfold writeString. cbv zeta.
  rewrite checkSize_then_offset by assumption.
  apply Hbulk. intros h1 s1 Hv1 Hfit. apply writeString_loop_run; lia.
Qed.

Lemma writeHex_run (value : string) (n : nat) (h : store) (s : BufferStream) :
  wf h s -> String.length value = (2 * n)%nat ->
  writeHex value (h, s) = (Return (Z.of_nat n), stored (hex_bytes value) h s) /\
  length (hex_bytes value) = n.
Proof.
  intros Hwf Hlen. pose proof Hwf as (Hb & Hview & Ho & Hs).
  assert (Hl : length (hex_bytes value) = n).
  { destruct (writeHex_loop_run n value 0 [replicate n 0] (mkBufferStream 0 0 0 false 0))
      as [_ Hl]; try assumption; try lia.
    - cbn. lia.
    - unfold byteLength, contents. cbn. rewrite length_replicate. lia. }
  split; [| exact Hl].
  pose proof (bulk_write_run (writeHex_loop value) (hex_bytes value) h s Hwf) as Hbulk.
  rewrite Hl in Hbulk. unfold writeHex.
  rewrite Hlen. replace (Z.odd (Z.of_nat (2 * n))) with false
    by (rewrite Nat2Z.inj_mul, Z.odd_mul; reflexivity).
  cbv iota.
  replace (Z.of_nat (2 * n) / 2) with (Z.of_nat n)
    by (rewrite Nat2Z.inj_mul, Z.mul_comm, Z.div_mul; lia).
  cbv zeta. unfold bind at 1, this at 1. cbn [fst snd].
  apply Hbulk. intros h1 s1 Hv1 Hfit.
  apply (writeHex_loop_run n value (offset s) h1 s1); try assumption; lia.
Qed.

(** ** What a bulk write leaves behind *)

Section Stored.
Variables (raw : list Z) (h : store) (s : BufferStream).
Hypothesis Hwf : wf h s.

Let h' := fst (stored raw h s).
Let s' := snd (stored raw h s).

Lemma stored_fields :
  offset s' = offset s + Z.of_nat (length raw) /\
  size s' = Z.max (size s) (offset s + Z.of_nat (length raw)) /\
  isLittleEndian s' = isLittleEndian s /\
  view s' = buffer s' /\
  buffer s' = (if offset s + Z.of_nat (length raw) >? byteLength h (buffer s)
               then length h else buffer s).
Proof.
  subst h' s'. unfold stored.
  destruct (offset s + Z.of_nat (length raw) >? byteLength h (buffer s)); cbn; auto.
Qed.

Lemma stored_contents :
  contents h' (buffer s') =
    splice (grown (contents h (buffer s)) (offset s + Z.of_nat (length raw))) (offset s) raw.
Proof.
  destruct Hwf as (Hb & Hview & Ho & Hs).
  subst h' s'. unfold stored, byteLength in *.
  destruct (Z.gtb_spec (offset s + Z.of_nat (length raw))
              (Z.of_nat (length (contents h (buffer s)))));
    cbn [fst snd buffer].
  - apply contents_alloc_new.
  - rewrite contents_insert_eq, grown_fits by (assumption || lia). reflexivity.
Qed.

Lemma stored_byteLength :
  byteLength h' (buffer s') =
    Z.max (byteLength h (buffer s)) (offset s + Z.of_nat (length raw)).
Proof.
  destruct Hwf as (Hb & Hview & Ho & Hs).
  unfold byteLength in *. rewrite stored_contents.
  destruct (Z.le_gt_cases (offset s + Z.of_nat (length raw))
              (Z.of_nat (length (contents h (buffer s))))) as [Hle | Hgt].
  - rewrite grown_fits by lia. rewrite length_splice by lia. lia.
  - rewrite length_splice; rewrite ?length_grown; lia.
Qed.

Lemma stored_wf : wf h' s'.
Proof.
  pose proof stored_byteLength as Hlen.
  destruct stored_fields as (Hoff & Hsz & Hle & Hv & Hbuf).
  destruct Hwf as (Hb & Hview & Ho & Hs).
  unfold wf. rewrite Hlen, Hoff, Hsz. repeat split; try lia; try assumption.
  rewrite Hbuf. subst h' s'. unfold stored.
  destruct (offset s + Z.of_nat (length raw) >? byteLength h (buffer s)); cbn [fst].
  - rewrite length_app. simpl. lia.
  - now rewrite length_insert.
Qed.

(** The bytes up to the new offset: those up to the old offset, then
    [raw]. *)
Lemma stored_prefix :
  take (Z.to_nat (offset s + Z.of_nat (length raw))) (contents h' (buffer s')) =
    take (Z.to_nat (offset s)) (contents h (buffer s)) ++ raw.
Proof.
  destruct Hwf as (Hb & Hview & Ho & Hs).
  rewrite stored_contents. unfold splice, grown, byteLength in *.
  rewrite app_assoc, take_app_length'.
  - rewrite take_app_le by lia. reflexivity.
  - rewrite length_app, length_take, length_app. lia.
Qed.

Lemma stored_region :
  region h' (buffer s') (offset s) (Z.of_nat (length raw)) = raw.
Proof.
  destruct Hwf as (Hb & Hview & Ho & Hs).
  unfold region, byteLength in *. rewrite stored_contents, Nat2Z.id.
  apply splice_region; [lia |].
  destruct (Z.le_gt_cases (offset s + Z.of_nat (length raw))
              (Z.of_nat (length (contents h (buffer s))))) as [Hle | Hgt].
  - rewrite grown_fits by lia. lia.
  - rewrite length_grown by lia. lia.
Qed.

Lemma stored_frame (b : ArrayBuffer) :
  (b < length h)%nat -> b <> buffer s' -> contents h' b = contents h b.
Proof.
  intros Hb Hne. subst h' s'. revert Hne. unfold stored.
  destruct (offset s + Z.of_nat (length raw) >? byteLength h (buffer s));
    cbn [fst snd buffer]; intros Hne.
  - now apply contents_alloc_old.
  - now apply contents_insert_ne.
Qed.
End Stored.

(** ** Strings *)

Lemma charCode_range (c : ascii) : 0 <= charCode c < 256.
Proof. unfold charCode. pose proof (N_ascii_bounded c). lia. Qed.

Lemma ToUint8_of_Z (z : Z) : 0 <= z < 256 -> ToUint 8 (of_Z z) = z.
Proof.
  intros Hz. unfold ToUint.
  destruct (of_Z_exact z) as [_ ->]; [change (2 ^ 53) with 9007199254740992; lia |].
  apply Z.mod_small. change (2 ^ 8) with 256. lia.
Qed.

Lemma byte_of_of_Z (z : Z) : 0 <= z < 256 -> byte_of (of_Z z) = z.
Proof.
  intros Hz. unfold byte_of. rewrite ToUint8_of_Z by assumption.
  change 255 with (Z.ones 8). rewrite Z.land_ones by lia.
  apply Z.mod_small. change (2 ^ 8) with 256. lia.
Qed.

Lemma fromCharCode_charCode (c : ascii) : fromCharCode (of_Z (charCode c)) = c.
Proof.
  unfold fromCharCode. rewrite ToUint8_of_Z by apply charCode_range.
  unfold charCode. rewrite N2Z.id. apply ascii_N_embedding.
Qed.

Lemma length_charCodes (str : string) : length (charCodes str) = String.length str.
Proof. induction str as [| c r IH]; cbn; [reflexivity | now rewrite IH]. Qed.

Lemma string_of_bytes_charCodes (str : string) :
  string_of_bytes (map (fun c => byte_of (of_Z c)) (charCodes str)) = str.
Proof.
  induction str as [| c r IH]; [reflexivity |].
  cbn [charCodes map string_of_bytes].
  rewrite byte_of_of_Z by apply charCode_range.
  now rewrite fromCharCode_charCode, IH.
Qed.

Lemma readString_loop_run (n : nat) :
  forall (acc : string) (h : store) (s : BufferStream),
    0 <= offset s -> offset s + Z.of_nat n <= byteLength h (view s) ->
    readString_loop n acc (h, s) =
      (Return (acc ++ string_of_bytes (region h (view s) (offset s) (Z.of_nat n)))%string,
       (h, mkBufferStream (buffer s) (view s) (offset s + Z.of_nat n) (isLittleEndian s)
             (if n is O then size s else Z.max (size s) (offset s + Z.of_nat n)))).
Proof.
  induction n as [| n IH]; intros acc h s Ho Hfit.
  - cbn [readString_loop]. unfold ret, region.
    change (Z.to_nat (Z.of_nat 0)) with 0%nat. rewrite take_0. cbn [string_of_bytes].
    rewrite string_app_nil_r. change (Z.of_nat 0) with 0. rewrite Z.add_0_r.
    now destruct s.
  - cbn [readString_loop]. unfold bind at 1.
    change readUint8 with (read Uint8).
    rewrite (read_run Uint8) by (cbn [width]; reflexivity || lia).
    destruct (region_step h (view s) (offset s) n Ho Hfit) as (x & Hx1 & Hxn).
    cbn [width]. rewrite Hx1, Hxn.
    rewrite IH by (cbn [offset view]; lia).
    cbn [offset view buffer isLittleEndian size string_of_bytes].
    unfold RawBytesToNumeric. rewrite byte_order_single. cbn [le_value].
    change (Z.shiftl 0 8) with 0. rewrite Z.lor_0_r, string_app_assoc.
    do 3 f_equal; [lia | destruct n; lia].
Qed.

(** After a bulk write from offset 0 and a [reset], the stored bytes are
    the region the cursor is about to read. *)
Lemma stored_reset (raw : list Z) (h : store) (s : BufferStream) :
  wf h s -> offset s = 0 ->
  region (fst (stored raw h s)) (view (snd (stored raw h s))) 0 (Z.of_nat (length raw)) = raw /\
  Z.of_nat (length raw) <= byteLength (fst (stored raw h s)) (view (snd (stored raw h s))).
Proof.
  intros Hwf Ho.
  destruct (stored_fields raw h s) as (Hoff & Hsz & Hle & Hv & Hbuf).
  pose proof (stored_region raw h s Hwf) as Hreg.
  pose proof (stored_wf raw h s Hwf) as (_ & _ & Ho' & _).
  rewrite Hv. rewrite Ho in Hreg.
  split; [exact Hreg | lia].
Qed.

(** X6.  A string written by [writeString] is read back by [readString]:
    on a well-formed cursor at offset 0, [writeString(str)] returns the
    length of [str] and leaves a well-formed cursor, and after [reset()],
    [readString(str.length)] returns [str] itself. *)
Theorem X6_string_roundtrip (str : string) (h : store) (s : BufferStream) :
  wf h s -> offset s = 0 ->
  exists h' s',
    writeString (Some str) (h, s) = (Return (Z.of_nat (String.length str)), (h', s')) /\
    wf h' s' /\
    exists st,
      (reset ;;; readString (Z.of_nat (String.length str))) (h', s') = (Return str, st).
Proof.
  intros Hwf Ho.
  set (raw := map (fun c => byte_of (of_Z c)) (charCodes str)).
  assert (Hlen : length raw = String.length str)
    by (subst raw; now rewrite length_map, length_charCodes).
  exists (fst (stored raw h s)), (snd (stored raw h s)). split; [| split].
  - rewrite writeString_run by assumption. cbn [toBinaryArray].
    rewrite length_charCodes. fold raw. now destruct (stored raw h s).
  - now apply stored_wf.
  - destruct (stored_reset raw h s Hwf Ho) as [Hreg Hfit]. rewrite Hlen in *.
    unfold bind, reset, assign. cbn [fst snd]. unfold readString.
    rewrite Nat2Z.id, readString_loop_run by (cbn [offset view with_offset]; lia).
    cbn [offset view with_offset]. rewrite Hreg. subst raw. rewrite string_of_bytes_charCodes.
    eexists. reflexivity.
Qed.

Lemma X6_string_roundtrip_witness :
  exists h' s',
    writeString (Some "DICM"%string) ([[]], mkBufferStream 0 0 0 false 0) =
      (Return 4, (h', s')) /\
    wf h' s' /\
    exists st, (reset ;;; readString 4) (h', s') = (Return "DICM"%string, st).
Proof.
  apply (X6_string_roundtrip "DICM"%string [[]] (mkBufferStream 0 0 0 false 0)).
  - unfold wf, byteLength, contents. cbn. lia.
  - reflexivity.
Defined.

(** ** Hexadecimal strings *)

Lemma lower_hex_cases (c : ascii) :
  lower_hex c = true ->
  In c ["0"; "1"; "2"; "3"; "4"; "5"; "6"; "7"; "8"; "9"; "a"; "b"; "c"; "d"; "e"; "f"]%char.
Proof.
  destruct c as [[] [] [] [] [] [] [] []]; vm_compute; intros H;
    try discriminate H; tauto.
Qed.

Lemma hex_pair_roundtrip (c c' : ascii) :
  lower_hex c = true -> charCode c <> 48 -> lower_hex c' = true ->
  toString16
    (of_Z (byte_of (js_or (js_shl (parseInt (String c EmptyString) 16) 4)
                      (parseInt (String c' EmptyString) 16)))) =
    String c (String c' EmptyString).
Proof.
  intros Hc Hnz Hc'.
  apply lower_hex_cases in Hc. apply lower_hex_cases in Hc'.
  cbn [In] in Hc, Hc'.
  repeat (destruct Hc as [<- | Hc]; [| try contradiction]);
    try (exfalso; apply Hnz; reflexivity);
    repeat (destruct Hc' as [<- | Hc']; [| try contradiction]);
    vm_compute; reflexivity.
Qed.

Lemma hex_of_bytes_hex_bytes (n : nat) :
  forall str : string,
    String.length str = (2 * n)%nat -> hex_pairs str = true ->
    hex_of_bytes (hex_bytes str) = str.
Proof.
  induction n as [| n IH]; intros str Hlen Hp.
  - destruct str; [reflexivity | discriminate Hlen].
  - destruct str as [| c [| c' rest]]; cbn [String.length] in Hlen; try lia.
    cbn [hex_pairs] in Hp.
    apply andb_true_iff in Hp as [Hp Hrest].
    apply andb_true_iff in Hp as [Hp Hc'].
    apply andb_true_iff in Hp as [Hc Hnz].
    apply negb_true_iff, Z.eqb_neq in Hnz.
    cbn [hex_bytes hex_of_bytes].
    rewrite hex_pair_roundtrip by assumption.
    rewrite IH by (assumption || lia). reflexivity.
Qed.

Lemma hex_pairs_even (str : string) :
  hex_pairs str = true -> exists n, String.length str = (2 * n)%nat.
Proof.
  assert (H : forall k (str : string), (String.length str <= k)%nat ->
            hex_pairs str = true -> exists n, String.length str = (2 * n)%nat).
  { induction k as [| k IH]; intros [| c [| c' rest]] Hk Hp;
      cbn [String.length] in *; try lia; try discriminate Hp;
      try (exists 0%nat; reflexivity).
    cbn [hex_pairs] in Hp. apply andb_true_iff in Hp as [_ Hrest].
    destruct (IH rest) as [n Hn]; [lia | assumption |].
    exists (S n). lia. }
  intros Hp. now apply (H (String.length str)).
Qed.

(** X7.  A string of lowercase hexadecimal digit pairs, none starting with
    "0", is read back by [readHex]: on a well-formed cursor at offset 0,
    [writeHex(str)] returns half the length of [str], and after [reset()],
    [readHex] of that many bytes returns [str] itself. *)
Theorem X7_hex_roundtrip (str : string) (h : store) (s : BufferStream) :
  wf h s -> offset s = 0 -> hex_pairs str = true ->
  exists h' s',
    writeHex str (h, s) = (Return (Z.of_nat (String.length str) / 2), (h', s')) /\
    wf h' s' /\
    exists st,
      (reset ;;; readHex (Z.of_nat (String.length str) / 2)) (h', s') = (Return str, st).
Proof.
  intros Hwf Ho Hp.
  destruct (hex_pairs_even str Hp) as [n Hn].
  destruct (writeHex_run str n h s Hwf Hn) as [Hrun Hlen].
  replace (Z.of_nat (String.length str) / 2) with (Z.of_nat n)
    by (rewrite Hn, Nat2Z.inj_mul, Z.mul_comm, Z.div_mul; lia).
  exists (fst (stored (hex_bytes str) h s)), (snd (stored (hex_bytes str) h s)).
  split; [| split].
  - rewrite Hrun. now destruct (stored (hex_bytes str) h s).
  - now apply stored_wf.
  - destruct (stored_reset (hex_bytes str) h s Hwf Ho) as [Hreg Hfit]. rewrite Hlen in *.
    unfold bind, reset, assign. cbn [fst snd]. unfold readHex.
    rewrite Nat2Z.id, readHex_loop_run by (cbn [offset view with_offset]; lia).
    cbn [offset view with_offset]. rewrite Hreg, (hex_of_bytes_hex_bytes n) by assumption.
    eexists. reflexivity.
Qed.

Lemma X7_hex_roundtrip_witness :
  exists h' s',
    writeHex "1a2bff"%string ([[]], mkBufferStream 0 0 0 false 0) = (Return 3, (h', s')) /\
    wf h' s' /\
    exists st, (reset ;;; readHex 3) (h', s') = (Return "1a2bff"%string, st).
Proof.
  apply (X7_hex_roundtrip "1a2bff"%string [[]] (mkBufferStream 0 0 0 false 0)).
  - unfold wf, byteLength, contents. cbn. lia.
  - reflexivity.
  - reflexivity.
Defined.

(** ** Integers out of range *)

Lemma decode_encode_integer (T : numtype) (x : number) (le : bool) :
  is_integer T = true ->
  RawBytesToNumeric T (NumericToRawBytes T x le) le = wrap T x.
Proof.
  intros HT. unfold RawBytesToNumeric, NumericToRawBytes.
  rewrite byte_order_involutive, le_value_le_bytes.
  destruct T; try discriminate HT; cbn [width raw_bits wrap]; unfold ToUint;
    match goal with
    | |- context [8 * Z.of_nat (Z.to_nat ?k)] =>
        change (8 * Z.of_nat (Z.to_nat k)) with (8 * k)
    end; cbn [Z.mul Pos.mul]; now rewrite Z.mod_mod by lia.
Qed.

Lemma write_reset_read (T : numtype) (x : number) (h : store) (s : BufferStream) :
  wf h s -> offset s = 0 -> has_reader T = true -> is_nan x = false ->
  exists st,
    (write T (VNumber x) ;;; reset ;;; read T) (h, s) =
      (Return (RawBytesToNumeric T (NumericToRawBytes T x (isLittleEndian s))
                 (isLittleEndian s)), st).
Proof.
  intros Hwf Hoff HT Hx.
  pose proof (width_pos T) as Hw.
  unfold bind at 1.
  rewrite (write_run T _ (VNumber x)) by (try assumption; now apply coerce_number).
  cbn [ToNumber].
  destruct (written_fields T x h s) as (Ho' & Hs' & Hle' & Hview' & _).
  pose proof (written_byteLength T x h s Hwf) as Hlen.
  pose proof (written_region T x h s Hwf) as Hreg.
  destruct (written T x h s) as [h' s'] eqn:Hwr. cbn [fst snd] in *.
  unfold bind, reset, assign. cbn [fst snd].
  rewrite read_run; unfold with_offset; cbn [offset view buffer isLittleEndian size];
    [| assumption | lia | rewrite Hview', Hlen; lia].
  rewrite Hview', Hle'. rewrite Hoff in Hreg. rewrite Hreg.
  eexists. reflexivity.
Qed.

Lemma signed_range (w u : Z) :
  0 < w -> 0 <= u < 2 ^ w -> - 2 ^ (w - 1) <= signed w u < 2 ^ (w - 1).
Proof.
  intros Hw Hu. unfold signed.
  assert (Hpow : 2 ^ w = 2 * 2 ^ (w - 1)).
  { rewrite <- Z.pow_succ_r by lia. f_equal. lia. }
  destruct (Z.ltb_spec u (2 ^ (w - 1))); lia.
Qed.

(** X8.  The integer writers never reject a Number for being out of range
    or fractional: written at offset 0 of a well-formed cursor and read back
    after [reset()], any Number other than NaN comes back truncated towards
    zero and reduced modulo [2 ^ width] (an infinity as 0), read as signed
    for the signed types; what comes back is a value of the element type. *)
Theorem X8_integer_wrap (T : numtype) (x : number) (h : store) (s : BufferStream) :
  wf h s -> offset s = 0 -> is_integer T = true -> has_reader T = true ->
  is_nan x = false ->
  (exists st, (write T (VNumber x) ;;; reset ;;; read T) (h, s) = (Return (wrap T x), st)) /\
  representable T (wrap T x).
Proof.
  intros Hwf Hoff Hint HT Hx. split.
  - destruct (write_reset_read T x h s Hwf Hoff HT Hx) as [st Hst].
    exists st. now rewrite Hst, decode_encode_integer.
  - destruct T; try discriminate Hint; try discriminate HT; cbn [wrap];
      apply representable_of_Z; unfold ToUint;
      first [ apply (signed_range 16); [lia |]
            | apply (signed_range 32); [lia |]
            | idtac ];
      apply Z.mod_pos_bound; lia.
Qed.

Lemma X8_integer_wrap_witness :
  (exists st,
     (write Uint8 (VNumber (of_Z 300)) ;;; reset ;;; read Uint8)
       ([[]], mkBufferStream 0 0 0 false 0) = (Return (wrap Uint8 (of_Z 300)), st)) /\
  representable Uint8 (wrap Uint8 (of_Z 300)).
Proof.
  apply (X8_integer_wrap Uint8 (of_Z 300) [[]] (mkBufferStream 0 0 0 false 0)).
  - unfold wf, byteLength, contents. cbn. lia.
  - reflexivity.
  - reflexivity.
  - reflexivity.
  - reflexivity.
Defined.

(** ** Two 16-bit halves *)

Lemma ToInt32_range (x : number) : - 2 ^ 31 <= ToInt32 x < 2 ^ 31.
Proof.
  unfold ToInt32. apply (signed_range 32); [lia |].
  unfold ToUint. apply Z.mod_pos_bound. lia.
Qed.

Lemma toInt_of_Z (z : Z) :
  Z.abs z < 2 ^ 53 -> toInt (VNumber (of_Z z)) = Return (VNumber (of_Z z)).
Proof.
  intros Hz. unfold toInt, isNaN. cbn [ToNumber].
  now destruct (of_Z_exact z Hz) as [-> _].
Qed.

Lemma js_shr_16_range (x : number) : Z.abs (Z.shiftr (ToInt32 x) 16) < 2 ^ 53.
Proof.
  pose proof (ToInt32_range x) as Hr.
  rewrite Z.shiftr_div_pow2 by lia.
  assert (- 2 ^ 31 <= ToInt32 x / 2 ^ 16 < 2 ^ 31).
  { split; [apply Z.div_le_lower_bound | apply Z.div_lt_upper_bound]; lia. }
  lia.
Qed.

Lemma js_and_65535_range (x : number) :
  Z.abs (Z.land (ToInt32 x) (ToInt32 (of_Z 65535))) < 2 ^ 53.
Proof.
  replace (ToInt32 (of_Z 65535)) with (Z.ones 16) by reflexivity.
  rewrite Z.land_ones by lia.
  pose proof (Z.mod_pos_bound (ToInt32 x) (2 ^ 16) ltac:(lia)). lia.
Qed.



Lemma writeTwoUint16s_tail (first second : number) (h : store) (s : BufferStream) :
  (view s < length h)%nat -> 0 <= offset s -> offset s + 4 <= byteLength h (view s) ->
  toInt (VNumber first) = Return (VNumber first) ->
  toInt (VNumber second) = Return (VNumber second) ->
  (o <- this offset ;;
   v <- lift (toInt (VNumber first)) ;;
   le <- this isLittleEndian ;;
   view_set Uint16 o v le ;;;
   o <- this offset ;;
   v <- lift (toInt (VNumber second)) ;;
   le <- this isLittleEndian ;;
   view_set Uint16 (o + 2) v le ;;;
   increment 4) (h, s) =
    (Return 4,
     (<[view s := splice (contents h (view s)) (offset s)
                    (NumericToRawBytes Uint16 first (isLittleEndian s)
                     ++ NumericToRawBytes Uint16 second (isLittleEndian s))]> h,
      mkBufferStream (buffer s) (view s) (offset s + 4) (isLittleEndian s)
        (Z.max (size s) (offset s + 4)))).
Proof.
  intros Hv Ho Hfit H1 H2. unfold bind, this, lift. cbn [fst snd].
  rewrite H1. rewrite view_set_run by (cbn [width]; lia). cbn [fst snd ToNumber].
  rewrite H2. rewrite view_set_run; cbn [ToNumber].
  - rewrite increment_run, contents_insert_eq, list_insert_insert_eq by assumption.
    replace (offset s + 2) with
      (offset s + Z.of_nat (length (NumericToRawBytes Uint16 first (isLittleEndian s))))
      by (rewrite length_NumericToRawBytes; reflexivity).
    rewrite splice_splice_adjacent; [reflexivity | lia |].
    rewrite !length_NumericToRawBytes. unfold byteLength in Hfit. cbn [width]. lia.
  - lia.
  - unfold byteLength in *. rewrite contents_insert_eq by assumption.
    rewrite length_splice; rewrite ?length_NumericToRawBytes; cbn [width]; lia.
Qed.

Lemma writeTwoUint16s_run (value : value) (h : store) (s : BufferStream) :
  wf h s ->
  writeTwoUint16s value (h, s) =
    (Return 4,
     stored (NumericToRawBytes Uint16 (js_shr (ToNumber value) 16) (isLittleEndian s)
             ++ NumericToRawBytes Uint16 (js_and (ToNumber value) (of_Z 65535))
                  (isLittleEndian s)) h s).
Proof.
  intros Hwf. pose proof Hwf as (Hb & Hview & Ho & Hs).
  pose proof (toInt_of_Z _ (js_shr_16_range (ToNumber value))) as H1.
  pose proof (toInt_of_Z _ (js_and_65535_range (ToNumber value))) as H2.
  fold (js_shr (ToNumber value) 16) in H1.
  fold (js_and (ToNumber value) (of_Z 65535)) in H2.
  unfold writeTwoUint16s. cbv zeta. unfold bind at 1.
  rewrite checkSize_run by assumption. unfold stored.
  rewrite length_app, !length_NumericToRawBytes.
  change (Z.of_nat (Z.to_nat (width Uint16) + Z.to_nat (width Uint16))) with 4.
  unfold byteLength in *.
  destruct (Z.gtb_spec (offset s + 4) (Z.of_nat (length (contents h (buffer s)))))
    as [Hgt | Hle].
  - rewrite writeTwoUint16s_tail; cbn [view offset buffer isLittleEndian size];
      try assumption; try lia.
    + now rewrite contents_alloc_new, insert_alloc_new.
    + rewrite length_app. cbn. lia.
    + unfold byteLength. rewrite contents_alloc_new, length_grown by lia. lia.
  - rewrite writeTwoUint16s_tail; try assumption; try lia.
    + now rewrite Hview.
    + unfold byteLength. rewrite Hview. lia.
Qed.

Lemma written_stored (T : numtype) (x : number) (h : store) (s : BufferStream) :
  written T x h s = stored (NumericToRawBytes T x (isLittleEndian s)) h s.
Proof.
  pose proof (width_pos T). unfold written, stored.
  now rewrite length_NumericToRawBytes, Z2Nat.id by lia.
Qed.




(** ** Buffers are only added or written in place *)

Lemma extends_refl (h : store) : extends h h.
Proof. split; [lia | reflexivity]. Qed.

Lemma extends_trans (h1 h2 h3 : store) : extends h1 h2 -> extends h2 h3 -> extends h1 h3.
Proof.
  intros [Hl1 H1] [Hl2 H2]. split; [lia |].
  intros b Hb. rewrite H2, H1 by lia. reflexivity.
Qed.

Lemma extends_alloc (h : store) (bs : list Z) : extends h (h ++ [bs]).
Proof.
  split; [rewrite length_app; lia |].
  intros b Hb. unfold byteLength. now rewrite contents_alloc_old.
Qed.

Lemma extends_insert (h : store) (b : ArrayBuffer) (bs : list Z) :
  (b < length h)%nat -> length bs = length (contents h b) -> extends h (<[b := bs]> h).
Proof.
  intros Hb Hlen. split; [rewrite length_insert; lia |].
  intros b' Hb'. unfold byteLength. destruct (decide (b' = b)) as [-> | Hne].
  - now rewrite contents_insert_eq, Hlen.
  - now rewrite contents_insert_ne.
Qed.

(** A cursor that was well formed stays so in an extended store. *)
Lemma wf_extends (h h' : store) (s : BufferStream) : wf h s -> extends h h' -> wf h' s.
Proof.
  intros (Hb & Hview & Ho & Hs) [Hl Hlen]. unfold wf.
  rewrite Hlen by assumption. repeat split; try lia; assumption.
Qed.

Lemma stored_extends (raw : list Z) (h : store) (s : BufferStream) :
  wf h s -> extends h (fst (stored raw h s)).
Proof.
  intros (Hb & Hview & Ho & Hs). unfold stored, byteLength in *.
  destruct (Z.gtb_spec (offset s + Z.of_nat (length raw))
              (Z.of_nat (length (contents h (buffer s))))); cbn [fst].
  - apply extends_alloc.
  - apply extends_insert; [assumption |]. apply length_splice; lia.
Qed.

Lemma checkSize_wf (step : Z) (h : store) (s : BufferStream) :
  wf h s ->
  wf (fst (snd (checkSize step (h, s)))) (snd (snd (checkSize step (h, s)))) /\
  extends h (fst (snd (checkSize step (h, s)))).
Proof.
  intros Hwf. pose proof Hwf as (Hb & Hview & Ho & Hs).
  rewrite checkSize_run by assumption. unfold byteLength in *.
  destruct (Z.gtb_spec (offset s + step) (Z.of_nat (length (contents h (buffer s)))));
    cbn [fst snd].
  - split; [| apply extends_alloc].
    unfold wf, byteLength. cbn [buffer view offset size].
    rewrite contents_alloc_new, length_grown, length_app by lia. cbn. lia.
  - split; [assumption | apply extends_refl].
Qed.

(** ** [concat] and [more] in full *)

Lemma concat_run (other : BufferStream) (h : store) (s : BufferStream) :
  wf h s -> wf h other ->
  exists h' s',
    concat other (h, s) = (Return (byteLength h' (buffer s')), (h', s')) /\
    region h' (buffer s') 0 (offset s) = region h (buffer s) 0 (offset s) /\
    region h' (buffer s') (offset s) (size other) = region h (buffer other) 0 (size other) /\
    offset s' = offset s + size other /\
    size s' = offset s' /\
    isLittleEndian s' = isLittleEndian s /\
    wf h' s' /\
    extends h h' /\
    (forall b, (b < length h)%nat -> b <> buffer s -> contents h' b = contents h b) /\
    buffer s' = (if size other >? byteLength h (buffer s) - offset s
                 then length h else buffer s).
Proof.
  intros Hwf Hwfo.
  pose proof Hwf as (Hb & Hview & Ho & Hs).
  pose proof Hwfo as (Hbo & _ & _ & Hso).
  unfold byteLength in *.
  set (old := contents h (buffer s)) in *.
  set (n := size other) in *.
  set (o := offset s) in *.
  unfold concat, bind at 1, this. cbn [fst snd].
  unfold bind at 1, byteLength_of, byteLength. cbn [fst snd].
  unfold bind at 1. cbn [fst snd]. unfold bind at 1.
  fold old. fold n. fold o.
  destruct (Z.gtb_spec n (Z.of_nat (length old) - o)) as [Hgrow | Hroom].
  - (* a new buffer *)
    unfold bind at 1. rewrite new_ArrayBuffer_run by lia.
    unfold bind at 1. rewrite getBuffer_run.
    rewrite contents_alloc_old by assumption. fold old.
    destruct (getBuffer_prefix old o (size s)) as [Hmine Hminelen]; try lia.
    set (mine := if falsy (Some 0) && falsy (Some o) then _ else _) in *.
    set (zeros := replicate (Z.to_nat (o + n)) 0).
    assert (Hfit1 : Z.of_nat (length mine) + 0 <= Z.of_nat (length zeros)).
    { subst zeros. rewrite length_replicate, Hminelen. destruct (o =? 0); lia. }
    unfold bind at 1. rewrite Uint8Array_set_run.
    2:{ lia. }
    2:{ rewrite contents_alloc_new, contents_alloc_old, contents_alloc_new
          by (rewrite length_app; cbn; lia). exact Hfit1. }
    rewrite contents_alloc_new.
    rewrite (contents_alloc_old (h ++ [zeros])), contents_alloc_new
      by (rewrite length_app; cbn; lia).
    set (h3 := <[length h := splice zeros 0 mine]> ((h ++ [zeros]) ++ [mine])).
    assert (Hlen3 : length h3 = S (S (length h))).
    { subst h3. rewrite length_insert, !length_app. cbn. lia. }
    assert (Hnew3 : contents h3 (length h) = splice zeros 0 mine).
    { subst h3. apply contents_insert_eq. rewrite !length_app. cbn. lia. }
    assert (Hold3 : forall b, (b < length h)%nat -> contents h3 b = contents h b).
    { intros b Hlt. subst h3. rewrite contents_insert_ne by lia.
      rewrite !contents_alloc_old; rewrite ?length_app; cbn; lia || reflexivity. }
    unfold bind at 1. rewrite on_getBuffer_run, (Hold3 (buffer other)) by assumption.
    destruct (getBuffer_prefix (contents h (buffer other)) n n) as [Htheirs Htheirslen];
      try lia.
    set (theirs := if falsy (Some 0) && falsy (Some n) then _ else _) in *.
    assert (Htl : Z.of_nat (length theirs) = n) by (destruct (n =? 0); lia).
    assert (Hsp1 : length (splice zeros 0 mine) = length zeros).
    { apply length_splice; lia. }
    assert (Hzl : Z.of_nat (length zeros) = o + n).
    { subst zeros. rewrite length_replicate. lia. }
    unfold bind at 1. rewrite Uint8Array_set_run.
    2:{ lia. }
    2:{ rewrite contents_alloc_new, contents_alloc_old, Hnew3 by lia. lia. }
    rewrite contents_alloc_new, contents_alloc_old, Hnew3 by lia.
    set (final := splice (splice zeros 0 mine) o theirs).
    set (h5 := <[length h := final]> (h3 ++ [theirs])).
    unfold bind, assign, this, byteLength_of. cbn [fst snd].
    unfold with_buffer, with_view, with_offset, with_size.
    cbn [buffer view offset isLittleEndian size].
    assert (Hfinal : contents h5 (length h) = final).
    { subst h5. apply contents_insert_eq. rewrite length_app. lia. }
    assert (Hfl : Z.of_nat (length final) = o + n).
    { subst final. rewrite length_splice; lia. }
    assert (Hold5 : forall b, (b < length h)%nat -> contents h5 b = contents h b).
    { intros b Hlt. subst h5. rewrite contents_insert_ne by lia.
      rewrite contents_alloc_old by lia. now apply Hold3. }
    exists h5, (mkBufferStream (length h) (length h) (o + n) (isLittleEndian s) (o + n)).
    split; [reflexivity |].
    cbn [buffer offset size isLittleEndian]. unfold byteLength, region. rewrite Hfinal.
    split; [| split; [| split; [| split; [| split; [| split; [| split; [| split]]]]]]].
    + subst final. change (Z.to_nat 0) with 0%nat. rewrite !drop_0.
      rewrite take_splice by lia.
      destruct (Z.eqb_spec o 0) as [Hz | Hnz].
      * rewrite Hz. reflexivity.
      * unfold splice. change (Z.to_nat 0) with 0%nat. rewrite take_0, app_nil_l.
        rewrite take_app_le by lia. exact Hmine.
    + subst final. change (Z.to_nat 0) with 0%nat. rewrite drop_0, <- Htheirs.
      replace (Z.to_nat n) with (length theirs) at 1 by lia.
      rewrite splice_region by lia.
      rewrite firstn_all2 by lia. reflexivity.
    + reflexivity.
    + reflexivity.
    + reflexivity.
    + unfold wf, byteLength. cbn [buffer view offset size]. rewrite Hfinal, Hfl.
      subst h5. rewrite length_insert, length_app, Hlen3. lia.
    + split.
      * subst h5. rewrite length_insert, length_app, Hlen3. lia.
      * intros b Hlt. unfold byteLength. now rewrite Hold5.
    + intros b Hlt _. now apply Hold5.
    + destruct (Z.gtb_spec n (Z.of_nat (length old) - o)); [reflexivity | lia].
  - (* in place *)
    unfold bind at 1. rewrite on_getBuffer_run.
    destruct (getBuffer_prefix (contents h (buffer other)) n n) as [Htheirs Htheirslen];
      try lia.
    set (theirs := if falsy (Some 0) && falsy (Some n) then _ else _) in *.
    assert (Htl : Z.of_nat (length theirs) = n) by (destruct (n =? 0); lia).
    rewrite Uint8Array_set_run.
    2:{ lia. }
    2:{ rewrite contents_alloc_new, contents_alloc_old by assumption. fold old. lia. }
    rewrite contents_alloc_new, contents_alloc_old by assumption. fold old.
    set (final := splice old o theirs).
    set (h2 := <[buffer s := final]> (h ++ [theirs])).
    unfold bind, assign, this, byteLength_of. cbn [fst snd].
    unfold with_buffer, with_view, with_offset, with_size.
    cbn [buffer view offset isLittleEndian size].
    assert (Hfinal : contents h2 (buffer s) = final).
    { subst h2. apply contents_insert_eq. rewrite length_app. lia. }
    assert (Hfl : length final = length old).
    { subst final. apply length_splice; lia. }
    exists h2, (mkBufferStream (buffer s) (view s) (o + n) (isLittleEndian s) (o + n)).
    split; [reflexivity |].
    cbn [buffer offset size isLittleEndian]. unfold byteLength, region. rewrite Hfinal.
    split; [| split; [| split; [| split; [| split; [| split; [| split; [| split]]]]]]].
    + subst final. change (Z.to_nat 0) with 0%nat. rewrite !drop_0.
      apply (take_splice old o theirs). lia.
    + subst final. change (Z.to_nat 0) with 0%nat. rewrite drop_0, <- Htheirs.
      replace (Z.to_nat n) with (length theirs) at 1 by lia.
      rewrite splice_region by lia.
      rewrite firstn_all2 by lia. reflexivity.
    + reflexivity.
    + reflexivity.
    + reflexivity.
    + unfold wf, byteLength. cbn [buffer view offset size]. rewrite Hfinal, Hfl.
      subst h2. rewrite length_insert, length_app. fold old. lia.
    + subst h2. eapply extends_trans; [apply (extends_alloc h theirs) |].
      apply extends_insert; [rewrite length_app; lia |].
      rewrite contents_alloc_old by assumption. exact Hfl.
    + intros b Hlt Hne. subst h2. rewrite contents_insert_ne by congruence.
      now apply contents_alloc_old.
    + destruct (Z.gtb_spec n (Z.of_nat (length old) - o)); [lia | reflexivity].
Qed.

Lemma more_run (length_ : Z) (h : store) (s : BufferStream) :
  wf h s -> 0 <= length_ ->
  more length_ (h, s) =
    if offset s + length_ >? byteLength h (buffer s)
    then (Throw RequestMoreThanAllocated, (h, s))
    else (Return (mkBufferStream (length h) (length h) 0 false length_),
          (h ++ [region h (buffer s) (offset s) length_],
           mkBufferStream (buffer s) (view s) (offset s + length_) (isLittleEndian s)
             (Z.max (size s) (offset s + length_)))).
Proof.
  intros (Hb & Hview & Ho & Hs) Hlen.
  unfold more, bind, this, byteLength_of. cbn [fst snd].
  destruct (Z.gtb_spec (offset s + length_) (byteLength h (buffer s))); [reflexivity |].
  unfold ArrayBuffer_slice, alloc. cbn [fst snd].
  rewrite increment_run. unfold construct, ReadBufferStream, BufferStream_constructor.
  cbn [fst snd default with_size buffer view offset isLittleEndian size].
  unfold byteLength in *.
  destruct (slice_bytes_region (contents h (buffer s)) (offset s) (offset s + length_))
    as [Hsl Hsllen]; try lia.
  replace (offset s + length_ - offset s) with length_ in * by lia.
  rewrite contents_alloc_new, Hsllen. unfold region. now rewrite <- Hsl.
Qed.

(** ** The class invariant *)

Lemma keeps_bind {A B} (c : M A) (k : A -> M B) (h : store) (s : BufferStream) :
  keeps c h s ->
  (forall a h1 s1, c (h, s) = (Return a, (h1, s1)) -> wf h1 s1 -> keeps (k a) h1 s1) ->
  keeps (x <- c ;; k x) h s.
Proof.
  unfold keeps, bind. intros (Hwf & Hext & Hsz) Hk.
  destruct (c (h, s)) as [[a | e] [h1 s1]]; cbn [fst snd] in *.
  - destruct (Hk a h1 s1 eq_refl Hwf) as (Hwf' & Hext' & Hsz').
    split; [assumption | split; [eapply extends_trans; eassumption | lia]].
  - split; [assumption | split; assumption].
Qed.

Lemma keeps_unchanged {A} (c : M A) (h : store) (s : BufferStream) :
  wf h s -> snd (c (h, s)) = (h, s) -> keeps c h s.
Proof.
  intros Hwf Heq. unfold keeps. rewrite Heq. cbn [fst snd].
  split; [assumption | split; [apply extends_refl | lia]].
Qed.

Lemma keeps_stored {A} (c : M A) (raw : list Z) (h : store) (s : BufferStream) :
  wf h s -> snd (c (h, s)) = stored raw h s -> keeps c h s.
Proof.
  intros Hwf Heq. unfold keeps. rewrite Heq.
  destruct (stored_fields raw h s) as (_ & Hsz & _).
  split; [now apply stored_wf | split; [now apply stored_extends | lia]].
Qed.

Lemma checkSize_keeps (step : Z) (h : store) (s : BufferStream) :
  wf h s -> keeps (checkSize step) h s.
Proof.
  intros Hwf. destruct (checkSize_wf step h s Hwf) as [Hwf' Hext].
  unfold keeps. split; [assumption | split; [assumption |]].
  rewrite checkSize_run by apply Hwf.
  destruct (offset s + step >? byteLength h (buffer s)); cbn [fst snd size]; lia.
Qed.

Lemma increment_keeps (step : Z) (h : store) (s : BufferStream) :
  wf h s -> 0 <= offset s + step <= byteLength h (buffer s) -> keeps (increment step) h s.
Proof.
  intros (Hb & Hview & Ho & Hs) Hstep. unfold keeps. rewrite increment_run. cbn [fst snd].
  split; [| split; [apply extends_refl | cbn [size]; lia]].
  unfold wf in *. cbn [buffer view offset size]. repeat split; try lia; assumption.
Qed.

Lemma write_keeps (T : numtype) (v : value) (h : store) (s : BufferStream) :
  wf h s -> keeps (write T v) h s.
Proof.
  intros Hwf. destruct (coerce T v) as [v' | e] eqn:Hc.
  - apply (keeps_stored _ (NumericToRawBytes T (ToNumber v') (isLittleEndian s)));
      [assumption |].
    now rewrite (write_run T v v'), written_stored.
  - pose proof (checkSize_keeps (width T) h s Hwf) as Hk.
    unfold keeps in *. now rewrite (write_throw T v e) by (apply Hwf || assumption).
Qed.

Lemma read_keeps (T : numtype) (h : store) (s : BufferStream) :
  wf h s -> keeps (read T) h s.
Proof.
  intros Hwf. pose proof Hwf as (Hb & Hview & Ho & Hs).
  pose proof (width_pos T) as Hw.
  destruct (has_reader T) eqn:HT.
  - destruct (Z.le_gt_cases (offset s + width T) (byteLength h (buffer s))) as [Hle | Hgt].
    + pose proof (increment_keeps (width T) h s Hwf ltac:(lia)) as Hk.
      unfold keeps in *. rewrite increment_run in Hk.
      now rewrite read_run by (rewrite ?Hview; assumption || lia).
    + apply keeps_unchanged; [assumption |].
      now rewrite read_out_of_range.
  - destruct T; try discriminate HT. now apply keeps_unchanged.
Qed.

Lemma readString_loop_keeps (n : nat) :
  forall (acc : string) (h : store) (s : BufferStream),
    wf h s -> keeps (readString_loop n acc) h s.
Proof.
  induction n as [| n IH]; intros acc h s Hwf; cbn [readString_loop].
  - now apply keeps_unchanged.
  - apply keeps_bind; [apply (read_keeps Uint8); assumption |].
    intros a h1 s1 _ Hwf1. now apply IH.
Qed.

Lemma readHex_loop_keeps (n : nat) :
  forall (acc : string) (h : store) (s : BufferStream),
    wf h s -> keeps (readHex_loop n acc) h s.
Proof.
  induction n as [| n IH]; intros acc h s Hwf; cbn [readHex_loop].
  - now apply keeps_unchanged.
  - apply keeps_bind; [apply (read_keeps Uint8); assumption |].
    intros a h1 s1 _ Hwf1. now apply IH.
Qed.

Lemma readUint16Array_loop_keeps (fuel : nat) :
  forall (len i : Z) (arr : list Z) (h : store) (s : BufferStream),
    wf h s -> keeps (readUint16Array_loop fuel len i arr) h s.
Proof.
  induction fuel as [| fuel IH]; intros len i arr h s Hwf; cbn [readUint16Array_loop].
  - now apply keeps_unchanged.
  - destruct (2 * i <? len); [| now apply keeps_unchanged].
    pose proof Hwf as (Hb & Hview & Ho & Hs).
    destruct (Z.le_gt_cases (offset s + 2) (byteLength h (view s))) as [Hle | Hgt].
    + assert (Hwf2 : wf h (with_offset (offset s + 2) s)).
      { unfold wf, with_offset in *. cbn [buffer view offset size].
        rewrite Hview in Hle. repeat split; try lia; assumption. }
      specialize (IH len (i + 1) (<[Z.to_nat (i + 1) :=
                    ToUint 16 (RawBytesToNumeric Uint16
                                 (region h (view s) (offset s) (width Uint16))
                                 (isLittleEndian s))]> arr) h _ Hwf2).
      unfold keeps in *. unfold bind, this, assign. cbn [fst snd].
      rewrite view_get_run by (cbn [width]; lia).
      cbn [fst snd]. exact IH.
    + apply keeps_unchanged; [assumption |].
      unfold bind, this, view_get, GetViewValue, byteLength in *. cbn [fst snd width].
      destruct (Z.ltb_spec (offset s) 0); [lia |].
      destruct (Z.gtb_spec (offset s + 2) (Z.of_nat (length (contents h (view s)))));
        [reflexivity | lia].
Qed.

Lemma string_length_even (v : string) :
  Z.odd (Z.of_nat (String.length v)) = false ->
  exists n, String.length v = (2 * n)%nat.
Proof.
  intros Hodd. exists (Nat.div2 (String.length v)).
  rewrite <- Z.negb_even, negb_false_iff in Hodd.
  apply Z.even_spec in Hodd as [k Hk].
  rewrite <- Nat.double_twice. apply Nat.Even_double.
  exists (Z.to_nat k). lia.
Qed.

(** X10.  The class invariant.  A cursor is well formed when its buffer is
    in the store, its view is on its buffer, and offset and size lie within
    the buffer.  Every method, called on a well-formed cursor with the
    arguments the class expects ([increment] within the buffer, [more] with
    a length that is not negative, [concat] with a well-formed cursor,
    [writeHex] with an even number of digits),
    leaves the cursor well formed, whether it returns or throws; it never
    removes a buffer from the store nor changes the length of one, so that
    every other well-formed cursor stays well formed too.  No method but
    [concat] ever lowers the size. *)
Theorem X10_class_invariant (m : method) (h : store) (s : BufferStream) :
  wf h s -> expected m h s ->
  wf (fst (state_after m (h, s))) (snd (state_after m (h, s))) /\
  extends h (fst (state_after m (h, s))) /\
  (forall other, wf h other -> wf (fst (state_after m (h, s))) other) /\
  ((forall other, m <> m_concat other) -> size s <= size (snd (state_after m (h, s)))).
Proof.
  intros Hwf Hexp.
  assert (Hkeeps : wf (fst (state_after m (h, s))) (snd (state_after m (h, s))) /\
                   extends h (fst (state_after m (h, s))) /\
                   ((forall other, m <> m_concat other) ->
                    size s <= size (snd (state_after m (h, s))))).
  { pose proof Hwf as (Hb & Hview & Ho & Hs).
    assert (Hk : forall A (c : M A), keeps c h s ->
              wf (fst (snd (c (h, s)))) (snd (snd (c (h, s)))) /\
              extends h (fst (snd (c (h, s)))) /\
              ((forall other, m <> m_concat other) -> size s <= size (snd (snd (c (h, s)))))).
    { intros A c (H1 & H2 & H3). auto. }
    destruct m; cbn [state_after expected] in *.
    - (* setEndian *)
      apply Hk. unfold keeps. cbn. split; [exact Hwf | split; [apply extends_refl | lia]].
    - (* numeric writers *)
      apply Hk. now apply write_keeps.
    - (* writeTwoUint16s *)
      apply Hk. eapply keeps_stored; [assumption |]. now rewrite writeTwoUint16s_run.
    - (* writeString *)
      apply Hk. eapply keeps_stored; [assumption |]. now rewrite writeString_run.
    - (* writeHex *)
      apply Hk. destruct (string_length_even v Hexp) as [n Hn].
      eapply keeps_stored; [assumption |].
      now destruct (writeHex_run v n h s Hwf Hn) as [-> _].
    - (* numeric readers *)
      apply Hk. now apply read_keeps.
    - (* readUint8Array *)
      apply Hk.
      destruct ((offset s <? 0) || (length <? 0)
                || (offset s + length >? byteLength h (buffer s))) eqn:Hcond.
      + apply keeps_unchanged; [assumption |].
        unfold readUint8Array, bind, this, byteLength_of, throw. cbn [fst snd].
        now rewrite Hcond.
      + apply orb_false_iff in Hcond as [Hcond H3].
        apply orb_false_iff in Hcond as [H1 H2].
        pose proof (increment_keeps length h s Hwf ltac:(lia)) as Hinc.
        unfold keeps in *.
        unfold readUint8Array, bind, this, byteLength_of, ret. cbn [fst snd].
        rewrite H1, H2, H3. cbn [orb].
        now destruct (increment length (h, s)) as [[? | ?] ?].
    - (* readUint16Array *)
      apply Hk. unfold readUint16Array. cbv zeta.
      destruct (Z.quot length 2 <? 0); [now apply keeps_unchanged |].
      now apply readUint16Array_loop_keeps.
    - (* readString *)
      apply Hk. now apply readString_loop_keeps.
    - (* readHex *)
      apply Hk. now apply readHex_loop_keeps.
    - (* checkSize *)
      apply Hk. now apply checkSize_keeps.
    - (* concat *)
      destruct (concat_run stream h s Hwf Hexp)
        as (h' & s' & -> & _ & _ & _ & _ & _ & Hwf' & Hext & _).
      split; [assumption | split; [assumption |]].
      intros Hne. now destruct (Hne stream).
    - (* increment *)
      apply Hk. now apply increment_keeps.
    - (* getBuffer *)
      apply Hk. unfold keeps. rewrite getBuffer_run. cbn [fst snd].
      split; [eapply wf_extends; [exact Hwf |] | split; [| lia]]; apply extends_alloc.
    - (* more *)
      apply Hk. unfold keeps. rewrite more_run by assumption.
      destruct (Z.gtb_spec (offset s + length) (byteLength h (buffer s))); cbn [fst snd].
      + split; [exact Hwf | split; [apply extends_refl | lia]].
      + split; [| split; [apply extends_alloc | cbn [size]; lia]].
        eapply wf_extends; [| apply extends_alloc].
        apply wf_increment; assumption || lia.
    - (* reset *)
      apply Hk. unfold keeps. cbn. split; [| split; [apply extends_refl | lia]].
      unfold wf in *. cbn. repeat split; try lia; assumption.
    - (* end *)
      apply Hk. now apply keeps_unchanged.
    - (* toEnd *)
      apply Hk. unfold keeps.
      unfold toEnd, bind, this, byteLength_of, assign, with_offset. cbn [fst snd size].
      split; [| split; [apply extends_refl | lia]].
      unfold wf, byteLength in *. cbn [buffer view offset size].
      repeat split; try lia; assumption. }
  destruct Hkeeps as (Hwf' & Hext & Hsz).
  split; [assumption | split; [assumption | split; [| assumption]]].
  intros other Hother. eapply wf_extends; eassumption.
Qed.

Lemma X10_class_invariant_witness :
  wf (fst (state_after (m_more 1) ([[1; 2]], mkBufferStream 0 0 0 false 2)))
     (snd (state_after (m_more 1) ([[1; 2]], mkBufferStream 0 0 0 false 2))) /\
  extends [[1; 2]] (fst (state_after (m_more 1) ([[1; 2]], mkBufferStream 0 0 0 false 2))) /\
  (forall other, wf [[1; 2]] other ->
     wf (fst (state_after (m_more 1) ([[1; 2]], mkBufferStream 0 0 0 false 2))) other) /\
  ((forall other, m_more 1 <> m_concat other) ->
   size (mkBufferStream 0 0 0 false 2)
   <= size (snd (state_after (m_more 1) ([[1; 2]], mkBufferStream 0 0 0 false 2)))).
Proof.
  apply (X10_class_invariant (m_more 1) [[1; 2]] (mkBufferStream 0 0 0 false 2)).
  - unfold wf, byteLength, contents. cbn. lia.
  - cbn. lia.
Defined.

(** ** [concat], then [getBuffer] *)

(** X11.  After [concat(other)], [getBuffer()] returns a new buffer that
    holds the bytes this cursor had below its offset followed by the bytes
    [other] has below its size, and nothing else: what this cursor held
    from its offset on is gone from the result.  No buffer of the store but
    this cursor's own is written to. *)
Theorem X11_concat_getBuffer (other : BufferStream) (h : store) (s : BufferStream) :
  wf h s -> wf h other ->
  exists b h' s',
    (concat other ;;; getBuffer None None) (h, s) = (Return b, (h', s')) /\
    contents h' b =
      take (Z.to_nat (offset s)) (contents h (buffer s))
        ++ take (Z.to_nat (size other)) (contents h (buffer other)) /\
    (length h <= b)%nat /\
    forall b0, (b0 < length h)%nat -> b0 <> buffer s -> contents h' b0 = contents h b0.
Proof.
  intros Hwf Hwfo.
  pose proof Hwf as (Hb & Hview & Ho & Hs).
  pose proof Hwfo as (Hbo & _ & _ & Hso).
  destruct (concat_run other h s Hwf Hwfo)
    as (h1 & s1 & Hrun & Hlow & Hhigh & Hoff & Hsz & _ & Hwf1 & [Hlen Hext] & Hframe & _).
  pose proof Hwf1 as (Hb1 & _ & Ho1 & _).
  unfold bind. rewrite Hrun, getBuffer_run. cbn [falsy andb].
  exists (length h1), (h1 ++ [slice_bytes (contents h1 (buffer s1)) 0 (Some (size s1))]), s1.
  split; [reflexivity |]. split; [| split; [lia |]].
  - rewrite contents_alloc_new.
    destruct (slice_bytes_region (contents h1 (buffer s1)) 0 (size s1)) as [-> _];
      unfold byteLength in *; try lia.
    rewrite Z.sub_0_r, Hsz, Hoff.
    pose proof (region_app h1 (buffer s1) 0 (offset s) (size other)) as Happ.
    unfold region in Happ, Hlow, Hhigh.
    rewrite Z.add_0_l in Happ. rewrite Happ by lia.
    change (Z.to_nat 0) with 0%nat in *. rewrite drop_0 in *.
    now rewrite Hlow, Hhigh.
  - intros b0 Hb0 Hne. rewrite contents_alloc_old by lia. now apply Hframe.
Qed.

Lemma X11_concat_getBuffer_witness :
  exists b h' s',
    (concat (mkBufferStream 1 1 0 false 2) ;;; getBuffer None None)
      ([[1; 2; 3]; [7; 8; 9]], mkBufferStream 0 0 1 false 3) = (Return b, (h', s')) /\
    contents h' b =
      take (Z.to_nat (offset (mkBufferStream 0 0 1 false 3)))
        (contents [[1; 2; 3]; [7; 8; 9]] (buffer (mkBufferStream 0 0 1 false 3)))
        ++ take (Z.to_nat (size (mkBufferStream 1 1 0 false 2)))
             (contents [[1; 2; 3]; [7; 8; 9]] (buffer (mkBufferStream 1 1 0 false 2))) /\
    (length [[1; 2; 3]; [7; 8; 9]] <= b)%nat /\
    forall b0, (b0 < length [[1; 2; 3]; [7; 8; 9]])%nat ->
      b0 <> buffer (mkBufferStream 0 0 1 false 3) ->
      contents h' b0 = contents [[1; 2; 3]; [7; 8; 9]] b0.
Proof.
  apply (X11_concat_getBuffer (mkBufferStream 1 1 0 false 2) [[1; 2; 3]; [7; 8; 9]]
           (mkBufferStream 0 0 1 false 3)).
  - unfold wf, byteLength, contents. cbn. lia.
  - unfold wf, byteLength, contents. cbn. lia.
Defined.

(** ** The byte order of a sub-cursor *)

(** X12.  The cursor that [more(n)] returns always reads big-endian,
    whatever the byte order of the cursor it was taken from: a reader on it
    returns the big-endian decoding of the bytes the parent had at its
    offset, where the same reader on the parent decodes them in the
    parent's byte order. *)
Theorem X12_more_big_endian (T : numtype) (n : Z) (h : store) (s : BufferStream) :
  wf h s -> has_reader T = true -> width T <= n ->
  offset s + n <= byteLength h (buffer s) ->
  exists sub h' s',
    more n (h, s) = (Return sub, (h', s')) /\
    isLittleEndian sub = false /\
    isLittleEndian s' = isLittleEndian s /\
    fst (read T (h', sub)) =
      Return (RawBytesToNumeric T (region h (buffer s) (offset s) (width T)) false) /\
    fst (read T (h, s)) =
      Return (RawBytesToNumeric T (region h (buffer s) (offset s) (width T))
                (isLittleEndian s)).
Proof.
  intros Hwf HT Hw Hfit. pose proof Hwf as (Hb & Hview & Ho & Hs).
  pose proof (width_pos T) as Hpos.
  rewrite more_run by (assumption || lia).
  destruct (Z.gtb_spec (offset s + n) (byteLength h (buffer s))); [lia |].
  do 3 eexists. split; [reflexivity |]. split; [reflexivity |]. split; [reflexivity |].
  assert (Hlen : Z.of_nat (length (region h (buffer s) (offset s) n)) = n)
    by (apply length_region; lia).
  split.
  - rewrite read_run; cbn [view offset isLittleEndian fst]; try assumption; try lia.
    + f_equal. f_equal. unfold region at 1. rewrite contents_alloc_new.
      change (Z.to_nat 0) with 0%nat. rewrite drop_0.
      unfold region. rewrite take_take. f_equal. lia.
    + unfold byteLength. rewrite contents_alloc_new. lia.
  - rewrite read_run by (rewrite ?Hview; assumption || lia).
    cbn [fst]. now rewrite Hview.
Qed.

Lemma X12_more_big_endian_witness :
  exists sub h' s',
    more 2 ([[1; 2]], mkBufferStream 0 0 0 true 2) = (Return sub, (h', s')) /\
    isLittleEndian sub = false /\
    isLittleEndian s' = isLittleEndian (mkBufferStream 0 0 0 true 2) /\
    fst (read Uint16 (h', sub)) =
      Return (RawBytesToNumeric Uint16
                (region [[1; 2]] (buffer (mkBufferStream 0 0 0 true 2))
                   (offset (mkBufferStream 0 0 0 true 2)) (width Uint16)) false) /\
    fst (read Uint16 ([[1; 2]], mkBufferStream 0 0 0 true 2)) =
      Return (RawBytesToNumeric Uint16
                (region [[1; 2]] (buffer (mkBufferStream 0 0 0 true 2))
                   (offset (mkBufferStream 0 0 0 true 2)) (width Uint16))
                (isLittleEndian (mkBufferStream 0 0 0 true 2))).
Proof.
  apply (X12_more_big_endian Uint16 2 [[1; 2]] (mkBufferStream 0 0 0 true 2)).
  - unfold wf, byteLength, contents. cbn. lia.
  - reflexivity.
  - cbn. lia.
  - unfold byteLength, contents. cbn. lia.
Defined.

(** ** Construction *)

(** X13.  The three constructors differ only in the size they start with.
    Given a length that is not negative they allocate that many zero bytes;
    given an ArrayBuffer they wrap it without copying; given nothing they
    allocate an empty buffer.  The cursor starts well formed at offset 0,
    big-endian unless told otherwise.  [BufferStream] and
    [WriteBufferStream] start with size 0, so that [getBuffer()] on the
    fresh cursor returns an empty buffer even when it wraps a full one;
    [ReadBufferStream] starts with the size of the buffer, so that
    [getBuffer()] returns a copy of all of it. *)
Theorem X13_constructors (arg : sizeOrBuffer) (littleEndian : option bool) (h : store) :
  match arg with
  | Size n => 0 <= n
  | Buffer b => (b < length h)%nat
  | Nullish => True
  end ->
  exists s0 h',
    BufferStream_constructor arg littleEndian h = (Return s0, h') /\
    WriteBufferStream arg littleEndian h = (Return s0, h') /\
    ReadBufferStream arg littleEndian h =
      (Return (with_size (byteLength h' (buffer s0)) s0), h') /\
    wf h' s0 /\ wf h' (with_size (byteLength h' (buffer s0)) s0) /\
    offset s0 = 0 /\ size s0 = 0 /\
    isLittleEndian s0 = default false littleEndian /\
    match arg with
    | Size n => h' = h ++ [replicate (Z.to_nat n) 0] /\ buffer s0 = length h
    | Buffer b => h' = h /\ buffer s0 = b
    | Nullish => h' = h ++ [[]] /\ buffer s0 = length h
    end /\
    contents (fst (snd (getBuffer None None (h', s0)))) (length h') = [] /\
    contents (fst (snd (getBuffer None None
                          (h', with_size (byteLength h' (buffer s0)) s0)))) (length h') =
      contents h' (buffer s0).
Proof.
  intros Harg.
  assert (Hget : forall (h' : store) (s0 : BufferStream), size s0 = 0 ->
            contents (fst (snd (getBuffer None None (h', s0)))) (length h') = [] /\
            contents (fst (snd (getBuffer None None
                                  (h', with_size (byteLength h' (buffer s0)) s0))))
              (length h') = contents h' (buffer s0)).
  { intros h' s0 Hsz. rewrite !getBuffer_run.
    cbn [fst snd falsy andb buffer size with_size]. rewrite !contents_alloc_new, Hsz.
    unfold byteLength. split.
    - destruct (slice_bytes_region (contents h' (buffer s0)) 0 0) as [-> _]; try lia.
      reflexivity.
    - set (bs := contents h' (buffer s0)).
      destruct (slice_bytes_region bs 0 (Z.of_nat (length bs))) as [-> _]; try lia.
      change (Z.to_nat 0) with 0%nat. rewrite drop_0, Z.sub_0_r, Nat2Z.id.
      apply firstn_all. }
  unfold WriteBufferStream, ReadBufferStream, BufferStream_constructor, alloc.
  destruct arg as [n | b |].
  - destruct (Z.ltb_spec n 0); [lia |].
    do 2 eexists. split; [reflexivity |]. split; [reflexivity |]. split; [reflexivity |].
    split; [| split]; [| | split; [reflexivity | split; [reflexivity | split;
      [reflexivity | split; [split; reflexivity | now apply Hget]]]]].
    + unfold wf, byteLength. cbn [buffer view offset size].
      rewrite contents_alloc_new, length_app. cbn [length]. lia.
    + unfold wf, byteLength, with_size. cbn [buffer view offset size].
      rewrite contents_alloc_new, length_app. cbn [length]. lia.
  - do 2 eexists. split; [reflexivity |]. split; [reflexivity |]. split; [reflexivity |].
    split; [| split]; [| | split; [reflexivity | split; [reflexivity | split;
      [reflexivity | split; [split; reflexivity | now apply Hget]]]]].
    + unfold wf, byteLength. cbn [buffer view offset size]. lia.
    + unfold wf, byteLength, with_size. cbn [buffer view offset size]. lia.
  - do 2 eexists. split; [reflexivity |]. split; [reflexivity |]. split; [reflexivity |].
    split; [| split]; [| | split; [reflexivity | split; [reflexivity | split;
      [reflexivity | split; [split; reflexivity | now apply Hget]]]]].
    + unfold wf, byteLength. cbn [buffer view offset size].
      rewrite contents_alloc_new, length_app. cbn [length]. lia.
    + unfold wf, byteLength, with_size. cbn [buffer view offset size].
      rewrite contents_alloc_new, length_app. cbn [length]. lia.
Qed.

Lemma X13_constructors_witness :
  exists s0 h',
    BufferStream_constructor (Buffer 0%nat) (Some true) [[1; 2]] = (Return s0, h') /\
    WriteBufferStream (Buffer 0%nat) (Some true) [[1; 2]] = (Return s0, h') /\
    ReadBufferStream (Buffer 0%nat) (Some true) [[1; 2]] =
      (Return (with_size (byteLength h' (buffer s0)) s0), h') /\
    wf h' s0 /\ wf h' (with_size (byteLength h' (buffer s0)) s0) /\
    offset s0 = 0 /\ size s0 = 0 /\
    isLittleEndian s0 = default false (Some true) /\
    (h' = [[1; 2]] /\ buffer s0 = 0%nat) /\
    contents (fst (snd (getBuffer None None (h', s0)))) (length h') = [] /\
    contents (fst (snd (getBuffer None None
                          (h', with_size (byteLength h' (buffer s0)) s0)))) (length h') =
      contents h' (buffer s0).
Proof.
  apply (X13_constructors (Buffer 0%nat) (Some true) [[1; 2]]).
  cbn. lia.
Defined.

(** ** A read that runs out of bytes *)

Lemma readString_loop_short (n : nat) :
  forall (acc : string) (h : store) (s : BufferStream),
    wf h s -> byteLength h (buffer s) - offset s < Z.of_nat n ->
    readString_loop n acc (h, s) =
      (Throw RangeError,
       (h, mkBufferStream (buffer s) (view s) (byteLength h (buffer s)) (isLittleEndian s)
             (if offset s =? byteLength h (buffer s) then size s
              else Z.max (size s) (byteLength h (buffer s))))).
Proof.
  induction n as [| n IH]; intros acc h s Hwf Hshort;
    pose proof Hwf as (Hb & Hview & Ho & Hs); [lia |].
  cbn [readString_loop]. unfold bind. change readUint8 with (read Uint8).
  destruct (Z.eqb_spec (offset s) (byteLength h (buffer s))) as [Heq | Hne].
  - rewrite read_out_of_range by (cbn [width]; reflexivity || assumption || lia).
    rewrite <- Heq. now destruct s.
  - rewrite read_run by (rewrite ?Hview; cbn [width]; reflexivity || lia).
    cbn [width]. rewrite IH; cbn [buffer view offset isLittleEndian size].
    + do 3 f_equal.
      destruct (Z.eqb_spec (offset s + 1) (byteLength h (buffer s))); lia.
    + apply wf_increment; assumption || lia.
    + lia.
Qed.

Lemma readHex_loop_short (n : nat) :
  forall (acc : string) (h : store) (s : BufferStream),
    wf h s -> byteLength h (buffer s) - offset s < Z.of_nat n ->
    readHex_loop n acc (h, s) =
      (Throw RangeError,
       (h, mkBufferStream (buffer s) (view s) (byteLength h (buffer s)) (isLittleEndian s)
             (if offset s =? byteLength h (buffer s) then size s
              else Z.max (size s) (byteLength h (buffer s))))).
Proof.
  induction n as [| n IH]; intros acc h s Hwf Hshort;
    pose proof Hwf as (Hb & Hview & Ho & Hs); [lia |].
  cbn [readHex_loop]. unfold bind. change readUint8 with (read Uint8).
  destruct (Z.eqb_spec (offset s) (byteLength h (buffer s))) as [Heq | Hne].
  - rewrite read_out_of_range by (cbn [width]; reflexivity || assumption || lia).
    rewrite <- Heq. now destruct s.
  - rewrite read_run by (rewrite ?Hview; cbn [width]; reflexivity || lia).
    cbn [width]. rewrite IH; cbn [buffer view offset isLittleEndian size].
    + do 3 f_equal.
      destruct (Z.eqb_spec (offset s + 1) (byteLength h (buffer s))); lia.
    + apply wf_increment; assumption || lia.
    + lia.
Qed.

(** X14.  [readString] and [readHex] are not all-or-nothing.  Asked for
    more bytes than the buffer has left, they throw RangeError only after
    having read to the end of the buffer: the offset is left at the
    buffer's byte length (and the size raised to it, unless nothing was
    left at all), and the characters read so far are lost.  No buffer is
    changed. *)
Theorem X14_partial_read (n : Z) (h : store) (s : BufferStream) :
  wf h s -> byteLength h (buffer s) - offset s < n ->
  exists s',
    readString n (h, s) = (Throw RangeError, (h, s')) /\
    readHex n (h, s) = (Throw RangeError, (h, s')) /\
    offset s' = byteLength h (buffer s) /\
    size s' = (if offset s =? byteLength h (buffer s) then size s
               else Z.max (size s) (byteLength h (buffer s))) /\
    buffer s' = buffer s /\ isLittleEndian s' = isLittleEndian s /\
    end_ (h, s') = (Return true, (h, s')).
Proof.
  intros Hwf Hshort. pose proof Hwf as (Hb & Hview & Ho & Hs).
  unfold readString, readHex.
  rewrite readString_loop_short, readHex_loop_short by (assumption || lia).
  eexists. split; [reflexivity |]. split; [reflexivity |].
  cbn [offset size buffer isLittleEndian].
  repeat split.
  unfold end_, bind, this, byteLength_of, ret. cbn [fst snd buffer offset].
  now rewrite Z.geb_leb, Z.leb_refl.
Qed.

Lemma X14_partial_read_witness :
  exists s',
    readString 3 ([[65; 66]], mkBufferStream 0 0 0 false 0) = (Throw RangeError, ([[65; 66]], s')) /\
    readHex 3 ([[65; 66]], mkBufferStream 0 0 0 false 0) = (Throw RangeError, ([[65; 66]], s')) /\
    offset s' = byteLength [[65; 66]] (buffer (mkBufferStream 0 0 0 false 0)) /\
    size s' =
      (if offset (mkBufferStream 0 0 0 false 0)
          =? byteLength [[65; 66]] (buffer (mkBufferStream 0 0 0 false 0))
       then size (mkBufferStream 0 0 0 false 0)
       else Z.max (size (mkBufferStream 0 0 0 false 0))
              (byteLength [[65; 66]] (buffer (mkBufferStream 0 0 0 false 0)))) /\
    buffer s' = buffer (mkBufferStream 0 0 0 false 0) /\
    isLittleEndian s' = isLittleEndian (mkBufferStream 0 0 0 false 0) /\
    end_ ([[65; 66]], s') = (Return true, ([[65; 66]], s')).
Proof.
  apply (X14_partial_read 3 [[65; 66]] (mkBufferStream 0 0 0 false 0)).
  - unfold wf, byteLength, contents. cbn. lia.
  - unfold byteLength, contents. cbn. lia.
Defined.

(** ** Typed arrays over the cursor's buffer *)



(** ** [readUint16Array] in general *)

(** X16.  What [readUint16Array(2k)] does on any cursor with [2k] bytes
    left: it returns an array of [k] elements whose first element is 0 and
    whose element [j + 1] is the [j]-th 16-bit value read, so that the last
    value read is dropped; the offset has moved by [2k], and the size is
    left alone, since the loop moves the offset without [increment]. *)
Theorem X16_readUint16Array_shift (k : nat) (h : store) (s : BufferStream) :
  wf h s -> offset s + 2 * Z.of_nat k <= byteLength h (buffer s) ->
  exists arr s',
    readUint16Array (2 * Z.of_nat k) (h, s) = (Return arr, (h, s')) /\
    length arr = k /\
    ((0 < k)%nat -> arr !! 0%nat = Some 0) /\
    (forall j, (S j < k)%nat ->
       arr !! S j =
         Some (ToUint 16 (RawBytesToNumeric Uint16
                            (region h (buffer s) (offset s + 2 * Z.of_nat j) 2)
                            (isLittleEndian s)))) /\
    offset s' = offset s + 2 * Z.of_nat k /\ size s' = size s /\
    buffer s' = buffer s /\ isLittleEndian s' = isLittleEndian s.
Proof.
  intros (Hb & Hview & Ho & Hs) Hfit.
  destruct (readUint16Array_run k h s) as (arr & Hrun & Hlen & Hzero & Hshift);
    [lia | rewrite Hview; lia |].
  exists arr, (with_offset (offset s + 2 * Z.of_nat k) s).
  split; [exact Hrun |]. split; [exact Hlen |]. split; [exact Hzero |].
  split; [| repeat split].
  intros j Hj. rewrite (Hshift j Hj). unfold uint16_at. now rewrite Hview.
Qed.

Lemma X16_readUint16Array_shift_witness :
  exists arr s',
    readUint16Array (2 * Z.of_nat 2) ([[0; 1; 0; 2]], mkBufferStream 0 0 0 false 4) =
      (Return arr, ([[0; 1; 0; 2]], s')) /\
    length arr = 2%nat /\
    ((0 < 2)%nat -> arr !! 0%nat = Some 0) /\
    (forall j, (S j < 2)%nat ->
       arr !! S j =
         Some (ToUint 16 (RawBytesToNumeric Uint16
                            (region [[0; 1; 0; 2]] (buffer (mkBufferStream 0 0 0 false 4))
                               (offset (mkBufferStream 0 0 0 false 4) + 2 * Z.of_nat j) 2)
                            (isLittleEndian (mkBufferStream 0 0 0 false 4))))) /\
    offset s' = offset (mkBufferStream 0 0 0 false 4) + 2 * Z.of_nat 2 /\
    size s' = size (mkBufferStream 0 0 0 false 4) /\
    buffer s' = buffer (mkBufferStream 0 0 0 false 4) /\
    isLittleEndian s' = isLittleEndian (mkBufferStream 0 0 0 false 4).
Proof.
  apply (X16_readUint16Array_shift 2 [[0; 1; 0; 2]] (mkBufferStream 0 0 0 false 4)).
  - unfold wf, byteLength, contents. cbn. lia.
  - unfold byteLength, contents. cbn. lia.
Defined.

(** ** Writes on a cursor built without a buffer *)

Lemma stored_append (raw : list Z) (h : store) (s : BufferStream) :
  wf h s -> offset s = byteLength h (buffer s) -> size s = offset s ->
  contents (fst (stored raw h s)) (buffer (snd (stored raw h s))) =
    contents h (buffer s) ++ raw /\
  offset (snd (stored raw h s)) =
    byteLength (fst (stored raw h s)) (buffer (snd (stored raw h s))) /\
  size (snd (stored raw h s)) = offset (snd (stored raw h s)) /\
  isLittleEndian (snd (stored raw h s)) = isLittleEndian s.
Proof.
  intros Hwf Hend Hsz. pose proof Hwf as (Hb & Hview & Ho & Hs).
  destruct (stored_fields raw h s) as (Hoff' & Hsz' & Hle' & _ & _).
  pose proof (stored_byteLength raw h s Hwf) as Hlen'.
  pose proof (stored_prefix raw h s Hwf) as Hpre.
  split; [| split; [lia | split; [lia | assumption]]].
  unfold byteLength in *.
  rewrite firstn_all2 in Hpre by lia.
  rewrite firstn_all2 in Hpre by lia. exact Hpre.
Qed.

Lemma coerce_stored_number (T : numtype) (v : value) :
  isNaN v = false ->
  exists v', coerce T v = Return v' /\ ToNumber v' = stored_number T v.
Proof.
  intros Hn. rewrite coerce_cases, Hn.
  destruct v; eexists; (split; [reflexivity |]); reflexivity.
Qed.

(** What an accepted call does: it returns the number of bytes it laid
    down, and leaves them stored at the old offset. *)
Lemma perform_run (c : write_call) (h : store) (s : BufferStream) :
  wf h s -> accepted c ->
  perform c (h, s) =
    (Return (Z.of_nat (length (bytes_of (isLittleEndian s) c))),
     stored (bytes_of (isLittleEndian s) c) h s).
Proof.
  intros Hwf Hacc. destruct c as [T v | v | v | v]; cbn [perform accepted bytes_of] in *.
  - destruct (coerce_stored_number T v Hacc) as (v' & Hc & Hv').
    pose proof (width_pos T).
    rewrite (write_run T v v' h s Hwf Hc), Hv', written_stored.
    now rewrite length_NumericToRawBytes, Z2Nat.id by lia.
  - rewrite writeTwoUint16s_run by assumption.
    now rewrite length_app, !length_NumericToRawBytes.
  - rewrite writeString_run by assumption. now rewrite length_map.
  - destruct (string_length_even v Hacc) as [n Hn].
    destruct (writeHex_run v n h s Hwf Hn) as [-> ->]. reflexivity.
Qed.

Lemma perform_all_run (cs : list write_call) :
  forall (h : store) (s : BufferStream),
    wf h s -> offset s = byteLength h (buffer s) -> size s = offset s ->
    Forall accepted cs ->
    exists h' s',
      perform_all cs (h, s) = (Return tt, (h', s')) /\ wf h' s' /\
      contents h' (buffer s') = contents h (buffer s) ++ bytes_of_all (isLittleEndian s) cs /\
      offset s' = byteLength h' (buffer s') /\ size s' = offset s' /\
      isLittleEndian s' = isLittleEndian s.
Proof.
  induction cs as [| c cs IH]; intros h s Hwf Hend Hsz Hacc.
  - exists h, s. cbn [perform_all bytes_of_all]. rewrite app_nil_r.
    split; [reflexivity |]. split; [assumption |]. auto.
  - inversion Hacc as [| c' cs' Hc Hcs]; subst.
    set (raw := bytes_of (isLittleEndian s) c).
    destruct (stored_append raw h s Hwf Hend Hsz) as (Hcont & Hend1 & Hsz1 & Hle1).
    pose proof (stored_wf raw h s Hwf) as Hwf1.
    destruct (IH _ _ Hwf1 Hend1 Hsz1 Hcs)
      as (h' & s' & Hrun & Hwf' & Hcont' & Hend' & Hsz' & Hle').
    exists h', s'. cbn [perform_all bytes_of_all]. unfold bind.
    rewrite (perform_run c h s Hwf Hc). fold raw. cbv beta iota.
    rewrite (surjective_pairing (stored raw h s)), Hrun.
    split; [reflexivity |]. split; [assumption |].
    split; [| split; [assumption | split; [assumption | congruence]]].
    rewrite Hcont', Hcont, Hle1, <- app_assoc. reflexivity.
Qed.

(** C10, as amended.  A constructor given [null] or nothing for the buffer
    does not throw: the base class, the write cursor and the read cursor all
    come out over a new buffer of length 0, with offset 0 and size 0.  On
    that cursor every sequence of writes whose arguments the writers accept
    (a numeric argument that is not NaN after conversion, an even number of
    hex digits) returns, the buffer growing as needed: afterwards the buffer
    holds exactly the bytes of the calls, one after the other, and the
    offset, the size and the length of the buffer are their number. *)
Theorem C10_null_buffer (littleEndian : option bool) (h : store)
    (calls : list write_call) :
  Forall accepted calls ->
  exists s0,
    BufferStream_constructor Nullish littleEndian h = (Return s0, h ++ [[]]) /\
    WriteBufferStream Nullish littleEndian h = (Return s0, h ++ [[]]) /\
    ReadBufferStream Nullish littleEndian h = (Return s0, h ++ [[]]) /\
    byteLength (h ++ [[]]) (buffer s0) = 0 /\ offset s0 = 0 /\ size s0 = 0 /\
    wf (h ++ [[]]) s0 /\
    exists h' s',
      perform_all calls (h ++ [[]], s0) = (Return tt, (h', s')) /\ wf h' s' /\
      contents h' (buffer s') = bytes_of_all (default false littleEndian) calls /\
      byteLength h' (buffer s') = Z.of_nat (length (bytes_of_all (default false littleEndian) calls)) /\
      offset s' = byteLength h' (buffer s') /\
      size s' = byteLength h' (buffer s') /\
      isLittleEndian s' = default false littleEndian.
Proof.
  intros Hacc.
  set (s0 := mkBufferStream (length h) (length h) 0 (default false littleEndian) 0).
  assert (Hcont0 : contents (h ++ [[]]) (buffer s0) = [])
    by (cbn [buffer s0]; apply contents_alloc_new).
  assert (Hlen : byteLength (h ++ [[]]) (buffer s0) = 0).
  { unfold byteLength. now rewrite Hcont0. }
  assert (Hwf : wf (h ++ [[]]) s0).
  { unfold wf. rewrite Hlen, length_app. cbn. lia. }
  exists s0. split; [reflexivity |]. split; [reflexivity |]. split.
  { unfold ReadBufferStream, BufferStream_constructor, alloc, with_size. cbn [buffer].
    change (byteLength (h ++ [[]]) (length h)) with (byteLength (h ++ [[]]) (buffer s0)).
    now rewrite Hlen. }
  split; [assumption |]. split; [reflexivity |]. split; [reflexivity |].
  split; [assumption |].
  destruct (perform_all_run calls (h ++ [[]]) s0 Hwf)
    as (h' & s' & Hrun & Hwf' & Hcont & Hend & Hsz & Hle); try assumption.
  { rewrite Hlen. reflexivity. }
  { reflexivity. }
  rewrite Hcont0, app_nil_l in Hcont. cbn [isLittleEndian s0] in Hcont, Hle.
  exists h', s'. split; [assumption |]. split; [assumption |].
  split; [assumption |].
  split; [unfold byteLength; now rewrite Hcont |].
  split; [assumption |]. split; [lia | assumption].
Qed.

Lemma C10_null_buffer_witness :
  exists s0,
    BufferStream_constructor Nullish None [] = (Return s0, [[]]) /\
    WriteBufferStream Nullish None [] = (Return s0, [[]]) /\
    ReadBufferStream Nullish None [] = (Return s0, [[]]) /\
    byteLength [[]] (buffer s0) = 0 /\ offset s0 = 0 /\ size s0 = 0 /\
    wf [[]] s0 /\
    exists h' s',
      perform_all [CallNumeric Uint32 (VNumber (of_Z 7)); CallString (Some "ab"%string);
                   CallHex "1a2b"; CallTwoUint16s (VNumber (of_Z 131071))]
        ([[]], s0) = (Return tt, (h', s')) /\ wf h' s' /\
      contents h' (buffer s') =
        bytes_of_all (default false None)
          [CallNumeric Uint32 (VNumber (of_Z 7)); CallString (Some "ab"%string);
           CallHex "1a2b"; CallTwoUint16s (VNumber (of_Z 131071))] /\
      byteLength h' (buffer s') =
        Z.of_nat (length (bytes_of_all (default false None)
          [CallNumeric Uint32 (VNumber (of_Z 7)); CallString (Some "ab"%string);
           CallHex "1a2b"; CallTwoUint16s (VNumber (of_Z 131071))])) /\
      offset s' = byteLength h' (buffer s') /\
      size s' = byteLength h' (buffer s') /\
      isLittleEndian s' = default false None.
Proof.
  apply (C10_null_buffer None []).
  repeat constructor.
Defined.

(** C10 as stated fails: not every write succeeds on the cursor built
    without a buffer.  [writeHex] of a single digit asks [checkSize] for
    half a byte, the new buffer has none, and the store of the digit throws
    RangeError; and a numeric writer throws on NaN as on any cursor. *)
Lemma C10_counterexample :
  exists s0,
    WriteBufferStream Nullish None [] = (Return s0, [[]]) /\
    fst (writeHex "a" ([[]], s0)) = Throw RangeError /\
    fst (writeUint8 (VNumber NaN) ([[]], s0)) = Throw (NotANumber (VNumber NaN)).
Proof. eexists. split; [reflexivity |]. split; reflexivity. Qed.
